(** * Mission to the Moon: the simulation core of [space.py]

    A shallow embedding of the game's arithmetic engine ([Player.calculate]),
    its effect timers, spawners and collision resolution
    ([SpaceMathGame.run]) and its reset ([SpaceMathGame.reset_game]).

    Python's [float] is IEEE 754 binary64.  Its operations are taken from
    the Standard Library's executable specification [SpecFloat] at
    precision 53 and maximal exponent 1024; Python's [int] is [Z]. *)

From Stdlib Require Import ZArith QArith Qabs Lia List Bool FinFun.
From Stdlib Require Import Floats.SpecFloat.
Import ListNotations.

Local Open Scope Z_scope.

(** ** Python exceptions and the error monad *)

Inductive PyExc : Type :=
| OverflowError
| ValueError
| TypeError
| SystemExit.

Definition PyExc_eqb (a b : PyExc) : bool :=
  match a, b with
  | OverflowError, OverflowError
  | ValueError, ValueError
  | TypeError, TypeError
  | SystemExit, SystemExit => true
  | _, _ => false
  end.

Inductive result (A : Type) : Type :=
| Ok (a : A)
| Raise (e : PyExc).

Arguments Ok {A} a.
Arguments Raise {A} e.

Definition bind {A B : Type} (r : result A) (k : A -> result B) : result B :=
  match r with
  | Ok a => k a
  | Raise e => Raise e
  end.

Notation "x <- r ;; k" := (bind r (fun x => k))
  (at level 61, r at next level, right associativity).
Notation "' p <- r ;; k" := (bind r (fun p => k))
  (at level 61, p pattern, r at next level, right associativity).

(** ** Python numbers *)

Module PyNum.

Definition prec : Z := 53.
Definition emax : Z := 1024.

Definition float : Type := spec_float.

Definition fadd : float -> float -> float := SFadd prec emax.
Definition fsub : float -> float -> float := SFsub prec emax.
Definition fmul : float -> float -> float := SFmul prec emax.
Definition fdiv : float -> float -> float := SFdiv prec emax.
Definition flt : float -> float -> bool := SFltb.

(** A mathematical integer rounded to the nearest binary64 (ties to even);
    an infinity when it is out of range. *)
Definition of_Z (z : Z) : float := binary_normalize prec emax z 0 false.

(** [float(n)] and the implicit conversion of an [int] operand of a
    [float] operation: [OverflowError] when [n] is too large. *)
Definition py_float (z : Z) : result float :=
  match of_Z z with
  | S754_infinity _ => Raise OverflowError
  | f => Ok f
  end.

(** The decimal literal [n/d] of the source ([1.2] is [literal 12 10]):
    the binary64 nearest to the quotient. *)
Definition literal (n d : Z) : float := fdiv (of_Z n) (of_Z d).

(** The integer nearest to [n / d] for [d > 0], ties to even. *)
Definition round_div (n d : Z) : Z :=
  let q := n / d in
  let r := n mod d in
  match 2 * r ?= d with
  | Lt => q
  | Gt => q + 1
  | Eq => if Z.even q then q else q + 1
  end.

(** [round(x)] with one argument. *)
Definition py_round (x : float) : result Z :=
  match x with
  | S754_zero _ => Ok 0
  | S754_infinity _ => Raise OverflowError
  | S754_nan => Raise ValueError
  | S754_finite s m e =>
      Ok (cond_Zopp s
            (if 0 <=? e then Z.pos m * 2 ^ e
             else round_div (Z.pos m) (2 ^ (- e))))
  end.

(** [x % 1 != 0]: the float has a fractional part.  For an infinity or a
    NaN, [x % 1] is a NaN, which differs from [0]. *)
Definition has_fraction (x : float) : bool :=
  match x with
  | S754_zero _ => false
  | S754_infinity _ => true
  | S754_nan => true
  | S754_finite _ m e =>
      if 0 <=? e then false else negb (Z.pos m mod 2 ^ (- e) =? 0)
  end.

(** The integer nearest to a float, ties away from zero (C's [round]). *)
Definition round_half_away (x : float) : Z :=
  match x with
  | S754_finite s m e =>
      cond_Zopp s
        (if 0 <=? e then Z.pos m * 2 ^ e
         else (2 * Z.pos m + 2 ^ (- e)) / (2 * 2 ^ (- e)))
  | _ => 0
  end.

(** The range of a C [int], in which [pygame.Rect] keeps its fields. *)
Definition INT_MIN : Z := - 2 ^ 31.
Definition INT_MAX : Z := 2 ^ 31 - 1.

(** What [pygame.Rect] stores when a float is assigned to a coordinate: the
    nearest integer, ties away from zero; [TypeError] when that is not in
    the range of a C [int], as for an infinity or a NaN. *)
Definition rect_coordinate (x : float) : result Z :=
  match x with
  | S754_infinity _ => Raise TypeError
  | S754_nan => Raise TypeError
  | _ =>
      let z := round_half_away x in
      if (INT_MIN <=? z) && (z <=? INT_MAX) then Ok z else Raise TypeError
  end.

End PyNum.

Import PyNum.

(** ** Configuration *)

Definition WIDTH : Z := 1000.
Definition HEIGHT : Z := 700.
Definition PLAYER_SPEED : Z := 9.
Definition BASE_SCROLL_SPEED : Z := 5.
Definition BASE_CLOUD_FREQ : Z := 160.
Definition POWERUP_FREQUENCY : Z := 600.
Definition TARGET_NUMBER : Z := 50.

(** ** Models and enums *)

Inductive GameState : Type :=
| PLAYING
| TRANSITION_TO_LANDING
| LANDING_SCENE
| GAME_OVER.

Inductive Operation : Type :=
| ADD
| SUBTRACT
| MULTIPLY
| DIVIDE.

Inductive PowerUpType : Type :=
| SLOW_MOTION
| ROUND_NUM
| GHOST
| INVERT_CONTROLS
| RAPID_FIRE.

Definition GameState_eqb (a b : GameState) : bool :=
  match a, b with
  | PLAYING, PLAYING
  | TRANSITION_TO_LANDING, TRANSITION_TO_LANDING
  | LANDING_SCENE, LANDING_SCENE
  | GAME_OVER, GAME_OVER => true
  | _, _ => false
  end.

(** [pygame.Rect]: integer position and size. *)
Record Rect : Type := mkRect { rx : Z; ry : Z; rw : Z; rh : Z }.

Definition rect_left (r : Rect) : Z := rx r.
Definition rect_top (r : Rect) : Z := ry r.
Definition rect_right (r : Rect) : Z := rx r + rw r.
Definition rect_bottom (r : Rect) : Z := ry r + rh r.

Definition set_x (r : Rect) (x : Z) : Rect := mkRect x (ry r) (rw r) (rh r).
Definition set_y (r : Rect) (y : Z) : Rect := mkRect (rx r) y (rw r) (rh r).

(** [Rect.colliderect]: rectangles of zero width or height collide with
    nothing; otherwise the open interiors must overlap on both axes. *)
Definition colliderect (a b : Rect) : bool :=
  if (rw a =? 0) || (rh a =? 0) || (rw b =? 0) || (rh b =? 0) then false
  else
    (Z.min (rx a) (rx a + rw a) <? Z.max (rx b) (rx b + rw b))
    && (Z.min (ry a) (ry a + rh a) <? Z.max (ry b) (ry b + rh b))
    && (Z.min (rx b) (rx b + rw b) <? Z.max (rx a) (rx a + rw a))
    && (Z.min (ry b) (ry b + rh b) <? Z.max (ry a) (ry a + rh a)).

(** [rect.x -= speed] for a float [speed]: the difference is computed in
    binary64 and stored as [pygame.Rect] stores a float. *)
Definition scroll (r : Rect) (speed : float) : result Rect :=
  x <- rect_coordinate (fsub (of_Z (rx r)) speed) ;; Ok (set_x r x).

(** Python objects are compared by identity in [list.remove]; [pu_id] and
    [cl_id] stand for the identity of the object. *)
Record PowerUp : Type := mkPowerUp {
  pu_id : nat;
  pu_rect : Rect;
  pu_type : PowerUpType;
  pu_angle : Z;
  pu_hue : Z
}.

Record Cloud : Type := mkCloud {
  cl_id : nat;
  cl_rect : Rect;
  cl_op : Operation;
  cl_val : Z;
  cl_original_y : Z
}.

Record Player : Type := mkPlayer {
  pl_rect : Rect;
  score : Z;
  figure_x : Z
}.

(** [PowerUp.__init__] *)
Definition new_PowerUp (id : nat) (x y : Z) (p_type : PowerUpType) : PowerUp :=
  mkPowerUp id (mkRect x y 40 40) p_type 0 0.

(** [PowerUp.move] *)
Definition PowerUp_move (pu : PowerUp) (speed : float) : result PowerUp :=
  r <- scroll (pu_rect pu) speed ;;
  Ok (mkPowerUp (pu_id pu) r (pu_type pu) (pu_angle pu + 5)
                ((pu_hue pu + 5) mod 360)).

(** [Cloud.__init__] *)
Definition new_Cloud (id : nat) (x y width height : Z) (op : Operation)
    (val : Z) : Cloud :=
  mkCloud id (mkRect x y width height) op val y.

(** [Cloud.move].  The bobbing [int(self.original_y + wave)] depends on the
    clock and on the cloud's random phase; [new_y] is that value. *)
Definition Cloud_move (c : Cloud) (scroll_speed : float) (new_y : Z)
    : result Cloud :=
  r <- scroll (cl_rect c) scroll_speed ;;
  Ok (mkCloud (cl_id c) (set_y r new_y) (cl_op c) (cl_val c)
              (cl_original_y c)).

(** [Player.__init__] *)
Definition new_Player : Player :=
  mkPlayer (mkRect 100 (HEIGHT / 2) 100 60) 0 0.

Definition fzero : float := S754_zero false.

(** [Player.calculate]: the new player and the returned penalty flag. *)
Definition calculate (p : Player) (op : Operation) (val : Z)
    : result (Player * bool) :=
  res <- py_float (score p) ;;
  raw <- match op with
         | ADD => v <- py_float val ;; Ok (Some (fadd res v))
         | SUBTRACT => v <- py_float val ;; Ok (Some (fsub res v))
         | MULTIPLY => v <- py_float val ;; Ok (Some (fmul res v))
         | DIVIDE =>
             if val =? 0 then Ok None
             else v <- py_float val ;; Ok (Some (fdiv res v))
         end ;;
  match raw with
  | None => Ok (p, false)
  | Some res =>
      let res := if flt res fzero then fzero else res in
      let is_decimal_penalty := has_fraction res in
      s <- py_round res ;;
      Ok (mkPlayer (pl_rect p) s (figure_x p), is_decimal_penalty)
  end.

(** ** The game engine *)

(** The fields of [SpaceMathGame] that the simulation reads; [next_id] is
    the identity the next created object gets. *)
Record Game : Type := mkGame {
  state : GameState;
  player : Player;
  clouds : list Cloud;
  powerups : list PowerUp;
  target : Z;
  timer_spawn_cloud : Z;
  timer_spawn_powerup : Z;
  current_difficulty_speed : float;
  timer_slow_motion : Z;
  timer_ghost_mode : Z;
  timer_inverted : Z;
  timer_rapid_fire : Z;
  lander_y : Z;
  next_id : nat
}.

Definition set_state (g : Game) (v : GameState) : Game :=
  mkGame v (player g) (clouds g) (powerups g) (target g)
    (timer_spawn_cloud g) (timer_spawn_powerup g) (current_difficulty_speed g)
    (timer_slow_motion g) (timer_ghost_mode g) (timer_inverted g)
    (timer_rapid_fire g) (lander_y g) (next_id g).

Definition set_player (g : Game) (v : Player) : Game :=
  mkGame (state g) v (clouds g) (powerups g) (target g)
    (timer_spawn_cloud g) (timer_spawn_powerup g) (current_difficulty_speed g)
    (timer_slow_motion g) (timer_ghost_mode g) (timer_inverted g)
    (timer_rapid_fire g) (lander_y g) (next_id g).

Definition set_clouds (g : Game) (v : list Cloud) : Game :=
  mkGame (state g) (player g) v (powerups g) (target g)
    (timer_spawn_cloud g) (timer_spawn_powerup g) (current_difficulty_speed g)
    (timer_slow_motion g) (timer_ghost_mode g) (timer_inverted g)
    (timer_rapid_fire g) (lander_y g) (next_id g).

Definition set_powerups (g : Game) (v : list PowerUp) : Game :=
  mkGame (state g) (player g) (clouds g) v (target g)
    (timer_spawn_cloud g) (timer_spawn_powerup g) (current_difficulty_speed g)
    (timer_slow_motion g) (timer_ghost_mode g) (timer_inverted g)
    (timer_rapid_fire g) (lander_y g) (next_id g).

Definition set_target (g : Game) (v : Z) : Game :=
  mkGame (state g) (player g) (clouds g) (powerups g) v
    (timer_spawn_cloud g) (timer_spawn_powerup g) (current_difficulty_speed g)
    (timer_slow_motion g) (timer_ghost_mode g) (timer_inverted g)
    (timer_rapid_fire g) (lander_y g) (next_id g).

Definition set_timer_spawn_cloud (g : Game) (v : Z) : Game :=
  mkGame (state g) (player g) (clouds g) (powerups g) (target g)
    v (timer_spawn_powerup g) (current_difficulty_speed g)
    (timer_slow_motion g) (timer_ghost_mode g) (timer_inverted g)
    (timer_rapid_fire g) (lander_y g) (next_id g).

Definition set_timer_spawn_powerup (g : Game) (v : Z) : Game :=
  mkGame (state g) (player g) (clouds g) (powerups g) (target g)
    (timer_spawn_cloud g) v (current_difficulty_speed g)
    (timer_slow_motion g) (timer_ghost_mode g) (timer_inverted g)
    (timer_rapid_fire g) (lander_y g) (next_id g).

Definition set_current_difficulty_speed (g : Game) (v : float) : Game :=
  mkGame (state g) (player g) (clouds g) (powerups g) (target g)
    (timer_spawn_cloud g) (timer_spawn_powerup g) v
    (timer_slow_motion g) (timer_ghost_mode g) (timer_inverted g)
    (timer_rapid_fire g) (lander_y g) (next_id g).

Definition set_timer_slow_motion (g : Game) (v : Z) : Game :=
  mkGame (state g) (player g) (clouds g) (powerups g) (target g)
    (timer_spawn_cloud g) (timer_spawn_powerup g) (current_difficulty_speed g)
    v (timer_ghost_mode g) (timer_inverted g)
    (timer_rapid_fire g) (lander_y g) (next_id g).

Definition set_timer_ghost_mode (g : Game) (v : Z) : Game :=
  mkGame (state g) (player g) (clouds g) (powerups g) (target g)
    (timer_spawn_cloud g) (timer_spawn_powerup g) (current_difficulty_speed g)
    (timer_slow_motion g) v (timer_inverted g)
    (timer_rapid_fire g) (lander_y g) (next_id g).

Definition set_timer_inverted (g : Game) (v : Z) : Game :=
  mkGame (state g) (player g) (clouds g) (powerups g) (target g)
    (timer_spawn_cloud g) (timer_spawn_powerup g) (current_difficulty_speed g)
    (timer_slow_motion g) (timer_ghost_mode g) v
    (timer_rapid_fire g) (lander_y g) (next_id g).

Definition set_timer_rapid_fire (g : Game) (v : Z) : Game :=
  mkGame (state g) (player g) (clouds g) (powerups g) (target g)
    (timer_spawn_cloud g) (timer_spawn_powerup g) (current_difficulty_speed g)
    (timer_slow_motion g) (timer_ghost_mode g) (timer_inverted g)
    v (lander_y g) (next_id g).

Definition set_lander_y (g : Game) (v : Z) : Game :=
  mkGame (state g) (player g) (clouds g) (powerups g) (target g)
    (timer_spawn_cloud g) (timer_spawn_powerup g) (current_difficulty_speed g)
    (timer_slow_motion g) (timer_ghost_mode g) (timer_inverted g)
    (timer_rapid_fire g) v (next_id g).

Definition set_next_id (g : Game) (v : nat) : Game :=
  mkGame (state g) (player g) (clouds g) (powerups g) (target g)
    (timer_spawn_cloud g) (timer_spawn_powerup g) (current_difficulty_speed g)
    (timer_slow_motion g) (timer_ghost_mode g) (timer_inverted g)
    (timer_rapid_fire g) (lander_y g) v.

(** *** What a frame receives from outside

    Events and keys come from pygame; the [rnd_] fields are the raw draws
    of Python's [random] in that frame; [bob] gives, for a cloud's identity,
    the vertical position [Cloud.move] computes from the clock. *)

Inductive Event : Type :=
| QUIT
| KEYDOWN_SPACE
| OtherEvent.

Record Env : Type := mkEnv {
  events : list Event;
  key_up : bool;
  key_down : bool;
  rnd_choice : nat -> nat;
  rnd_val : nat -> nat;
  rnd_mul : nat -> nat;
  rnd_roll : float;
  rnd_y : nat;
  bob : nat -> Z
}.

(** [random.choice(ops)] and [random.randint(a, b)] from a raw draw. *)
Definition random_choice (raw : nat) (ops : list Operation) : Operation :=
  nth (raw mod length ops)%nat ops ADD.

Definition randint (a b : Z) (raw : nat) : Z :=
  a + Z.of_nat raw mod (b - a + 1).

(** [SpaceMathGame.spawn_cloud_wall] *)
Definition spawn_cloud_lane (env : Env) (wall_x lane_height : Z)
    (ops : list Operation) (g : Game) (i : nat) : Game :=
  let op := random_choice (rnd_choice env i) ops in
  let val := randint 1 9 (rnd_val env i) in
  let val := match op with
             | MULTIPLY => randint 2 4 (rnd_mul env i)
             | _ => val
             end in
  let y_pos := Z.of_nat i * lane_height + lane_height / 2 - 60 in
  set_next_id
    (set_clouds g
       (clouds g ++ [new_Cloud (next_id g) wall_x y_pos 180 120 op val]))
    (S (next_id g)).

Definition spawn_cloud_wall (env : Env) (x_offset : Z) (g : Game) : Game :=
  let wall_x := WIDTH + 100 + x_offset in
  let lane_height := HEIGHT / 3 in
  let ops := [ADD; SUBTRACT; MULTIPLY]
             ++ (if 10 <? score (player g) then [DIVIDE] else []) in
  fold_left (spawn_cloud_lane env wall_x lane_height ops) [0; 1; 2]%nat g.

(** [SpaceMathGame.spawn_powerup] *)
Definition spawn_powerup (env : Env) (g : Game) : Game :=
  let roll := rnd_roll env in
  let p_type :=
    if flt (fmul (of_Z BASE_SCROLL_SPEED) (literal 15 10))
           (current_difficulty_speed g)
    then
      if flt roll (literal 50 100) then ROUND_NUM
      else if flt roll (literal 70 100) then SLOW_MOTION
      else if flt roll (literal 85 100) then GHOST
      else INVERT_CONTROLS
    else
      if flt roll (literal 25 100) then SLOW_MOTION
      else if flt roll (literal 50 100) then ROUND_NUM
      else if flt roll (literal 70 100) then GHOST
      else if flt roll (literal 90 100) then INVERT_CONTROLS
      else RAPID_FIRE in
  let y := randint 50 (HEIGHT - 50) (rnd_y env) in
  set_next_id
    (set_powerups g
       (powerups g ++ [new_PowerUp (next_id g) (WIDTH + 50) y p_type]))
    (S (next_id g)).

(** [SpaceMathGame.reset_game].  The fields are assigned in the order of
    the source; [g] is the game being reset, of which only the identity
    counter survives. *)
Definition reset_game (env : Env) (g : Game) : Game :=
  let g := set_state g PLAYING in
  let g := set_player g new_Player in
  let g := set_clouds g [] in
  let g := set_powerups g [] in
  let g := set_target g TARGET_NUMBER in
  let g := spawn_cloud_wall env 200 g in
  let g := set_timer_spawn_cloud g 0 in
  let g := set_timer_spawn_powerup g 0 in
  let g := set_current_difficulty_speed g (of_Z BASE_SCROLL_SPEED) in
  let g := set_timer_slow_motion g 0 in
  let g := set_timer_ghost_mode g 0 in
  let g := set_timer_inverted g 0 in
  let g := set_timer_rapid_fire g 0 in
  set_lander_y g (-100).

(** The game before [__init__] has called [reset_game]: no field is set. *)
Definition blank_game : Game :=
  mkGame GAME_OVER new_Player [] [] 0 0 0 fzero 0 0 0 0 0 0%nat.

(** [SpaceMathGame.__init__] *)
Definition init_game (env : Env) : Game := reset_game env blank_game.

(** *** The frame: events *)

Definition handle_event (env : Env) (g : Game) (ev : Event) : result Game :=
  match ev with
  | QUIT => Raise SystemExit
  | KEYDOWN_SPACE =>
      match state g with
      | LANDING_SCENE | GAME_OVER => Ok (reset_game env g)
      | _ => Ok g
      end
  | OtherEvent => Ok g
  end.

Fixpoint process_events (env : Env) (evs : list Event) (g : Game)
    : result Game :=
  match evs with
  | [] => Ok g
  | ev :: evs' => g' <- handle_event env g ev ;; process_events env evs' g'
  end.

(** *** The frame in state [PLAYING] *)

Definition move_y (g : Game) (dy : Z) : Game :=
  let p := player g in
  set_player g
    (mkPlayer (set_y (pl_rect p) (ry (pl_rect p) + dy)) (score p)
              (figure_x p)).

Definition movement (env : Env) (g : Game) : Game :=
  if 0 <? timer_inverted g then
    let g := if key_up env && (rect_bottom (pl_rect (player g)) <? HEIGHT)
             then move_y g PLAYER_SPEED else g in
    if key_down env && (0 <? rect_top (pl_rect (player g)))
    then move_y g (- PLAYER_SPEED) else g
  else
    let g := if key_up env && (0 <? rect_top (pl_rect (player g)))
             then move_y g (- PLAYER_SPEED) else g in
    if key_down env && (rect_bottom (pl_rect (player g)) <? HEIGHT)
    then move_y g PLAYER_SPEED else g.

(** "CALCULATE SPEEDS": the effective speed, the spawn frequency and the
    game with its four effect timers counted down. *)
Definition calculate_speeds (g : Game) : float * Z * Game :=
  let effective_speed := current_difficulty_speed g in
  let spawn_freq := BASE_CLOUD_FREQ in
  let '(effective_speed, g) :=
    if 0 <? timer_slow_motion g
    then (fmul effective_speed (literal 5 10),
          set_timer_slow_motion g (timer_slow_motion g - 1))
    else (effective_speed, g) in
  let '(effective_speed, spawn_freq, g) :=
    if 0 <? timer_rapid_fire g
    then (of_Z 12, 40, set_timer_rapid_fire g (timer_rapid_fire g - 1))
    else (effective_speed, spawn_freq, g) in
  let g := if 0 <? timer_ghost_mode g
           then set_timer_ghost_mode g (timer_ghost_mode g - 1) else g in
  let g := if 0 <? timer_inverted g
           then set_timer_inverted g (timer_inverted g - 1) else g in
  (effective_speed, spawn_freq, g).

(** "SPAWNERS" *)
Definition spawn_clouds_tick (env : Env) (spawn_freq : Z) (g : Game) : Game :=
  let g := set_timer_spawn_cloud g (timer_spawn_cloud g + 1) in
  if spawn_freq <? timer_spawn_cloud g
  then set_timer_spawn_cloud (spawn_cloud_wall env 0 g) 0
  else g.

Definition spawn_powerups_tick (env : Env) (g : Game) : Game :=
  let g := set_timer_spawn_powerup g (timer_spawn_powerup g + 1) in
  if POWERUP_FREQUENCY <? timer_spawn_powerup g
  then set_timer_spawn_powerup (spawn_powerup env g) 0
  else g.

Definition spawners (env : Env) (spawn_freq : Z) (g : Game) : Game :=
  spawn_powerups_tick env (spawn_clouds_tick env spawn_freq g).

(** "COLLISIONS".  The loops run over a copy of the list ([self.powerups[:]],
    [self.clouds[:]]); [move] mutates the object, which the game's list
    shares, so the moved object is written back by identity; [list.remove]
    removes the first element with that identity and raises [ValueError]
    when there is none. *)

Fixpoint remove_powerup (id : nat) (l : list PowerUp)
    : result (list PowerUp) :=
  match l with
  | [] => Raise ValueError
  | pu :: l' =>
      if Nat.eqb (pu_id pu) id then Ok l'
      else l'' <- remove_powerup id l' ;; Ok (pu :: l'')
  end.

Definition store_powerup (pu' : PowerUp) (l : list PowerUp) : list PowerUp :=
  map (fun pu => if Nat.eqb (pu_id pu) (pu_id pu') then pu' else pu) l.

Fixpoint remove_cloud (id : nat) (l : list Cloud) : result (list Cloud) :=
  match l with
  | [] => Raise ValueError
  | c :: l' =>
      if Nat.eqb (cl_id c) id then Ok l'
      else l'' <- remove_cloud id l' ;; Ok (c :: l'')
  end.

Definition store_cloud (c' : Cloud) (l : list Cloud) : list Cloud :=
  map (fun c => if Nat.eqb (cl_id c) (cl_id c') then c' else c) l.

(** The effect of a collected power-up. *)
Definition apply_powerup (g : Game) (t : PowerUpType) : Game :=
  match t with
  | SLOW_MOTION => set_timer_slow_motion g 600
  | GHOST => set_timer_ghost_mode g 300
  | ROUND_NUM => set_current_difficulty_speed g (of_Z BASE_SCROLL_SPEED)
  | INVERT_CONTROLS => set_timer_inverted g 300
  | RAPID_FIRE => set_timer_rapid_fire g 300
  end.

(** The body of [for pu in self.powerups[:]] after [pu.move]. *)
Definition resolve_powerup (g : Game) (pu : PowerUp) : result Game :=
  if colliderect (pl_rect (player g)) (pu_rect pu) then
    let g := apply_powerup g (pu_type pu) in
    l <- remove_powerup (pu_id pu) (powerups g) ;;
    Ok (set_powerups g l)
  else if rect_right (pu_rect pu) <? 0 then
    l <- remove_powerup (pu_id pu) (powerups g) ;;
    Ok (set_powerups g l)
  else Ok g.

Definition process_powerup (effective_speed : float) (g : Game)
    (pu : PowerUp) : result Game :=
  pu' <- PowerUp_move pu effective_speed ;;
  resolve_powerup (set_powerups g (store_powerup pu' (powerups g))) pu'.

(** [self.current_difficulty_speed *= 1.2], capped at 18. *)
Definition speed_up (d : float) : float :=
  let d := fmul d (literal 12 10) in
  if flt (of_Z 18) d then of_Z 18 else d.

(** The non-ghost branch of a cloud collision. *)
Definition score_cloud (g : Game) (cloud : Cloud) : result Game :=
  '(p, penalty) <- calculate (player g) (cl_op cloud) (cl_val cloud) ;;
  let g := set_player g p in
  let g := if penalty && (timer_rapid_fire g =? 0)
           then set_current_difficulty_speed g
                  (speed_up (current_difficulty_speed g))
           else g in
  l <- remove_cloud (cl_id cloud) (clouds g) ;;
  let g := set_clouds g l in
  Ok (if score (player g) =? target g
      then set_state g TRANSITION_TO_LANDING else g).

(** [if self.player.rect.colliderect(cloud.rect): ...] *)
Definition cloud_collision (g : Game) (cloud : Cloud) : result Game :=
  if colliderect (pl_rect (player g)) (cl_rect cloud) then
    if 0 <? timer_ghost_mode g then Ok g
    else score_cloud g cloud
  else Ok g.

(** [if cloud.rect.right < 0: self.clouds.remove(cloud)] *)
Definition cloud_offscreen (g : Game) (cloud : Cloud) : result Game :=
  if rect_right (cl_rect cloud) <? 0 then
    l <- remove_cloud (cl_id cloud) (clouds g) ;;
    Ok (set_clouds g l)
  else Ok g.

(** The body of [for cloud in self.clouds[:]] after [cloud.move]. *)
Definition resolve_cloud (g : Game) (cloud : Cloud) : result Game :=
  g <- cloud_collision g cloud ;; cloud_offscreen g cloud.

Definition process_cloud (env : Env) (effective_speed : float) (g : Game)
    (cloud : Cloud) : result Game :=
  cloud' <- Cloud_move cloud effective_speed (bob env (cl_id cloud)) ;;
  resolve_cloud (set_clouds g (store_cloud cloud' (clouds g))) cloud'.

Fixpoint for_each {A : Type} (body : Game -> A -> result Game)
    (l : list A) (g : Game) : result Game :=
  match l with
  | [] => Ok g
  | a :: l' => g' <- body g a ;; for_each body l' g'
  end.

Definition collisions (env : Env) (effective_speed : float) (g : Game)
    : result Game :=
  g <- for_each (process_powerup effective_speed) (powerups g) g ;;
  for_each (process_cloud env effective_speed) (clouds g) g.

Definition playing_frame (env : Env) (g : Game) : result Game :=
  let g := movement env g in
  let '(effective_speed, spawn_freq, g) := calculate_speeds g in
  let g := spawners env spawn_freq g in
  collisions env effective_speed g.

(** *** The frame in the other states *)

Definition transition_frame (g : Game) : Game :=
  let p := player g in
  let g := set_player g
             (mkPlayer (set_x (pl_rect p) (rx (pl_rect p) + 10)) (score p)
                       (figure_x p)) in
  if WIDTH <? rect_left (pl_rect (player g))
  then set_state g LANDING_SCENE else g.

(** [animate_stick_figure] *)
Definition animate_stick_figure (g : Game) : Game :=
  let start_x := 350 in
  let flag_pos_x := 600 in
  let p := player g in
  if figure_x p <? flag_pos_x - start_x
  then set_player g (mkPlayer (pl_rect p) (score p) (figure_x p + 2))
  else g.

(** [animate_landing_scene] *)
Definition animate_landing_scene (g : Game) : Game :=
  let target_y := HEIGHT - 200 - 80 in
  if lander_y g <? target_y then set_lander_y g (lander_y g + 3)
  else animate_stick_figure (set_lander_y g target_y).

(** One iteration of [while True] in [SpaceMathGame.run]. *)
Definition frame (env : Env) (g : Game) : result Game :=
  g <- process_events env (events env) g ;;
  match state g with
  | PLAYING => playing_frame env g
  | TRANSITION_TO_LANDING => Ok (transition_frame g)
  | LANDING_SCENE => Ok (animate_landing_scene g)
  | GAME_OVER => Ok g
  end.

(** ** The arithmetic engine as the specification words it

    The raw result is a rational; it is clamped at zero, flagged when it is
    not an integer, and rounded to a nearest integer. *)

Definition raw_result (S : Z) (op : Operation) (V : Z) : Q :=
  match op with
  | ADD => inject_Z S + inject_Z V
  | SUBTRACT => inject_Z S - inject_Z V
  | MULTIPLY => inject_Z S * inject_Z V
  | DIVIDE => inject_Z S / inject_Z V
  end%Q.

Definition clamp (q : Q) : Q := if Qlt_le_dec q 0 then 0%Q else q.

Definition is_integer (q : Q) : Prop := exists n : Z, (q == inject_Z n)%Q.

Definition nearest_integer (q : Q) (n : Z) : Prop :=
  (Qabs (inject_Z n - q) <= 1 # 2)%Q.

Definition with_score (p : Player) (s : Z) : Player :=
  mkPlayer (pl_rect p) s (figure_x p).

(** What section 4.1 asks of [apply(S, op, V)]. *)
Definition calculate_meets_spec (p : Player) (op : Operation) (V : Z) : Prop :=
  exists (s' : Z) (penalty : bool),
    calculate p op V = Ok (with_score p s', penalty)
    /\ (penalty = true <-> ~ is_integer (clamp (raw_result (score p) op V)))
    /\ nearest_integer (clamp (raw_result (score p) op V)) s'
    /\ 0 <= s'.

(** Ties go to the even neighbour. *)
Definition ties_to_even (p : Player) (op : Operation) (V : Z) : Prop :=
  forall n : Z,
    (clamp (raw_result (score p) op V) == inject_Z n + (1 # 2))%Q ->
    exists penalty : bool,
      calculate p op V
      = Ok (with_score p (if Z.even n then n else n + 1), penalty).

(** The scores and operands for which binary64 arithmetic is exact enough. *)
Definition in_exact_range (S : Z) (op : Operation) (V : Z) : Prop :=
  0 <= S < 2 ^ 52 /\ Z.abs V < 2 ^ 52
  /\ (op = MULTIPLY -> S * Z.abs V < 2 ^ 53)
  /\ (op = DIVIDE -> V <> 0).

(** A float that holds the integer [z] exactly, in normal form. *)
Definition int_float (z : Z) (f : float) : Prop :=
  match f with
  | S754_zero _ => z = 0
  | S754_finite s c k =>
      Z.pos (digits2_pos c) = 53 /\ -52 <= k <= 0
      /\ cond_Zopp s (Z.pos c) = z * 2 ^ (- k)
  | _ => False
  end.

(** The result of [calculate] in exact integer arithmetic. *)
Definition exact_result (S : Z) (op : Operation) (V : Z) : Z * bool :=
  match op with
  | ADD => (Z.max 0 (S + V), false)
  | SUBTRACT => (Z.max 0 (S - V), false)
  | MULTIPLY => (Z.max 0 (S * V), false)
  | DIVIDE =>
      if V <? 0 then (0, false)
      else (round_div S V, negb (S mod V =? 0))
  end.

(** ** Notions the statements about the frame use *)

(** Python's [min(a, b)] on floats: [b] when [b < a], else [a]. *)
Definition py_min (a b : float) : float := if flt b a then b else a.

(** The score and the state after each of a sequence of cloud collisions,
    resolved in order. *)
Fixpoint collision_trace (g : Game) (l : list Cloud)
    : list (result (Z * GameState)) :=
  match l with
  | [] => []
  | cloud :: l' =>
      match cloud_collision g cloud with
      | Ok g' => Ok (score (player g'), state g') :: collision_trace g' l'
      | Raise e => [Raise e]
      end
  end.

(** A cloud placed over the player's starting position. *)
Definition cloud_at_player (id : nat) (op : Operation) (val : Z) : Cloud :=
  new_Cloud id 120 320 180 120 op val.

(** An environment without events, keys or bobbing, whose draws are all 0. *)
Definition quiet_env : Env :=
  mkEnv [] false false (fun _ => 0%nat) (fun _ => 0%nat) (fun _ => 0%nat)
        fzero 0%nat (fun _ => 0).

(** The game as [__init__] leaves it, with the given clouds instead of the
    first wall. *)
Definition game_with_clouds (l : list Cloud) : Game :=
  set_clouds (init_game quiet_env) l.

(** The clouds of the end-to-end scenario: five ADD 9 and one ADD 5. *)
Definition scenario_clouds : list Cloud :=
  [cloud_at_player 10 ADD 9; cloud_at_player 11 ADD 9;
   cloud_at_player 12 ADD 9; cloud_at_player 13 ADD 9;
   cloud_at_player 14 ADD 9; cloud_at_player 15 ADD 5].

(** The player's rect lies in the right half-plane, as [Player()] builds it
    and [PLAYING] frames keep it; the cloud has a width. *)
Definition on_field (g : Game) (cloud : Cloud) : Prop :=
  0 <= rx (pl_rect (player g)) /\ 0 <= rw (pl_rect (player g))
  /\ 0 <= rw (cl_rect cloud).

(** [n] consecutive frames of the spawners at a fixed spawn frequency. *)
Definition spawn_frames (env : Env) (spawn_freq : Z) (n : nat) (g : Game)
    : Game :=
  Nat.iter n (spawners env spawn_freq) g.

(** The speed and the spawn frequency a PLAYING frame computes, and the game
    it goes on with. *)
Definition frame_speed (env : Env) (g : Game) : float :=
  fst (fst (calculate_speeds (movement env g))).

Definition frame_spawn_freq (env : Env) (g : Game) : Z :=
  snd (fst (calculate_speeds (movement env g))).

Definition frame_after_timers (env : Env) (g : Game) : Game :=
  snd (calculate_speeds (movement env g)).

(** Sample games: a player with score [s] over one cloud, or over one
    power-up. *)
Definition game_over_cloud (s : Z) (cloud : Cloud) : Game :=
  set_player (game_with_clouds [cloud]) (with_score new_Player s).

Definition powerup_at_player (id : nat) (t : PowerUpType) : PowerUp :=
  new_PowerUp id 120 350 t.

Definition game_over_powerup (pu : PowerUp) : Game :=
  set_powerups (game_with_clouds []) [pu].

(** A float whose mantissa and exponent fit binary64, when it is finite. *)
Definition bounded_float (f : float) : Prop :=
  match f with
  | S754_finite _ m e => Z.pos m < 2 ^ 53 /\ e <= 971
  | _ => True
  end.

(** An integer that a binary64 holds exactly: 53 bits of mantissa and an
    exponent up to 971. *)
Definition representable (z : Z) : Prop :=
  exists m e : Z, 0 <= m < 2 ^ 53 /\ 0 <= e <= 971 /\ Z.abs z = m * 2 ^ e.

(** The scores a game can hold: 0, and what [calculate] stores. *)
Inductive game_score : Z -> Prop :=
| game_score_new : game_score 0
| game_score_calculate (p p' : Player) (op : Operation) (V : Z) (b : bool) :
    game_score (score p) ->
    calculate p op V = Ok (p', b) ->
    game_score (score p').

(** The games the loop of [run] goes through, frame by frame. *)
Inductive reachable : Game -> Prop :=
| reachable_init (env : Env) : reachable (init_game env)
| reachable_frame (env : Env) (g g' : Game) :
    reachable g -> frame env g = Ok g' -> reachable g'.

(** What every step of a frame keeps: the score is a game score, the player
    has not moved left and keeps its width, every cloud keeps its width. *)
Definition game_inv (g : Game) : Prop :=
  game_score (score (player g))
  /\ 100 <= rx (pl_rect (player g))
  /\ rw (pl_rect (player g)) = 100
  /\ Forall (fun c => rw (cl_rect c) = 180) (clouds g).

(** ** Notions the statements about whole games use *)

(** Floats by kind: anything but a NaN; a zero or a finite number; anything
    but a zero or a NaN. *)
Definition not_nan (f : float) : Prop :=
  match f with S754_nan => False | _ => True end.

Definition is_finite (f : float) : Prop :=
  match f with S754_zero _ | S754_finite _ _ _ => True | _ => False end.

Definition nonzero (f : float) : Prop :=
  match f with S754_finite _ _ _ | S754_infinity _ => True | _ => False end.

(** A step that ends well or raises [OverflowError], and nothing else. *)
Definition safe (P : Game -> Prop) (r : result Game) : Prop :=
  match r with
  | Ok g => P g
  | Raise e => e = OverflowError
  end.

(** The loop of [run] over the inputs of finitely many frames. *)
Fixpoint run_frames (envs : list Env) (g : Game) : result Game :=
  match envs with
  | [] => Ok g
  | env :: envs' => g' <- frame env g ;; run_frames envs' g'
  end.

(** A frame in which the window is not closed and space is not pressed. *)
Definition idle (env : Env) : Prop :=
  ~ In QUIT (events env) /\ ~ In KEYDOWN_SPACE (events env).

(** An environment with the given events, keys and bobbing height. *)
Definition sample_env (evs : list Event) (up down : bool) (y : Z) : Env :=
  mkEnv evs up down (fun _ => 0%nat) (fun _ => 0%nat) (fun _ => 0%nat)
        fzero 0%nat (fun _ => y).

(** What one frame does to an effect timer, and the timer [n] frames
    later. *)
Definition count_down (t : Z) : Z := if 0 <? t then t - 1 else t.

Definition timer_after (t : Z) (n : nat) : Z :=
  if 0 <? t then Z.max 0 (t - Z.of_nat n) else t.

(** The number of landing frames after which the scene stands still, and
    where the stick figure stops. *)
Definition frames_to_settle (g : Game) : Z :=
  Z.max 0 ((HEIGHT - 280 - lander_y g + 2) / 3)
  + Z.max 0 ((251 - figure_x (player g)) / 2)
  + (if lander_y g =? HEIGHT - 280 then 0 else 1).

Definition figure_goal (g : Game) : Z :=
  Z.max (figure_x (player g))
    (figure_x (player g) + 2 * ((251 - figure_x (player g)) / 2)).

(** The cloud [spawn_cloud_wall] appends for lane [i]. *)
Definition lane_cloud (env : Env) (x_offset : Z) (g : Game) (i : nat) : Cloud :=
  let ops := [ADD; SUBTRACT; MULTIPLY]
             ++ (if 10 <? score (player g) then [DIVIDE] else []) in
  let op := random_choice (rnd_choice env i) ops in
  new_Cloud (next_id g + i)%nat (WIDTH + 100 + x_offset)
    (Z.of_nat i * (HEIGHT / 3) + HEIGHT / 3 / 2 - 60) 180 120 op
    (match op with
     | MULTIPLY => randint 2 4 (rnd_mul env i)
     | _ => randint 1 9 (rnd_val env i)
     end).

(** What holds of a cloud of a fresh wall. *)
Definition spawned_cloud (x_offset : Z) (g : Game) (c : Cloud) : Prop :=
  rx (cl_rect c) = WIDTH + 100 + x_offset
  /\ rw (cl_rect c) = 180 /\ rh (cl_rect c) = 120
  /\ cl_original_y c = ry (cl_rect c)
  /\ 1 <= cl_val c <= 9
  /\ (cl_op c = MULTIPLY -> 2 <= cl_val c <= 4)
  /\ (cl_op c = DIVIDE -> 10 < score (player g)).

(** The difficulty speeds: the base speed and what up to eight penalties
    make of it. *)
Definition difficulty_speeds : list float :=
  map (fun k => Nat.iter k speed_up (of_Z BASE_SCROLL_SPEED)) (seq 0 9).

(** The ranges of the four effect timers and the two spawn timers. *)
Definition timers_in_range (g : Game) : Prop :=
  0 <= timer_slow_motion g <= 600 /\ 0 <= timer_ghost_mode g <= 300
  /\ 0 <= timer_inverted g <= 300 /\ 0 <= timer_rapid_fire g <= 300
  /\ 0 <= timer_spawn_cloud g <= BASE_CLOUD_FREQ
  /\ 0 <= timer_spawn_powerup g <= POWERUP_FREQUENCY.

(** A cloud or a power-up as the spawners build it, created before the
    [n]-th object. *)
Definition cloud_ok (n : nat) (c : Cloud) : Prop :=
  (cl_id c < n)%nat /\ rw (cl_rect c) = 180 /\ rh (cl_rect c) = 120
  /\ 1 <= cl_val c <= 9 /\ (cl_op c = MULTIPLY -> 2 <= cl_val c <= 4).

Definition powerup_ok (n : nat) (pu : PowerUp) : Prop :=
  (pu_id pu < n)%nat /\ rw (pu_rect pu) = 40 /\ rh (pu_rect pu) = 40.

(** What every frame keeps besides [game_inv]. *)
Record game_ok (g : Game) : Prop := mk_game_ok {
  ok_state : state g <> GAME_OVER;
  ok_target : target g = TARGET_NUMBER;
  ok_x : state g = PLAYING -> rx (pl_rect (player g)) = 100;
  ok_h : rh (pl_rect (player g)) = 60;
  ok_y : -8 <= ry (pl_rect (player g)) <= 648;
  ok_timers : timers_in_range g;
  ok_speed : In (current_difficulty_speed g) difficulty_speeds;
  ok_clouds : Forall (cloud_ok (next_id g)) (clouds g);
  ok_cloud_ids : NoDup (map cl_id (clouds g));
  ok_powerups : Forall (powerup_ok (next_id g)) (powerups g);
  ok_powerup_ids : NoDup (map pu_id (powerups g))
}.

(** The speeds a PLAYING frame scrolls by: a difficulty speed, half of one
    in slow motion, or 12 in rapid fire. *)
Definition effective_speeds : list float :=
  difficulty_speeds
  ++ map (fun d => fmul d (literal 5 10)) difficulty_speeds
  ++ [of_Z 12].

(** The horizontal positions a cloud or a power-up has between two frames,
    and the check that scrolling from one of them stores a coordinate
    between 2 and 18 to the left. *)
Definition view_xs : list Z := map (fun k => Z.of_nat k - 180) (seq 0 1481).

Definition scroll_check (speed : float) (x : Z) : bool :=
  match rect_coordinate (fsub (of_Z x) speed) with
  | Ok x' => (x - 18 <=? x') && (x' <=? x - 2)
  | Raise _ => false
  end.

Definition cloud_in_view (c : Cloud) : Prop := -180 <= rx (cl_rect c) <= 1300.

Definition powerup_in_view (pu : PowerUp) : Prop :=
  -40 <= rx (pu_rect pu) <= 1050.

Definition coords_ok (g : Game) : Prop :=
  Forall cloud_in_view (clouds g) /\ Forall powerup_in_view (powerups g).

(** The games between two frames. *)
Definition well_formed (g : Game) : Prop :=
  game_inv g /\ game_ok g /\ coords_ok g.

(** A cloud after [Cloud.move] has put it at [x], and a power-up after
    [PowerUp.move] has. *)
Definition cloud_at (env : Env) (c : Cloud) (x : Z) : Cloud :=
  mkCloud (cl_id c)
    (mkRect x (bob env (cl_id c)) (rw (cl_rect c)) (rh (cl_rect c)))
    (cl_op c) (cl_val c) (cl_original_y c).

Definition powerup_at (pu : PowerUp) (x : Z) : PowerUp :=
  mkPowerUp (pu_id pu)
    (mkRect x (ry (pu_rect pu)) (rw (pu_rect pu)) (rh (pu_rect pu)))
    (pu_type pu) (pu_angle pu + 5) ((pu_hue pu + 5) mod 360).

(** The coordinate [rect.x -= speed] stores. *)
Definition scrolled (x : Z) (speed : float) : result Z :=
  rect_coordinate (fsub (of_Z x) speed).

(** The objects of a PLAYING frame when the collision loops start. *)
Definition frame_before_loops (env : Env) (g : Game) : Game :=
  spawners env (frame_spawn_freq env g) (frame_after_timers env g).

(** The wall a frame appends when its spawn timer passes [spawn_freq]. *)
Definition frame_wall (env : Env) (spawn_freq : Z) (g : Game) : list Cloud :=
  if spawn_freq <? timer_spawn_cloud g + 1
  then [lane_cloud env 0 g 0; lane_cloud env 0 g 1; lane_cloud env 0 g 2]
  else [].

(** The spawn frequency and the scrolling of a frame as the effect timers
    decide them at its start: rapid fire before slow motion, slow motion
    before the plain difficulty speed. *)
Definition expected_spawn_freq (g : Game) : Z :=
  if 0 <? timer_rapid_fire g then 40 else BASE_CLOUD_FREQ.

Definition expected_shift (g : Game) (x : Z) : result Z :=
  if 0 <? timer_rapid_fire g then Ok (x - 12)
  else if 0 <? timer_slow_motion g
       then scrolled x (fmul (current_difficulty_speed g) (literal 5 10))
       else scrolled x (current_difficulty_speed g).

(** A frame from [g] to [g'] that spawns clouds at [spawn_freq] and moves
    every cloud and power-up as [shift] says: the objects of [g'] are moved
    objects of the frame, and a moved object that does not overlap the ship
    and has not left the screen is still there. *)
Definition frame_scrolls (env : Env) (spawn_freq : Z) (shift : Z -> result Z)
    (g g' : Game) : Prop :=
  let before := spawners env spawn_freq (frame_after_timers env g) in
  let ship := pl_rect (player (movement env g)) in
  clouds before = clouds g ++ frame_wall env spawn_freq g
  /\ timer_spawn_cloud g'
     = (if spawn_freq <? timer_spawn_cloud g + 1 then 0
        else timer_spawn_cloud g + 1)
  /\ (forall c', In c' (clouds g') ->
        exists c x, In c (clouds before) /\ shift (rx (cl_rect c)) = Ok x
                    /\ c' = cloud_at env c x)
  /\ (forall c, In c (clouds before) ->
        exists x, shift (rx (cl_rect c)) = Ok x
          /\ (colliderect ship (cl_rect (cloud_at env c x)) = false ->
              0 <= rect_right (cl_rect (cloud_at env c x)) ->
              In (cloud_at env c x) (clouds g')))
  /\ (forall p', In p' (powerups g') ->
        exists p x, In p (powerups before) /\ shift (rx (pu_rect p)) = Ok x
                    /\ p' = powerup_at p x)
  /\ (forall p, In p (powerups before) ->
        exists x, shift (rx (pu_rect p)) = Ok x
          /\ (colliderect ship (pu_rect (powerup_at p x)) = false ->
              0 <= rect_right (pu_rect (powerup_at p x)) ->
              In (powerup_at p x) (powerups g'))).


Definition rapid_game : Game :=
  mkGame PLAYING new_Player
    [new_Cloud 0 600 56 180 120 ADD 3; new_Cloud 1 120 320 180 120 ADD 5]
    [new_PowerUp 2 700 200 GHOST] TARGET_NUMBER 40 7
    (of_Z BASE_SCROLL_SPEED) 100 0 0 200 (-100) 3.

(** The invariants of the two collision loops: the objects still to be
    visited are distinct and still in the game's list. *)
Definition powerup_loop_inv (g : Game) (rest : list PowerUp) : Prop :=
  game_inv g /\ game_ok g
  /\ Forall (powerup_ok (next_id g)) rest
  /\ Forall powerup_in_view rest
  /\ NoDup (map pu_id rest)
  /\ incl (map pu_id rest) (map pu_id (powerups g)).

Definition cloud_loop_inv (g : Game) (rest : list Cloud) : Prop :=
  game_inv g /\ game_ok g
  /\ Forall (cloud_ok (next_id g)) rest
  /\ Forall cloud_in_view rest
  /\ NoDup (map cl_id rest)
  /\ incl (map cl_id rest) (map cl_id (clouds g)).

(** Ghost mode is active and the score is [s]. *)
Definition ghost_inv (s : Z) (g : Game) : Prop :=
  state g = PLAYING /\ 0 < timer_ghost_mode g /\ score (player g) = s.

(** * Proofs *)

(** ** Binary64 arithmetic on integers

    Digits, shifts and the rounding of [SpecFloat], as far as integer-valued
    operands need them. *)

Section Binary64.

Lemma digits2_pos_size (p : positive) : digits2_pos p = Pos.size p.
Proof. induction p; simpl; congruence. Qed.

Lemma digits2_bounds (p : positive) :
  2 ^ (Z.pos (digits2_pos p) - 1) <= Z.pos p < 2 ^ Z.pos (digits2_pos p).
Proof.
  induction p as [p IH | p IH |]; cbn [digits2_pos].
  - rewrite Pos2Z.inj_succ.
    replace (Z.succ (Z.pos (digits2_pos p)) - 1) with (Z.pos (digits2_pos p) - 1 + 1) by lia.
    rewrite Z.pow_succ_r by lia. rewrite Z.pow_add_r by lia. lia.
  - rewrite Pos2Z.inj_succ.
    replace (Z.succ (Z.pos (digits2_pos p)) - 1) with (Z.pos (digits2_pos p) - 1 + 1) by lia.
    rewrite Z.pow_succ_r by lia. rewrite Z.pow_add_r by lia. lia.
  - simpl. lia.
Qed.

Lemma digits2_unique (p : positive) (k : Z) :
  2 ^ (k - 1) <= Z.pos p < 2 ^ k -> Z.pos (digits2_pos p) = k.
Proof.
  intros [Hlo Hhi]. pose proof (digits2_bounds p) as [Blo Bhi].
  assert (0 < k).
  { destruct (Z.ltb_spec 0 k); auto. rewrite Z.pow_neg_r in Hlo by lia.
    assert (k = 0 \/ k < 0) as [->|Hn] by lia; [simpl in Hhi; lia|].
    rewrite Z.pow_neg_r in Hhi by lia. lia. }
  destruct (Z.lt_trichotomy (Z.pos (digits2_pos p)) k) as [Hl | [He | Hg]]; auto.
  - assert (2 ^ Z.pos (digits2_pos p) <= 2 ^ (k - 1)) by (apply Z.pow_le_mono_r; lia). lia.
  - assert (2 ^ k <= 2 ^ (Z.pos (digits2_pos p) - 1)) by (apply Z.pow_le_mono_r; lia). lia.
Qed.

Lemma iter_xO (d m : positive) : Z.pos (Pos.iter xO m d) = Z.pos m * 2 ^ Z.pos d.
Proof.
  induction d as [|d IH] using Pos.peano_ind.
  - simpl. lia.
  - rewrite Pos.iter_succ, Pos2Z.inj_succ, Z.pow_succ_r by lia.
    rewrite Pos2Z.inj_xO, IH. lia.
Qed.

Lemma iter_pos_nat {A} (f : A -> A) (p : positive) (x : A) :
  iter_pos f p x = Nat.iter (Pos.to_nat p) f x.
Proof.
  revert x. induction p as [p IH | p IH |]; intros x; cbn [iter_pos].
  - rewrite !IH. rewrite Pos2Nat.inj_xI. 
    replace (S (2 * Pos.to_nat p))%nat with (Pos.to_nat p + (Pos.to_nat p + 1))%nat by lia.
    rewrite !Nat.iter_add. simpl. reflexivity.
  - rewrite !IH. rewrite Pos2Nat.inj_xO.
    replace (2 * Pos.to_nat p)%nat with (Pos.to_nat p + Pos.to_nat p)%nat by lia.
    rewrite Nat.iter_add. reflexivity.
  - reflexivity.
Qed.

Lemma shr_1_nonneg (m : Z) (r s : bool) :
  0 <= m ->
  shr_1 (Build_shr_record m r s) = Build_shr_record (m / 2) (Z.odd m) (r || s).
Proof.
  intros Hm. destruct m as [|p|p]; [reflexivity | | lia].
  destruct p as [p|p|]; cbn [shr_1].
  - f_equal. rewrite Pos2Z.inj_xI. apply Z.div_unique with 1; lia.
  - f_equal. rewrite Pos2Z.inj_xO. apply Z.div_unique with 0; lia.
  - reflexivity.
Qed.

Lemma mod_pow2_succ (m : Z) (n : Z) :
  0 <= n ->
  m mod 2 ^ (n + 1) = m mod 2 ^ n + 2 ^ n * Z.b2z (Z.testbit m n).
Proof.
  intros Hn. rewrite Z.pow_add_r by lia. change (2 ^ 1) with 2.
  rewrite Z.rem_mul_r by (try apply Z.pow_nonzero; lia).
  rewrite Z.testbit_spec' by lia. reflexivity.
Qed.

Lemma iter_shr_1 (n : nat) (m : Z) (r s : bool) :
  0 <= m ->
  Nat.iter (S n) shr_1 (Build_shr_record m r s) =
  Build_shr_record (m / 2 ^ (Z.of_nat n + 1)) (Z.testbit m (Z.of_nat n))
    (r || s || negb (m mod 2 ^ Z.of_nat n =? 0)).
Proof.
  intros Hm. induction n as [|n IH].
  - cbn [Nat.iter]. rewrite shr_1_nonneg by assumption.
    change (Z.of_nat 0) with 0. simpl (0 + 1). change (2 ^ 1) with 2.
    rewrite Z.bit0_odd. change (2 ^ 0) with 1. rewrite Z.mod_1_r.
    simpl. now rewrite orb_false_r.
  - change (Nat.iter (S (S n)) shr_1 ?x) with (shr_1 (Nat.iter (S n) shr_1 x)).
    rewrite IH. rewrite shr_1_nonneg by (apply Z.div_pos; [lia | apply Z.pow_pos_nonneg; lia]).
    rewrite Nat2Z.inj_succ. unfold Z.succ.
    f_equal.
    + rewrite Z.div_div by (try apply Z.pow_pos_nonneg; lia).
      rewrite (Z.pow_add_r 2 (Z.of_nat n + 1) 1) by lia. reflexivity.
    + rewrite (Z.testbit_odd m (Z.of_nat n + 1)). rewrite Z.shiftr_div_pow2 by lia. reflexivity.
    + rewrite (mod_pow2_succ m (Z.of_nat n)) by lia.
      assert (0 <= m mod 2 ^ Z.of_nat n) by (apply Z.mod_pos_bound, Z.pow_pos_nonneg; lia).
      assert (0 < 2 ^ Z.of_nat n) by (apply Z.pow_pos_nonneg; lia).
      destruct (Z.testbit m (Z.of_nat n)); cbn [Z.b2z].
      * replace (m mod 2 ^ Z.of_nat n + 2 ^ Z.of_nat n * 1 =? 0) with false
          by (symmetry; apply Z.eqb_neq; lia).
        destruct r, s; reflexivity.
      * rewrite Z.mul_0_r, Z.add_0_r. destruct r, s; reflexivity.
Qed.

Lemma iter_pos_shr_1 (p : positive) (m : Z) (r s : bool) :
  0 <= m ->
  iter_pos shr_1 p (Build_shr_record m r s) =
  Build_shr_record (m / 2 ^ Z.pos p) (Z.testbit m (Z.pos p - 1))
    (r || s || negb (m mod 2 ^ (Z.pos p - 1) =? 0)).
Proof.
  intros Hm. rewrite iter_pos_nat.
  destruct (Pos2Nat.is_succ p) as [n Hn]. rewrite Hn.
  rewrite iter_shr_1 by assumption.
  assert (Z.of_nat n = Z.pos p - 1) as -> by lia.
  replace (Z.pos p - 1 + 1) with (Z.pos p) by lia. reflexivity.
Qed.

Lemma iter_pos_shr_1_exact (p : positive) (c : Z) :
  0 <= c ->
  iter_pos shr_1 p (Build_shr_record (c * 2 ^ Z.pos p) false false) =
  Build_shr_record c false false.
Proof.
  intros Hc.
  assert (0 < 2 ^ Z.pos p) by (apply Z.pow_pos_nonneg; lia).
  rewrite iter_pos_shr_1 by lia.
  f_equal.
  - apply Z.div_mul; lia.
  - replace (Z.pos p) with (Z.pos p - 1 + 1) at 1 by lia.
    rewrite Z.pow_add_r by lia. change (2 ^ 1) with 2.
    replace (c * (2 ^ (Z.pos p - 1) * 2)) with (2 * c * 2 ^ (Z.pos p - 1)) by ring.
    rewrite Z.mul_pow2_bits by lia. replace (Z.pos p - 1 - (Z.pos p - 1)) with 0 by lia.
    rewrite Z.bit0_odd. rewrite Z.odd_mul. reflexivity.
  - replace (Z.pos p) with (Z.pos p - 1 + 1) at 1 by lia.
    rewrite Z.pow_add_r by lia. change (2 ^ 1) with 2.
    replace (c * (2 ^ (Z.pos p - 1) * 2)) with (2 * c * 2 ^ (Z.pos p - 1)) by ring.
    rewrite Z.mod_mul by (apply Z.pow_nonzero; lia). reflexivity.
Qed.

Lemma fexp_normal (e : Z) : -1021 <= e -> fexp prec emax e = e - 53.
Proof. intros H. unfold fexp, emin, prec, emax. lia. Qed.

Lemma pow2_pos (n : Z) : 0 <= n -> 0 < 2 ^ n.
Proof. intros; apply Z.pow_pos_nonneg; lia. Qed.

(** A mantissa [c * 2^n] with [c] of 53 digits rounds to [c] exactly. *)
Lemma binary_round_aux_exact (s : bool) (M c : positive) (E n : Z) :
  Z.pos (digits2_pos c) = 53 ->
  0 <= n ->
  Z.pos M = Z.pos c * 2 ^ n ->
  -1074 <= E + n <= 971 ->
  binary_round_aux prec emax s (Z.pos M) E loc_Exact = S754_finite s c (E + n).
Proof.
  intros Hc Hn HM HE.
  pose proof (digits2_bounds c) as Bc. rewrite Hc in Bc.
  pose proof (pow2_pos n Hn) as Hp.
  assert (HdM : Z.pos (digits2_pos M) = 53 + n).
  { apply digits2_unique. rewrite HM.
    replace (53 + n - 1) with (52 + n) by lia. rewrite !Z.pow_add_r by lia.
    simpl (53 - 1) in Bc. nia. }
  unfold binary_round_aux, shr_fexp. cbn [Zdigits2 shr_record_of_loc].
  rewrite HdM, fexp_normal by lia.
  replace (53 + n + E - 53 - E) with n by lia.
  assert (Hshr : shr (Build_shr_record (Z.pos M) false false) E n =
                 (Build_shr_record (Z.pos c) false false, E + n)).
  { destruct n as [|p|p]; [| |lia].
    - cbn [shr]. rewrite HM. f_equal; [f_equal|]; lia.
    - cbn [shr]. rewrite HM. rewrite iter_pos_shr_1_exact by lia. reflexivity. }
  rewrite Hshr. cbn [shr_m loc_of_shr_record round_nearest_even Zdigits2].
  rewrite Hc, fexp_normal by lia.
  replace (53 + (E + n) - 53 - (E + n)) with 0 by lia.
  cbn [shr shr_m]. unfold emax, prec.
  replace (E + n <=? 1024 - 53) with true by (symmetry; apply Z.leb_le; lia).
  reflexivity.
Qed.

(** Rounding a representable value is exact, whatever mantissa and exponent
    present it. *)
Lemma binary_round_exact (s : bool) (M c : positive) (E k : Z) :
  Z.pos (digits2_pos c) = 53 ->
  -1074 <= k <= 971 ->
  (E <= k -> Z.pos M = Z.pos c * 2 ^ (k - E)) ->
  (k <= E -> Z.pos c = Z.pos M * 2 ^ (E - k)) ->
  binary_round prec emax s M E = S754_finite s c k.
Proof.
  intros Hc Hk Hle Hge.
  pose proof (digits2_bounds c) as Bc. rewrite Hc in Bc. simpl (53 - 1) in Bc.
  unfold binary_round.
  destruct (Z.le_gt_cases k E) as [HkE | HEk].
  - specialize (Hge HkE). pose proof (pow2_pos (E - k) ltac:(lia)) as Hp.
    assert (HdM : Z.pos (digits2_pos M) = 53 - (E - k)).
    { apply digits2_unique.
      assert (E - k <= 52).
      { destruct (Z.le_gt_cases (E - k) 52); auto.
        assert (2 ^ 53 <= 2 ^ (E - k)) by (apply Z.pow_le_mono_r; lia). nia. }
      split.
      - apply (Z.mul_le_mono_pos_r _ _ (2 ^ (E - k))); [lia|].
        rewrite <- Z.pow_add_r by lia. replace (53 - (E - k) - 1 + (E - k)) with 52 by lia. lia.
      - apply (Z.mul_lt_mono_pos_r (2 ^ (E - k))); [lia|].
        rewrite <- Z.pow_add_r by lia. replace (53 - (E - k) + (E - k)) with 53 by lia. lia. }
    rewrite HdM, fexp_normal by lia.
    replace (53 - (E - k) + E - 53) with k by lia.
    unfold shl_align.
    destruct (k - E) as [|p|p] eqn:Hd; [| lia |].
    + assert (E = k) by lia. subst E.
      replace (k - k) with 0 in Hge by lia. rewrite Z.mul_1_r in Hge.
      assert (M = c) by congruence. subst M.
      replace k with (k + 0) at 2 by lia.
      apply binary_round_aux_exact; lia.
    + assert (Pos.iter xO M p = c) as ->.
      { apply Pos2Z.inj. rewrite iter_xO, Hge. f_equal. f_equal. lia. }
      replace k with (k + 0) at 2 by lia.
      apply binary_round_aux_exact; lia.
  - specialize (Hle ltac:(lia)). pose proof (pow2_pos (k - E) ltac:(lia)) as Hp.
    assert (HdM : Z.pos (digits2_pos M) = 53 + (k - E)).
    { apply digits2_unique. rewrite Hle.
      replace (53 + (k - E) - 1) with (52 + (k - E)) by lia.
      rewrite !Z.pow_add_r by lia. nia. }
    rewrite HdM, fexp_normal by lia.
    unfold shl_align.
    replace (53 + (k - E) + E - 53 - E) with (k - E) by lia.
    destruct (k - E) as [|p|p] eqn:Hd; [lia | | lia].
    replace k with (E + Z.pos p) by lia.
    apply binary_round_aux_exact; lia.
Qed.

Lemma normal_form (R : positive) :
  Z.pos R < 2 ^ 53 ->
  exists c k, Z.pos (digits2_pos c) = 53 /\ -52 <= k <= 0
              /\ Z.pos c = Z.pos R * 2 ^ (- k).
Proof.
  intros HR. pose proof (digits2_bounds R) as [Blo Bhi].
  set (d := Z.pos (digits2_pos R)) in *.
  assert (Hd : 1 <= d <= 53).
  { split; [unfold d; lia|].
    destruct (Z.le_gt_cases d 53); auto.
    assert (2 ^ 53 <= 2 ^ (d - 1)) by (apply Z.pow_le_mono_r; lia). lia. }
  pose proof (pow2_pos (53 - d) ltac:(lia)) as Hp.
  exists (Z.to_pos (Z.pos R * 2 ^ (53 - d))), (d - 53).
  replace (- (d - 53)) with (53 - d) by lia.
  rewrite Z2Pos.id by nia.
  repeat split; try lia.
  apply digits2_unique. rewrite Z2Pos.id by nia. split.
  - replace (53 - 1) with (d - 1 + (53 - d)) by lia. rewrite Z.pow_add_r by lia.
    apply Z.mul_le_mono_nonneg_r; lia.
  - replace 53 with (d + (53 - d)) at 2 by lia. rewrite Z.pow_add_r by lia.
    apply Z.mul_lt_mono_pos_r; lia.
Qed.

Lemma binary_round_int (s : bool) (M : positive) (E : Z) (R : positive) :
  -1000 <= E <= 0 ->
  Z.pos M = Z.pos R * 2 ^ (- E) ->
  Z.pos R < 2 ^ 53 ->
  int_float (cond_Zopp s (Z.pos R)) (binary_round prec emax s M E).
Proof.
  intros HE HM HR.
  destruct (normal_form R HR) as (c & k & Hc & Hk & Hck).
  rewrite (binary_round_exact s M c E k); try lia.
  - cbn [int_float]. repeat split; try lia.
    rewrite Hck. destruct s; cbn [cond_Zopp]; lia.
  - intros Hle. rewrite HM, Hck.
    rewrite <- Z.mul_assoc, <- Z.pow_add_r by lia. do 2 f_equal. lia.
  - intros Hge. rewrite HM, Hck.
    rewrite <- Z.mul_assoc, <- Z.pow_add_r by lia. do 2 f_equal. lia.
Qed.

Lemma binary_normalize_int (M E z : Z) (sz : bool) :
  -1000 <= E <= 0 ->
  M = z * 2 ^ (- E) ->
  Z.abs z < 2 ^ 53 ->
  int_float z (binary_normalize prec emax M E sz).
Proof.
  intros HE HM Hz. pose proof (pow2_pos (- E) ltac:(lia)) as Hp.
  destruct M as [|M|M]; cbn [binary_normalize].
  - cbn [int_float]. nia.
  - destruct z as [|R|R]; try nia.
    apply (binary_round_int false M E R); auto.
  - destruct z as [|R|R]; try nia.
    apply (binary_round_int true M E R); auto.
    rewrite <- Pos2Z.opp_pos in HM. lia.
Qed.

Lemma of_Z_int (z : Z) : Z.abs z < 2 ^ 53 -> int_float z (of_Z z).
Proof.
  intros Hz. unfold of_Z. apply binary_normalize_int; try lia.
Qed.

Lemma py_float_int (z : Z) :
  Z.abs z < 2 ^ 53 -> exists f, py_float z = Ok f /\ int_float z f.
Proof.
  intros Hz. pose proof (of_Z_int z Hz) as H. unfold py_float.
  exists (of_Z z). destruct (of_Z z); cbn [int_float] in H; try contradiction; auto.
Qed.

Lemma shl_align_fst (c : positive) (k ez : Z) :
  ez <= k -> Z.pos (fst (shl_align c k ez)) = Z.pos c * 2 ^ (k - ez).
Proof.
  intros H. unfold shl_align. destruct (ez - k) as [|p|p] eqn:Hd; cbn [fst]; try lia.
  - replace (k - ez) with 0 by lia. lia.
  - rewrite iter_xO. do 2 f_equal. lia.
Qed.

Lemma int_float_value (z : Z) (s : bool) (c : positive) (k ez : Z) :
  int_float z (S754_finite s c k) -> ez <= k ->
  cond_Zopp s (Z.pos c * 2 ^ (k - ez)) = z * 2 ^ (- ez).
Proof.
  intros (_ & Hk & Hv) Hez.
  replace (- ez) with (- k + (k - ez)) by lia. rewrite Z.pow_add_r by lia.
  rewrite Z.mul_assoc, <- Hv. destruct s; cbn [cond_Zopp]; lia.
Qed.

Lemma fadd_int (x y : Z) (fx fy : float) :
  int_float x fx -> int_float y fy -> Z.abs (x + y) < 2 ^ 53 ->
  int_float (x + y) (fadd fx fy).
Proof.
  intros Hx Hy Hxy.
  destruct fx as [sx| | |sx cx kx], fy as [sy| | |sy cy ky];
    cbn [int_float] in Hx, Hy; try contradiction.
  - subst. destruct sx, sy; reflexivity.
  - subst. exact Hy.
  - subst. rewrite Z.add_0_r. exact Hx.
  - unfold fadd, SFadd.
    assert (-52 <= kx <= 0) by tauto. assert (-52 <= ky <= 0) by tauto.
    apply binary_normalize_int; try lia.
    rewrite !shl_align_fst by lia.
    rewrite (int_float_value x sx cx kx) by (auto; lia).
    rewrite (int_float_value y sy cy ky) by (auto; lia). ring.
Qed.

Lemma fsub_int (x y : Z) (fx fy : float) :
  int_float x fx -> int_float y fy -> Z.abs (x - y) < 2 ^ 53 ->
  int_float (x - y) (fsub fx fy).
Proof.
  intros Hx Hy Hxy.
  destruct fx as [sx| | |sx cx kx], fy as [sy| | |sy cy ky];
    cbn [int_float] in Hx, Hy; try contradiction.
  - subst. destruct sx, sy; reflexivity.
  - subst. cbn. destruct Hy as (Hd & Hk & Hv). repeat split; try lia.
    destruct sy; cbn [negb cond_Zopp] in *; lia.
  - subst. rewrite Z.sub_0_r. exact Hx.
  - unfold fsub, SFsub.
    assert (-52 <= kx <= 0) by tauto. assert (-52 <= ky <= 0) by tauto.
    apply binary_normalize_int; try lia.
    rewrite !shl_align_fst by lia.
    rewrite (int_float_value x sx cx kx) by (auto; lia).
    rewrite (int_float_value y sy cy ky) by (auto; lia). ring.
Qed.

Lemma cond_Zopp_mul (s t : bool) (a b : Z) :
  cond_Zopp (xorb s t) (a * b) = cond_Zopp s a * cond_Zopp t b.
Proof. destruct s, t; cbn [xorb cond_Zopp]; ring. Qed.

Lemma fmul_int (x y : Z) (fx fy : float) :
  int_float x fx -> int_float y fy -> Z.abs (x * y) < 2 ^ 53 ->
  int_float (x * y) (fmul fx fy).
Proof.
  intros Hx Hy Hxy.
  destruct fx as [sx| | |sx cx kx], fy as [sy| | |sy cy ky];
    cbn [int_float] in Hx, Hy; try contradiction.
  - subst. reflexivity.
  - subst. reflexivity.
  - subst. cbn. lia.
  - destruct Hx as (Hdx & Hkx & Hvx), Hy as (Hdy & Hky & Hvy).
    unfold fmul, SFmul.
    pose proof (digits2_bounds cx) as Bx. rewrite Hdx in Bx. simpl (53 - 1) in Bx.
    pose proof (digits2_bounds cy) as By. rewrite Hdy in By. simpl (53 - 1) in By.
    pose proof (pow2_pos (- kx) ltac:(lia)) as Hpx.
    pose proof (pow2_pos (- ky) ltac:(lia)) as Hpy.
    assert (Hprod : cond_Zopp (xorb sx sy) (Z.pos cx * Z.pos cy)
                    = x * y * 2 ^ (- kx - ky)).
    { rewrite cond_Zopp_mul, Hvx, Hvy.
      replace (- kx - ky) with (- kx + - ky) by lia. rewrite Z.pow_add_r by lia. ring. }
    assert (Hnz : x * y <> 0).
    { intros H0. rewrite H0 in Hprod. destruct (xorb sx sy); cbn [cond_Zopp] in Hprod; lia. }
    destruct (normal_form (Z.to_pos (Z.abs (x * y)))) as (c & k & Hc & Hk & Hck).
    { rewrite Z2Pos.id by lia. exact Hxy. }
    rewrite Z2Pos.id in Hck by lia.
    pose proof (digits2_bounds c) as Bc. rewrite Hc in Bc. simpl (53 - 1) in Bc.
    pose proof (pow2_pos (- k) ltac:(lia)) as Hpk.
    assert (Habs : Z.pos cx * Z.pos cy = Z.abs (x * y) * 2 ^ (- kx - ky)).
    { pose proof (pow2_pos (- kx - ky) ltac:(lia)).
      destruct (xorb sx sy); cbn [cond_Zopp] in Hprod; nia. }
    assert (Hn : 0 <= k - kx - ky).
    { destruct (Z.le_gt_cases 0 (k - kx - ky)); auto. exfalso.
      assert (2 ^ (- kx - ky) * 2 <= 2 ^ (- k)).
      { change 2 with (2 ^ 1) at 2. rewrite <- Z.pow_add_r by lia.
        apply Z.pow_le_mono_r; lia. }
      pose proof (pow2_pos (- kx - ky) ltac:(lia)).
      assert (2 ^ 104 <= Z.pos cx * Z.pos cy) by (change (2 ^ 104) with (2 ^ 52 * 2 ^ 52); nia).
      assert (Z.pos cx * Z.pos cy * 2 <= Z.pos c) by nia.
      lia. }
    rewrite (binary_round_aux_exact (xorb sx sy) (cx * cy) c (kx + ky) (k - kx - ky));
      try lia.
    + replace (kx + ky + (k - kx - ky)) with k by lia.
      cbn [int_float]. repeat split; try lia.
      rewrite Hck. destruct (xorb sx sy); cbn [cond_Zopp] in *; nia.
    + rewrite Pos2Z.inj_mul, Habs, Hck.
      rewrite <- Z.mul_assoc, <- Z.pow_add_r by lia. do 2 f_equal. lia.
Qed.

Lemma py_round_int (z : Z) (f : float) : int_float z f -> py_round f = Ok z.
Proof.
  destruct f as [s| | |s c k]; cbn [int_float]; try contradiction.
  - intros ->. reflexivity.
  - intros (Hd & Hk & Hv). cbn [py_round]. f_equal.
    pose proof (pow2_pos (- k) ltac:(lia)) as Hp.
    assert (Hc : Z.pos c = cond_Zopp s z * 2 ^ (- k))
      by (destruct s; cbn [cond_Zopp] in *; lia).
    destruct (Z.leb_spec 0 k).
    + assert (k = 0) by lia. subst k. change (2 ^ (- 0)) with 1 in *.
      change (2 ^ 0) with 1. destruct s; cbn [cond_Zopp] in *; lia.
    + unfold round_div. rewrite Hc.
      rewrite Z.mod_mul, Z.div_mul by lia.
      replace (2 * 0 ?= 2 ^ (- k)) with Lt by (symmetry; apply Z.compare_lt_iff; lia).
      destruct s; cbn [cond_Zopp]; lia.
Qed.

Lemma has_fraction_int (z : Z) (f : float) : int_float z f -> has_fraction f = false.
Proof.
  destruct f as [s| | |s c k]; cbn [int_float]; try contradiction.
  - reflexivity.
  - intros (Hd & Hk & Hv). cbn [has_fraction].
    pose proof (pow2_pos (- k) ltac:(lia)) as Hp.
    assert (Hc : Z.pos c = cond_Zopp s z * 2 ^ (- k))
      by (destruct s; cbn [cond_Zopp] in *; lia).
    destruct (0 <=? k); [reflexivity|].
    rewrite Hc, Z.mod_mul by lia. reflexivity.
Qed.

Lemma flt_zero_int (z : Z) (f : float) : int_float z f -> flt f fzero = (z <? 0).
Proof.
  destruct f as [s| | |s c k]; cbn [int_float]; try contradiction.
  - intros ->. reflexivity.
  - intros (Hd & Hk & Hv). pose proof (pow2_pos (- k) ltac:(lia)) as Hp.
    unfold flt, SFltb, fzero. cbn [SFcompare].
    destruct s; cbn [cond_Zopp] in Hv; symmetry.
    + apply Z.ltb_lt. nia.
    + apply Z.ltb_ge. nia.
Qed.

Lemma round_div_scale (n d g : Z) :
  0 < d -> 0 < g -> round_div (n * g) (d * g) = round_div n d.
Proof.
  intros Hd Hg. unfold round_div.
  rewrite Z.div_mul_cancel_r by lia.
  rewrite Z.mul_mod_distr_r by lia.
  replace (2 * (n mod d * g)) with (2 * (n mod d) * g) by ring.
  rewrite <- Zmult_compare_compat_r by lia. reflexivity.
Qed.

Lemma mod_scale_eq0 (n d g : Z) :
  0 < d -> 0 < g -> ((n * g) mod (d * g) =? 0) = (n mod d =? 0).
Proof.
  intros Hd Hg. rewrite Z.mul_mod_distr_r by lia.
  destruct (Z.eqb_spec (n mod d) 0) as [->|H]; [reflexivity|].
  apply Z.eqb_neq. nia.
Qed.

(** The location computed by a division step selects the rounding of
    [round_div]. *)
Lemma round_new_location (N D q r : Z) :
  0 < D -> N = D * q + r -> 0 <= r < D ->
  round_nearest_even q (new_location D r) = round_div N D.
Proof.
  intros HD HN Hr.
  assert (Hq : N / D = q) by (symmetry; apply Z.div_unique with r; lia).
  assert (Hm : N mod D = r) by (symmetry; apply Z.mod_unique with q; lia).
  unfold round_div. rewrite Hq, Hm.
  unfold new_location.
  destruct (Z.even D) eqn:HeD;
    unfold new_location_even, new_location_odd;
    (destruct (Z.eqb_spec r 0) as [->|Hr0];
     [replace (2 * 0 ?= D) with Lt by (symmetry; apply Z.compare_lt_iff; lia);
      reflexivity|]).
  - cbn [round_nearest_even]. destruct (2 * r ?= D); reflexivity.
  - idtac.
    + assert (Hodd : Z.odd D = true) by (rewrite <- Z.negb_even, HeD; reflexivity).
      apply Z.odd_spec in Hodd. destruct Hodd as [h Hh].
      destruct (2 * r + 1 ?= D) eqn:Hc.
      * apply Z.compare_eq_iff in Hc.
        replace (2 * r ?= D) with Lt by (symmetry; apply Z.compare_lt_iff; lia).
        reflexivity.
      * rewrite Z.compare_lt_iff in Hc.
        replace (2 * r ?= D) with Lt by (symmetry; apply Z.compare_lt_iff; lia).
        reflexivity.
      * rewrite Z.compare_gt_iff in Hc.
        replace (2 * r ?= D) with Gt by (symmetry; apply Z.compare_gt_iff; lia).
        reflexivity.
Qed.

(** One more binary digit dropped: the quotient by [2 * D]. *)
Lemma round_new_location_shr (N D q r : Z) :
  0 < D -> N = D * q + r -> 0 <= r < D -> 0 <= q ->
  let mrs := shr_1 (shr_record_of_loc q (new_location D r)) in
  round_nearest_even (shr_m mrs) (loc_of_shr_record mrs) = round_div N (2 * D).
Proof.
  intros HD HN Hr Hq0 mrs.
  pose proof (Z.div_mod q 2 ltac:(lia)) as Hq2.
  pose proof (Z.mod_pos_bound q 2 ltac:(lia)) as Hb.
  assert (Hq : N / (2 * D) = q / 2).
  { symmetry. apply Z.div_unique with (D * (q mod 2) + r); nia. }
  assert (Hm : N mod (2 * D) = D * (q mod 2) + r).
  { symmetry. apply Z.mod_unique with (q / 2); nia. }
  unfold round_div. rewrite Hq, Hm.
  assert (Hodd : Z.odd q = (q mod 2 =? 1)).
  { rewrite Zmod_odd. destruct (Z.odd q); reflexivity. }
  assert (Hloc : exists rb sb, shr_record_of_loc q (new_location D r)
                               = Build_shr_record q rb sb
                               /\ (rb || sb = negb (r =? 0))).
  { unfold new_location.
    destruct (Z.even D); unfold new_location_even, new_location_odd;
      (destruct (Z.eqb_spec r 0) as [->|Hr0];
       [exists false, false; split; reflexivity|]).
    - destruct (2 * r ?= D); cbn [shr_record_of_loc]; eauto.
    - destruct (2 * r + 1 ?= D); cbn [shr_record_of_loc]; eauto. }
  destruct Hloc as (rb & sb & Hrec & Hrs).
  subst mrs. rewrite Hrec, shr_1_nonneg by lia. cbn [shr_m loc_of_shr_record].
  rewrite Hrs, Hodd.
  destruct (Z.eqb_spec (q mod 2) 1) as [H1|H1], (Z.eqb_spec r 0) as [H0|H0];
    cbn [negb round_nearest_even].
  - replace (2 * (D * (q mod 2) + r) ?= 2 * D) with Eq
      by (symmetry; apply Z.compare_eq_iff; nia). reflexivity.
  - replace (2 * (D * (q mod 2) + r) ?= 2 * D) with Gt
      by (symmetry; apply Z.compare_gt_iff; nia). reflexivity.
  - replace (2 * (D * (q mod 2) + r) ?= 2 * D) with Lt
      by (symmetry; apply Z.compare_lt_iff; nia). reflexivity.
  - replace (2 * (D * (q mod 2) + r) ?= 2 * D) with Lt
      by (symmetry; apply Z.compare_lt_iff; nia). reflexivity.
Qed.

Lemma loc_of_shr_record_of_loc (m : Z) (l : location) :
  loc_of_shr_record (shr_record_of_loc m l) = l.
Proof. destruct l as [|[ | | ]]; reflexivity. Qed.

Lemma shr_m_of_loc (m : Z) (l : location) : shr_m (shr_record_of_loc m l) = m.
Proof. destruct l as [|[ | | ]]; reflexivity. Qed.

Lemma round_nearest_even_bounds (m : Z) (l : location) :
  m <= round_nearest_even m l <= m + 1.
Proof. destruct l as [|[ | | ]]; cbn [round_nearest_even]; try destruct (Z.even m); lia. Qed.

Lemma Zdigits2_unique (m k : Z) :
  0 < m -> 2 ^ (k - 1) <= m < 2 ^ k -> Zdigits2 m = k.
Proof.
  intros Hm Hb. destruct m as [|p|p]; try lia. cbn [Zdigits2].
  now apply digits2_unique.
Qed.

(** The last step of [binary_round_aux]: a rounded mantissa of 53 digits, or
    [2^53] after a carry, is stored as it is. *)
Lemma binary_round_finish (s : bool) (mF E : Z) :
  2 ^ 52 <= mF <= 2 ^ 53 -> -1074 <= E <= 970 ->
  exists m e,
    (let '(mrs, e'') := shr_fexp prec emax mF E loc_Exact in
     match shr_m mrs with
     | Z0 => S754_zero s
     | Zpos m => if e'' <=? emax - prec then S754_finite s m e''
                 else S754_infinity s
     | Zneg _ => S754_nan
     end) = S754_finite s m e
    /\ E <= e <= E + 1 /\ Z.pos m * 2 ^ (e - E) = mF.
Proof.
  intros HmF HE. unfold shr_fexp. cbn [shr_record_of_loc].
  destruct (Z.eq_dec mF (2 ^ 53)) as [Heq | Hne].
  - subst mF. rewrite (Zdigits2_unique (2 ^ 53) 54) by (simpl; lia).
    rewrite fexp_normal by lia. replace (54 + E - 53 - E) with 1 by lia.
    cbn [shr iter_pos]. rewrite shr_1_nonneg by lia. cbn [shr_m].
    change (2 ^ 53 / 2) with (Z.pos (Z.to_pos (2 ^ 52))).
    unfold emax, prec.
    replace (E + 1 <=? 1024 - 53) with true by (symmetry; apply Z.leb_le; lia).
    eexists _, _. split; [reflexivity|]. split; [lia|].
    replace (E + 1 - E) with 1 by lia. reflexivity.
  - rewrite (Zdigits2_unique mF 53) by (simpl (53 - 1); lia).
    rewrite fexp_normal by lia. replace (53 + E - 53 - E) with 0 by lia.
    cbn [shr shr_m]. destruct mF as [|p|p]; try lia.
    unfold emax, prec.
    replace (E <=? 1024 - 53) with true by (symmetry; apply Z.leb_le; lia).
    eexists _, _. split; [reflexivity|]. split; [lia|].
    replace (E - E) with 0 by lia. lia.
Qed.

(** Rounding the quotient of a division step. *)
Lemma binary_round_aux_div (s : bool) (N D q r E : Z) :
  0 < D -> N = D * q + r -> 0 <= r < D ->
  2 ^ 52 <= q < 2 ^ 54 -> -1000 <= E <= 900 ->
  exists m e delta,
    binary_round_aux prec emax s q E (new_location D r) = S754_finite s m e
    /\ 0 <= delta <= 1 /\ E + delta <= e
    /\ Z.pos m * 2 ^ (e - E - delta) = round_div N (D * 2 ^ delta).
Proof.
  intros HD HN Hr Hq HE. unfold binary_round_aux.
  destruct (Z.lt_ge_cases q (2 ^ 53)) as [Hlt | Hge].
  - (* 53 digits: nothing is shifted out *)
    unfold shr_fexp at 1.
    rewrite (Zdigits2_unique q 53) by (simpl (53 - 1); lia).
    rewrite fexp_normal by lia. replace (53 + E - 53 - E) with 0 by lia.
    cbn [shr]. rewrite loc_of_shr_record_of_loc, shr_m_of_loc.
    rewrite (round_new_location N D q r) by assumption.
    pose proof (round_nearest_even_bounds q (new_location D r)) as Hb.
    rewrite (round_new_location N D q r) in Hb by assumption.
    destruct (binary_round_finish s (round_div N D) E) as (m & e & Hfin & He & Hv);
      try lia.
    exists m, e, 0. rewrite Hfin. repeat split; try lia.
    change (2 ^ 0) with 1. rewrite Z.mul_1_r, Z.sub_0_r. exact Hv.
  - (* 54 digits: one digit is shifted out *)
    unfold shr_fexp at 1.
    rewrite (Zdigits2_unique q 54) by (simpl (54 - 1); lia).
    rewrite fexp_normal by lia. replace (54 + E - 53 - E) with 1 by lia.
    cbn [shr iter_pos].
    pose proof (round_new_location_shr N D q r HD HN Hr ltac:(lia)) as Hrnd.
    cbv zeta in Hrnd.
    set (mrs := shr_1 (shr_record_of_loc q (new_location D r))) in *.
    assert (Hm : shr_m mrs = q / 2).
    { subst mrs. destruct (new_location D r) as [|[ | | ]];
        cbn [shr_record_of_loc]; rewrite shr_1_nonneg by lia; reflexivity. }
    pose proof (round_nearest_even_bounds (shr_m mrs) (loc_of_shr_record mrs)) as Hb.
    rewrite Hrnd in *. rewrite Hm in Hb.
    assert (2 ^ 52 <= q / 2 < 2 ^ 53).
    { split.
      - apply Z.div_le_lower_bound; [lia|]. change (2 * 2 ^ 52) with (2 ^ 53). lia.
      - apply Z.div_lt_upper_bound; [lia|]. change (2 * 2 ^ 53) with (2 ^ 54). lia. }
    destruct (binary_round_finish s (round_div N (2 * D)) (E + 1))
      as (m & e & Hfin & He & Hv); try lia.
    exists m, e, 1. rewrite Hfin. repeat split; try lia.
    change (2 ^ 1) with 2. rewrite (Z.mul_comm D 2).
    replace (e - E - 1) with (e - (E + 1)) by lia. exact Hv.
Qed.

Lemma div_eucl_div_mod (a b : Z) : Z.div_eucl a b = (a / b, a mod b).
Proof. unfold Z.div, Z.modulo. destruct (Z.div_eucl a b); reflexivity. Qed.

(** The quotient of two integer-valued floats: [S / V] rounded to a multiple
    of [2^-t], with [t] large enough to separate [V]-ths from halves. *)
Lemma fdiv_int (S V : Z) (fS fV : float) :
  int_float S fS -> int_float V fV -> 0 < S < 2 ^ 52 -> V <> 0 ->
  exists m e t,
    fdiv fS fV = S754_finite (V <? 0) m e
    /\ 1 <= t /\ Z.abs V < 2 ^ t /\ 0 <= t + e
    /\ Z.pos m * 2 ^ (t + e) = round_div (S * 2 ^ t) (Z.abs V).
Proof.
  intros HS HV HSb HVnz.
  destruct fS as [sS| | |sS cS kS]; cbn [int_float] in HS; try contradiction; [lia|].
  destruct fV as [sV| | |sV cV kV]; cbn [int_float] in HV; try contradiction.
  destruct HS as (HdS & HkS & HvS), HV as (HdV & HkV & HvV).
  pose proof (digits2_bounds cS) as BS. rewrite HdS in BS. simpl (53 - 1) in BS.
  pose proof (digits2_bounds cV) as BV. rewrite HdV in BV. simpl (53 - 1) in BV.
  pose proof (pow2_pos (- kS) ltac:(lia)) as HpS.
  pose proof (pow2_pos (- kV) ltac:(lia)) as HpV.
  assert (sS = false) by (destruct sS; cbn [cond_Zopp] in HvS; [nia | reflexivity]).
  subst sS. cbn [cond_Zopp] in HvS.
  assert (HsV : sV = (V <? 0)).
  { destruct sV; cbn [cond_Zopp] in HvV; symmetry;
      [apply Z.ltb_lt | apply Z.ltb_ge]; nia. }
  assert (HcV : Z.pos cV = Z.abs V * 2 ^ (- kV)).
  { destruct sV; cbn [cond_Zopp] in HvV; nia. }
  assert (HkS1 : kS <= -1).
  { destruct (Z.eq_dec kS 0) as [->|]; [|lia]. change (2 ^ (- 0)) with 1 in HvS. lia. }
  unfold fdiv, SFdiv, SFdiv_core_binary. cbn [Zdigits2 xorb].
  rewrite HdS, HdV.
  replace (53 + kS - (53 + kV)) with (kS - kV) by lia.
  rewrite fexp_normal by lia.
  replace (Z.min (kS - kV - 53) (kS - kV)) with (kS - kV - 53) by lia.
  replace (kS - kV - (kS - kV - 53)) with 53 by lia.
  rewrite Z.shiftl_mul_pow2 by lia.
  rewrite div_eucl_div_mod.
  set (N := Z.pos cS * 2 ^ 53).
  pose proof (Z.div_mod N (Z.pos cV) ltac:(lia)) as Hdm.
  pose proof (Z.mod_pos_bound N (Z.pos cV) ltac:(lia)) as Hmb.
  assert (Hq : 2 ^ 52 <= N / Z.pos cV < 2 ^ 54).
  { split.
    - apply Z.div_le_lower_bound; [lia|]. unfold N. nia.
    - apply Z.div_lt_upper_bound; [lia|]. unfold N.
      change (2 ^ 54) with (2 ^ 53 * 2). nia. }
  destruct (binary_round_aux_div sV N (Z.pos cV) (N / Z.pos cV) (N mod Z.pos cV)
              (kS - kV - 53)) as (m & e & delta & Hres & Hdelta & He & Hval);
    try lia.
  exists m, e, (53 + kV - kS - delta).
  rewrite Hres, HsV.
  pose proof (pow2_pos delta ltac:(lia)) as Hpd.
  split; [reflexivity|]. split; [lia|]. split; [|split; [lia|]].
  - assert (Z.abs V < 2 ^ (53 + kV)).
    { apply (Z.mul_lt_mono_pos_r (2 ^ (- kV))); [lia|].
      rewrite <- Z.pow_add_r by lia. replace (53 + kV + - kV) with 53 by lia. lia. }
    assert (2 ^ (53 + kV) <= 2 ^ (53 + kV - kS - delta)) by (apply Z.pow_le_mono_r; lia).
    lia.
  - replace (53 + kV - kS - delta + e) with (e - (kS - kV - 53) - delta) by lia.
    rewrite Hval.
    rewrite <- (round_div_scale (S * 2 ^ (53 + kV - kS - delta)) (Z.abs V)
                  (2 ^ (delta - kV))) by (try apply pow2_pos; lia).
    f_equal.
    + unfold N. rewrite HvS. rewrite <- !Z.mul_assoc, <- !Z.pow_add_r by lia.
      do 2 f_equal. lia.
    + rewrite HcV. rewrite <- !Z.mul_assoc, <- !Z.pow_add_r by lia.
      do 2 f_equal. lia.
Qed.

Lemma fdiv_zero_int (V : Z) (fS fV : float) :
  int_float 0 fS -> int_float V fV -> V <> 0 ->
  exists b, fdiv fS fV = S754_zero b.
Proof.
  intros HS HV HVnz.
  destruct fV as [sV| | |sV cV kV]; cbn [int_float] in HV; try contradiction.
  destruct fS as [sS| | |sS cS kS]; cbn [int_float] in HS; try contradiction.
  - eexists. reflexivity.
  - destruct HS as (_ & _ & Hv). destruct sS; cbn [cond_Zopp] in Hv; lia.
Qed.

(** [round] and [% 1] read a float through any scaling of its mantissa. *)
Lemma py_round_scaled (s : bool) (m : positive) (e t mF : Z) :
  0 <= t -> 0 <= t + e -> Z.pos m * 2 ^ (t + e) = mF ->
  py_round (S754_finite s m e) = Ok (cond_Zopp s (round_div mF (2 ^ t)))
  /\ has_fraction (S754_finite s m e) = negb (mF mod 2 ^ t =? 0).
Proof.
  intros Ht Hte HmF. subst mF. cbn [py_round has_fraction].
  pose proof (pow2_pos t Ht) as Hpt.
  destruct (Z.leb_spec 0 e) as [He | He].
  - replace (t + e) with (e + t) by lia. rewrite Z.pow_add_r, Z.mul_assoc by lia.
    pose proof (pow2_pos e He).
    unfold round_div. rewrite Z.mod_mul, Z.div_mul by lia.
    replace (2 * 0 ?= 2 ^ t) with Lt by (symmetry; apply Z.compare_lt_iff; lia).
    split; reflexivity.
  - replace t with (- e + (t + e)) at 2 4 by lia.
    rewrite (Z.pow_add_r 2 (- e)) by lia.
    pose proof (pow2_pos (- e) ltac:(lia)). pose proof (pow2_pos (t + e) Hte).
    rewrite round_div_scale by lia.
    rewrite mod_scale_eq0 by lia. split; reflexivity.
Qed.

Lemma round_div_cases (n d : Z) :
  0 < d ->
  (round_div n d = n / d /\ 2 * (n mod d) <= d)
  \/ (round_div n d = n / d + 1 /\ d <= 2 * (n mod d)).
Proof.
  intros Hd. unfold round_div.
  destruct (2 * (n mod d) ?= d) eqn:Hc.
  - apply Z.compare_eq_iff in Hc. destruct (Z.even (n / d)); [left | right]; lia.
  - rewrite Z.compare_lt_iff in Hc. left; lia.
  - rewrite Z.compare_gt_iff in Hc. right; lia.
Qed.

(** Where the rounded scaled quotient falls between two integers. *)
Lemma scaled_fraction (b d H j r w : Z) :
  0 < d -> 0 <= b < d -> 1 <= H -> d < 2 * H ->
  b * (2 * H) = d * j + r -> 0 <= r < d ->
  (w = j /\ 2 * r <= d) \/ (w = j + 1 /\ d <= 2 * r) ->
  (b = 0 -> w = 0)
  /\ (0 < 2 * b < d -> 0 < w < H)
  /\ (2 * b = d -> w = H)
  /\ (d < 2 * b -> H < w < 2 * H).
Proof.
  intros Hd Hb HH HdP Hdiv Hr Hw.
  assert (Hj0 : 0 <= j) by nia.
  repeat split.
  - intros ->. assert (j = 0) by nia. assert (r = 0) by nia. lia.
  - assert (1 <= j); [|lia].
    destruct (Z.le_gt_cases 1 j); auto. assert (j = 0) by lia. subst j. nia.
  - assert (j <= H - 1) by nia.
    destruct Hw as [[-> _] | [-> Hr2]]; [lia|].
    destruct (Z.eq_dec j (H - 1)) as [->|]; [|lia]. exfalso.
    assert (1 <= d - 2 * b) by lia. nia.
  - intros Hbd. assert (j = H) by nia. subst j. assert (r = 0) by nia. lia.
  - assert (H <= j) by nia.
    destruct Hw as [[-> Hr2] | [-> _]]; [|lia].
    destruct (Z.eq_dec j H) as [->|]; [|lia]. exfalso.
    assert (1 <= 2 * b - d) by lia. nia.
  - assert (j <= 2 * H - 1) by nia.
    destruct Hw as [[-> _] | [-> Hr2]]; [lia|].
    destruct (Z.eq_dec j (2 * H - 1)) as [->|]; [|lia]. exfalso.
    assert (1 <= d - b) by lia. nia.
Qed.

(** Rounding [S / d] to a multiple of [2^-t] first changes neither whether it
    is an integer nor the integer it rounds to. *)
Lemma round_div_refine (S d t : Z) :
  0 <= S -> 0 < d -> 1 <= t -> d < 2 ^ t ->
  round_div (round_div (S * 2 ^ t) d) (2 ^ t) = round_div S d
  /\ (round_div (S * 2 ^ t) d mod 2 ^ t =? 0) = (S mod d =? 0).
Proof.
  intros HS Hd Ht HdP.
  set (H := 2 ^ (t - 1)).
  assert (HP : 2 ^ t = 2 * H).
  { unfold H. replace t with (t - 1 + 1) at 1 by lia. rewrite Z.pow_add_r by lia. lia. }
  assert (HH : 1 <= H) by (pose proof (pow2_pos (t - 1) ltac:(lia)); unfold H; lia).
  rewrite HP in *.
  pose proof (Z.div_mod S d ltac:(lia)) as HSd.
  pose proof (Z.mod_pos_bound S d Hd) as Hb.
  set (a := S / d) in *. set (b := S mod d) in *.
  pose proof (Z.div_mod (b * (2 * H)) d ltac:(lia)) as Hbd.
  pose proof (Z.mod_pos_bound (b * (2 * H)) d Hd) as Hrb.
  set (j := b * (2 * H) / d) in *. set (r := (b * (2 * H)) mod d) in *.
  assert (Hq : S * (2 * H) / d = a * (2 * H) + j).
  { symmetry. apply Z.div_unique with r; [lia|]. rewrite HSd. nia. }
  assert (Hm : (S * (2 * H)) mod d = r).
  { symmetry. apply Z.mod_unique with (a * (2 * H) + j); [lia|]. rewrite HSd. nia. }
  assert (Hw : exists w, round_div (S * (2 * H)) d = a * (2 * H) + w
                         /\ ((w = j /\ 2 * r <= d) \/ (w = j + 1 /\ d <= 2 * r))).
  { destruct (round_div_cases (S * (2 * H)) d Hd) as [[-> Hc] | [-> Hc]];
      rewrite Hq; rewrite Hm in Hc.
    - exists j. split; [lia | left; lia].
    - exists (j + 1). split; [lia | right; lia]. }
  destruct Hw as (w & -> & Hw).
  destruct (scaled_fraction b d H j r w Hd Hb HH HdP Hbd Hrb Hw)
    as (F0 & Flt & Feq & Fgt).
  assert (Hwb : 0 <= w < 2 * H).
  { destruct (Z.eq_dec b 0); [specialize (F0 ltac:(lia)); lia|].
    destruct (Z.lt_trichotomy (2 * b) d) as [Hl | [He | Hg]];
      [specialize (Flt ltac:(lia)) | specialize (Feq He) | specialize (Fgt Hg)]; lia. }
  assert (Hdiv : (a * (2 * H) + w) / (2 * H) = a)
    by (symmetry; apply Z.div_unique with w; lia).
  assert (Hmod : (a * (2 * H) + w) mod (2 * H) = w)
    by (symmetry; apply Z.mod_unique with a; lia).
  split.
  - unfold round_div at 1. rewrite Hdiv, Hmod.
    unfold round_div. fold a b.
    destruct (Z.eq_dec b 0) as [Hb0 | Hb0].
    + specialize (F0 Hb0). subst w. rewrite Hb0.
      replace (2 * 0 ?= 2 * H) with Lt by (symmetry; apply Z.compare_lt_iff; lia).
      replace (2 * 0 ?= d) with Lt by (symmetry; apply Z.compare_lt_iff; lia).
      reflexivity.
    + destruct (Z.lt_trichotomy (2 * b) d) as [Hl | [He | Hg]].
      * specialize (Flt ltac:(lia)).
        replace (2 * w ?= 2 * H) with Lt by (symmetry; apply Z.compare_lt_iff; lia).
        replace (2 * b ?= d) with Lt by (symmetry; apply Z.compare_lt_iff; lia).
        reflexivity.
      * specialize (Feq He).
        replace (2 * w ?= 2 * H) with Eq by (symmetry; apply Z.compare_eq_iff; lia).
        replace (2 * b ?= d) with Eq by (symmetry; apply Z.compare_eq_iff; lia).
        reflexivity.
      * specialize (Fgt Hg).
        replace (2 * w ?= 2 * H) with Gt by (symmetry; apply Z.compare_gt_iff; lia).
        replace (2 * b ?= d) with Gt by (symmetry; apply Z.compare_gt_iff; lia).
        reflexivity.
  - rewrite Hmod.
    destruct (Z.eqb_spec b 0) as [Hb0 | Hb0].
    + rewrite (F0 Hb0). reflexivity.
    + apply Z.eqb_neq.
      destruct (Z.lt_trichotomy (2 * b) d) as [Hl | [He | Hg]];
        [specialize (Flt ltac:(lia)) | specialize (Feq He) | specialize (Fgt Hg)]; lia.
Qed.

End Binary64.

(** ** The arithmetic engine

    In the range [in_exact_range], [Player.calculate] computes
    [exact_result], which is what the specification asks. *)

Section ArithmeticEngine.

Lemma int_float_zero : int_float 0 fzero.
Proof. reflexivity. Qed.

(** The tail of [calculate] on an integer-valued raw result. *)
Lemma clamp_round_int (z : Z) (f : float) :
  int_float z f ->
  let res := if flt f fzero then fzero else f in
  has_fraction res = false /\ py_round res = Ok (Z.max 0 z).
Proof.
  intros Hf res. subst res. rewrite (flt_zero_int z f Hf).
  destruct (Z.ltb_spec z 0).
  - split; [reflexivity|]. cbn. f_equal. lia.
  - split; [exact (has_fraction_int z f Hf)|].
    rewrite (py_round_int z f Hf). f_equal. lia.
Qed.

Lemma calculate_exact (p : Player) (op : Operation) (V : Z) :
  in_exact_range (score p) op V ->
  calculate p op V
  = Ok (with_score p (fst (exact_result (score p) op V)),
        snd (exact_result (score p) op V)).
Proof.
  intros (HS & HV & Hmul & Hdiv).
  destruct (py_float_int (score p)) as (fS & HfS & HiS); [lia|].
  destruct (py_float_int V) as (fV & HfV & HiV); [lia|].
  unfold calculate. rewrite HfS. cbn [bind].
  destruct op; cbn [exact_result fst snd].
  - rewrite HfV. cbn [bind].
    destruct (clamp_round_int _ _ (fadd_int _ _ _ _ HiS HiV ltac:(lia))) as [Hfr Hrd].
    cbv zeta in Hfr, Hrd. rewrite Hfr, Hrd. reflexivity.
  - rewrite HfV. cbn [bind].
    destruct (clamp_round_int _ _ (fsub_int _ _ _ _ HiS HiV ltac:(lia))) as [Hfr Hrd].
    cbv zeta in Hfr, Hrd. rewrite Hfr, Hrd. reflexivity.
  - rewrite HfV. cbn [bind].
    assert (Z.abs (score p * V) < 2 ^ 53).
    { rewrite Z.abs_mul. specialize (Hmul eq_refl). rewrite (Z.abs_eq (score p)); lia. }
    destruct (clamp_round_int _ _ (fmul_int _ _ _ _ HiS HiV ltac:(lia))) as [Hfr Hrd].
    cbv zeta in Hfr, Hrd. rewrite Hfr, Hrd. reflexivity.
  - specialize (Hdiv eq_refl).
    replace (V =? 0) with false by (symmetry; apply Z.eqb_neq; assumption).
    rewrite HfV. cbn [bind].
    destruct (Z.eq_dec (score p) 0) as [H0 | H0].
    + rewrite H0 in HiS.
      destruct (fdiv_zero_int V fS fV HiS HiV Hdiv) as [b ->].
      rewrite H0. cbn.
      destruct (Z.ltb_spec V 0); [reflexivity|].
      unfold round_div. rewrite Zdiv_0_l, Zmod_0_l.
      replace (2 * 0 ?= V) with Lt by (symmetry; apply Z.compare_lt_iff; lia).
      reflexivity.
    + destruct (fdiv_int (score p) V fS fV HiS HiV ltac:(lia) Hdiv)
        as (m & e & t & -> & Ht & HVt & Hte & Hval).
      destruct (py_round_scaled (V <? 0) m e t _ ltac:(lia) Hte Hval) as [Hrd Hfr].
      unfold flt, SFltb, fzero. cbn [SFcompare].
      destruct (Z.ltb_spec V 0) as [Hneg | Hpos].
      * cbn [fst snd]. reflexivity.
      * fold fzero. rewrite Hrd, Hfr. cbn [bind cond_Zopp fst snd].
        rewrite Z.abs_eq in * by lia.
        destruct (round_div_refine (score p) V t ltac:(lia) ltac:(lia) Ht HVt)
          as [-> ->].
        reflexivity.
Qed.

Lemma clamp_compat (q q' : Q) : (q == q')%Q -> (clamp q == clamp q')%Q.
Proof.
  intros H. unfold clamp.
  destruct (Qlt_le_dec q 0), (Qlt_le_dec q' 0); try reflexivity; try assumption.
  - rewrite H in q0. exfalso. apply (Qlt_not_le _ _ q0). assumption.
  - rewrite <- H in q1. exfalso. apply (Qlt_not_le _ _ q1). assumption.
Qed.

Lemma clamp_nonneg (q : Q) : (0 <= q)%Q -> clamp q = q.
Proof.
  intros H. unfold clamp. destruct (Qlt_le_dec q 0) as [Hl|]; [|reflexivity].
  exfalso. apply (Qlt_not_le _ _ Hl). assumption.
Qed.

Lemma clamp_nonpos (q : Q) : (q <= 0)%Q -> (clamp q == 0)%Q.
Proof.
  intros H. unfold clamp. destruct (Qlt_le_dec q 0) as [|Hg]; [reflexivity|].
  apply Qle_antisym; assumption.
Qed.

Lemma clamp_inject_Z (z : Z) : (clamp (inject_Z z) == inject_Z (Z.max 0 z))%Q.
Proof.
  destruct (Z.le_gt_cases 0 z).
  - rewrite clamp_nonneg by (change 0%Q with (inject_Z 0); rewrite <- Zle_Qle; assumption).
    rewrite Z.max_r by assumption. reflexivity.
  - rewrite clamp_nonpos by (change 0%Q with (inject_Z 0); rewrite <- Zle_Qle; lia).
    rewrite Z.max_l by lia. reflexivity.
Qed.

Lemma is_integer_compat (q q' : Q) : (q == q')%Q -> is_integer q <-> is_integer q'.
Proof.
  intros H. unfold is_integer. split; intros [n Hn]; exists n.
  - rewrite <- H. assumption.
  - rewrite H. assumption.
Qed.

Lemma nearest_integer_compat (q q' : Q) (n : Z) :
  (q == q')%Q -> nearest_integer q n <-> nearest_integer q' n.
Proof. intros H. unfold nearest_integer. rewrite H. reflexivity. Qed.

Lemma is_integer_inject_Z (z : Z) : is_integer (inject_Z z).
Proof. exists z. reflexivity. Qed.

Lemma nearest_integer_inject_Z (z : Z) : nearest_integer (inject_Z z) z.
Proof.
  unfold nearest_integer.
  assert (H : (inject_Z z - inject_Z z == 0)%Q) by ring.
  rewrite H. discriminate.
Qed.

Lemma is_integer_Qmake (a : Z) (b : positive) :
  is_integer (a # b) <-> a mod Z.pos b = 0.
Proof.
  unfold is_integer. split.
  - intros [n Hn]. unfold Qeq in Hn. cbn in Hn.
    rewrite Z.mul_1_r in Hn. rewrite Hn. apply Z.mod_mul. lia.
  - intros H. exists (a / Z.pos b). unfold Qeq. cbn. rewrite Z.mul_1_r.
    pose proof (Z.div_mod a (Z.pos b) ltac:(lia)). lia.
Qed.

Lemma nearest_integer_Qmake (a : Z) (b : positive) :
  nearest_integer (a # b) (round_div a (Z.pos b)).
Proof.
  unfold nearest_integer.
  pose proof (Z.div_mod a (Z.pos b) ltac:(lia)) as Hdm.
  pose proof (Z.mod_pos_bound a (Z.pos b) ltac:(lia)) as Hmb.
  set (n := round_div a (Z.pos b)).
  assert (Hn : 2 * Z.abs (n * Z.pos b - a) <= Z.pos b).
  { subst n. destruct (round_div_cases a (Z.pos b) ltac:(lia)) as [[-> Hc] | [-> Hc]]; nia. }
  clearbody n.
  unfold Qle, Qabs, Qminus, Qplus, Qopp, inject_Z. cbn [Qnum Qden].
  rewrite Pos.mul_1_l. rewrite !Z.mul_1_r, Z.mul_1_l.
  replace (n * Z.pos b + - a) with (n * Z.pos b - a) by lia. lia.
Qed.

Lemma half_not_integer (z n : Z) : ~ (inject_Z z == inject_Z n + (1 # 2))%Q.
Proof. unfold Qeq, Qplus, inject_Z. cbn. lia. Qed.

Lemma Qmake_half (a : Z) (b : positive) (n : Z) :
  (a # b == inject_Z n + (1 # 2))%Q -> 2 * a = (2 * n + 1) * Z.pos b.
Proof. intros H. unfold Qeq, Qplus, inject_Z in H. cbn in H. lia. Qed.

Lemma round_div_half (a d n : Z) :
  0 < d -> 2 * a = (2 * n + 1) * d ->
  round_div a d = if Z.even n then n else n + 1.
Proof.
  intros Hd H.
  assert (Hev : exists h, d = 2 * h).
  { destruct (Z.Even_or_Odd d) as [[h ->] | [h ->]]; [eauto|]. exfalso. lia. }
  destruct Hev as [h ->].
  assert (a = 2 * h * n + h) by nia.
  assert (Hq : a / (2 * h) = n) by (symmetry; apply Z.div_unique with h; lia).
  assert (Hm : a mod (2 * h) = h) by (symmetry; apply Z.mod_unique with n; lia).
  unfold round_div. rewrite Hq, Hm. rewrite Z.compare_refl. reflexivity.
Qed.

Lemma raw_result_ADD (S V : Z) : raw_result S ADD V = inject_Z (S + V).
Proof. cbn [raw_result]. rewrite inject_Z_plus. reflexivity. Qed.

Lemma raw_result_SUBTRACT (S V : Z) :
  raw_result S SUBTRACT V = inject_Z (S - V).
Proof.
  cbn [raw_result]. unfold Z.sub, Qminus.
  rewrite inject_Z_plus, inject_Z_opp. reflexivity.
Qed.

Lemma raw_result_MULTIPLY (S V : Z) :
  raw_result S MULTIPLY V = inject_Z (S * V).
Proof. cbn [raw_result]. rewrite inject_Z_mult. reflexivity. Qed.

Lemma raw_result_DIVIDE_pos (S : Z) (v : positive) :
  (raw_result S DIVIDE (Z.pos v) == S # v)%Q.
Proof. cbn [raw_result]. symmetry. apply Qmake_Qdiv. Qed.

Lemma raw_result_DIVIDE_neg (S : Z) (v : positive) :
  0 <= S -> (raw_result S DIVIDE (Z.neg v) <= 0)%Q.
Proof.
  intros HS. cbv [raw_result Qle Qdiv Qmult Qinv inject_Z Qnum Qden].
  rewrite Z.mul_0_l. lia.
Qed.

(** What the clamped raw result is, for the cases of [exact_result]. *)
Lemma exact_result_meets_spec (S : Z) (op : Operation) (V : Z) :
  0 <= S -> (op = DIVIDE -> V <> 0) ->
  let c := clamp (raw_result S op V) in
  (snd (exact_result S op V) = true <-> ~ is_integer c)
  /\ nearest_integer c (fst (exact_result S op V))
  /\ 0 <= fst (exact_result S op V).
Proof.
  intros HS Hdiv c.
  assert (Hint : forall z, (c == inject_Z (Z.max 0 z))%Q ->
            (false = true <-> ~ is_integer c)
            /\ nearest_integer c (Z.max 0 z) /\ 0 <= Z.max 0 z).
  { intros z Hc. split; [|split; [|lia]].
    - split; [discriminate|]. intros Hn. exfalso. apply Hn.
      apply (is_integer_compat _ _ Hc), is_integer_inject_Z.
    - apply (nearest_integer_compat _ _ _ Hc), nearest_integer_inject_Z. }
  destruct op; cbn [exact_result fst snd].
  - apply Hint. subst c. rewrite raw_result_ADD. apply clamp_inject_Z.
  - apply Hint. subst c. rewrite raw_result_SUBTRACT. apply clamp_inject_Z.
  - apply Hint. subst c. rewrite raw_result_MULTIPLY. apply clamp_inject_Z.
  - specialize (Hdiv eq_refl). destruct V as [|v|v]; [contradiction| |].
    + assert (Hc : (c == S # v)%Q).
      { subst c. rewrite (clamp_compat _ _ (raw_result_DIVIDE_pos S v)).
        rewrite clamp_nonneg; [reflexivity|]. unfold Qle. cbn. lia. }
      cbn [Z.ltb Z.compare fst snd]. split; [|split].
      * rewrite (is_integer_compat _ _ Hc), is_integer_Qmake.
        destruct (Z.eqb_spec (S mod Z.pos v) 0); cbn [negb]; split;
          intros; try discriminate; try contradiction; auto.
      * apply (nearest_integer_compat _ _ _ Hc), nearest_integer_Qmake.
      * pose proof (Z.div_pos S (Z.pos v) HS ltac:(lia)).
        destruct (round_div_cases S (Z.pos v) ltac:(lia)) as [[-> _] | [-> _]]; lia.
    + pose proof (clamp_nonpos _ (raw_result_DIVIDE_neg S v HS)) as Hc.
      fold c in Hc. change 0%Q with (inject_Z (Z.max 0 0)) in Hc.
      cbn [Z.ltb Z.compare fst snd]. exact (Hint 0 Hc).
Qed.

Lemma exact_result_ties (S : Z) (op : Operation) (V n : Z) :
  0 <= S -> (op = DIVIDE -> V <> 0) ->
  (clamp (raw_result S op V) == inject_Z n + (1 # 2))%Q ->
  fst (exact_result S op V) = if Z.even n then n else n + 1.
Proof.
  intros HS Hdiv Hhalf.
  assert (Hint : forall z, (clamp (raw_result S op V) == inject_Z z)%Q -> False).
  { intros z Hz. rewrite Hz in Hhalf. exact (half_not_integer _ _ Hhalf). }
  destruct op.
  - exfalso. apply (Hint (Z.max 0 (S + V))). rewrite raw_result_ADD. apply clamp_inject_Z.
  - exfalso. apply (Hint (Z.max 0 (S - V))). rewrite raw_result_SUBTRACT. apply clamp_inject_Z.
  - exfalso. apply (Hint (Z.max 0 (S * V))). rewrite raw_result_MULTIPLY. apply clamp_inject_Z.
  - specialize (Hdiv eq_refl). destruct V as [|v|v]; [contradiction| |].
    + cbn [exact_result Z.ltb Z.compare fst].
      apply round_div_half; [lia|]. apply Qmake_half.
      rewrite <- Hhalf. rewrite (clamp_compat _ _ (raw_result_DIVIDE_pos S v)).
      rewrite clamp_nonneg; [reflexivity|]. unfold Qle. cbn. lia.
    + exfalso. apply (Hint 0).
      apply (clamp_nonpos _ (raw_result_DIVIDE_neg S v HS)).
Qed.

(** [float(n)] succeeds below [2^1023]. *)
Lemma binary_round_finite (s : bool) (M : positive) :
  Z.pos M < 2 ^ 1023 ->
  exists m e, binary_round prec emax s M 0 = S754_finite s m e.
Proof.
  intros HM. pose proof (digits2_bounds M) as [Blo Bhi].
  set (d := Z.pos (digits2_pos M)) in *.
  assert (Hd : 1 <= d <= 1023).
  { split; [unfold d; lia|]. destruct (Z.le_gt_cases d 1023); auto.
    assert (2 ^ 1023 <= 2 ^ (d - 1)) by (apply Z.pow_le_mono_r; lia). lia. }
  destruct (Z.le_gt_cases d 53) as [Hle | Hgt].
  - assert (Z.pos M < 2 ^ 53).
    { assert (2 ^ d <= 2 ^ 53) by (apply Z.pow_le_mono_r; lia). lia. }
    pose proof (binary_round_int s M 0 M ltac:(lia) ltac:(cbn; lia) H) as Hi.
    destruct (binary_round prec emax s M 0) as [| | |s' m e] eqn:Hr;
      cbn [int_float] in Hi; try contradiction.
    + destruct s; cbn in Hi; lia.
    + assert (s' = s).
      { destruct Hi as (_ & Hk & Hv). pose proof (pow2_pos (- e) ltac:(lia)).
        destruct s, s'; cbn [cond_Zopp] in Hv; try reflexivity; nia. }
      subst s'. eauto.
  - unfold binary_round. fold d. rewrite fexp_normal by lia.
    unfold shl_align. replace (d + 0 - 53 - 0) with (d - 53) by lia.
    destruct (d - 53) as [|n|n] eqn:Hn; try lia.
    unfold binary_round_aux, shr_fexp at 1. cbn [Zdigits2 shr_record_of_loc].
    fold d. rewrite fexp_normal by lia.
    replace (d + 0 - 53 - 0) with (Z.pos n) by lia. cbn [shr].
    rewrite iter_pos_shr_1 by lia.
    set (mrs := Build_shr_record _ _ _).
    pose proof (round_nearest_even_bounds (shr_m mrs) (loc_of_shr_record mrs)) as Hb.
    assert (Hm : 2 ^ 52 <= shr_m mrs < 2 ^ 53).
    { subst mrs. cbn [shr_m]. pose proof (pow2_pos (Z.pos n) ltac:(lia)). split.
      - apply Z.div_le_lower_bound; [lia|]. rewrite <- Z.pow_add_r by lia.
        replace (Z.pos n + 52) with (d - 1) by lia. lia.
      - apply Z.div_lt_upper_bound; [lia|]. rewrite <- Z.pow_add_r by lia.
        replace (Z.pos n + 53) with d by lia. lia. }
    destruct (binary_round_finish s
                (round_nearest_even (shr_m mrs) (loc_of_shr_record mrs))
                (0 + Z.pos n)) as (m & e & Hfin & _); try lia.
    exists m, e. exact Hfin.
Qed.

Lemma py_float_below_2_1023 (z : Z) :
  Z.abs z < 2 ^ 1023 -> exists f, py_float z = Ok f.
Proof.
  intros Hz. unfold py_float, of_Z. destruct z as [|M|M]; cbn [binary_normalize].
  - eauto.
  - destruct (binary_round_finite false M ltac:(lia)) as (m & e & ->). eauto.
  - destruct (binary_round_finite true M ltac:(lia)) as (m & e & ->). eauto.
Qed.

End ArithmeticEngine.

(** ** The scores of a game

    Every finite float the operations return is a binary64, so the score
    [calculate] stores converts back to a float: the conversion that opens
    [calculate] never overflows during a game. *)

Section Scores.

Lemma Zdigits2_bound (m : Z) : 0 <= m -> m < 2 ^ Zdigits2 m.
Proof.
  intros Hm. destruct m as [|p|p]; cbn [Zdigits2]; try lia.
  apply digits2_bounds.
Qed.

Lemma Zdigits2_nonneg (m : Z) : 0 <= Zdigits2 m.
Proof. destruct m; cbn [Zdigits2]; lia. Qed.

Lemma shr_m_shr (m : Z) (l : location) (e n : Z) :
  0 <= m ->
  shr_m (fst (shr (shr_record_of_loc m l) e n))
  = if 0 <? n then m / 2 ^ n else m.
Proof.
  intros Hm. destruct n as [|p|p]; cbn [shr fst Z.ltb Z.compare];
    try apply shr_m_of_loc.
  destruct l as [|[ | | ]]; cbn [shr_record_of_loc];
    rewrite iter_pos_shr_1 by assumption; reflexivity.
Qed.

(** What [shr_fexp] leaves has at most 53 digits. *)
Lemma shr_fexp_small (m : Z) (l : location) (e : Z) :
  0 <= m ->
  0 <= shr_m (fst (shr_fexp prec emax m e l)) < 2 ^ 53.
Proof.
  intros Hm. unfold shr_fexp. rewrite shr_m_shr by assumption.
  pose proof (Zdigits2_bound m Hm) as Hd.
  pose proof (Zdigits2_nonneg m) as Hd0.
  set (d := Zdigits2 m) in *.
  assert (Hf : d + e - 53 <= fexp prec emax (d + e))
    by (unfold fexp, prec; lia).
  set (n := fexp prec emax (d + e) - e) in *.
  destruct (Z.ltb_spec 0 n) as [Hn | Hn].
  - pose proof (pow2_pos n ltac:(lia)) as Hp. split.
    + apply Z.div_pos; lia.
    + apply Z.div_lt_upper_bound; [lia|].
      destruct (Z.le_gt_cases d 53) as [Hle | Hgt].
      * assert (2 ^ d <= 2 ^ 53) by (apply Z.pow_le_mono_r; lia). nia.
      * rewrite <- Z.pow_add_r by lia.
        assert (2 ^ d <= 2 ^ (n + 53)) by (apply Z.pow_le_mono_r; lia). lia.
  - split; [lia|].
    assert (2 ^ d <= 2 ^ 53) by (apply Z.pow_le_mono_r; lia). lia.
Qed.

(** After a carry to [2^53], [shr_fexp] shifts once more. *)
Lemma shr_fexp_carry (e : Z) :
  0 <= shr_m (fst (shr_fexp prec emax (2 ^ 53) e loc_Exact)) < 2 ^ 53.
Proof.
  unfold shr_fexp. rewrite shr_m_shr by (simpl; lia).
  rewrite (Zdigits2_unique (2 ^ 53) 54) by (simpl; lia).
  assert (Hf : 54 + e - 53 <= fexp prec emax (54 + e))
    by (unfold fexp, prec; lia).
  set (n := fexp prec emax (54 + e) - e) in *.
  replace (0 <? n) with true by (symmetry; apply Z.ltb_lt; lia).
  pose proof (pow2_pos n ltac:(lia)) as Hp.
  split.
  - apply Z.div_pos; [simpl|]; lia.
  - apply Z.div_lt_upper_bound; [lia|].
    assert (2 ^ 1 <= 2 ^ n) by (apply Z.pow_le_mono_r; lia).
    change (2 ^ 1) with 2 in *. nia.
Qed.

(** Every finite result of [binary_round_aux] has a mantissa below [2^53]
    and an exponent of at most 971. *)
Lemma binary_round_aux_bounded (s : bool) (mx ex : Z) (lx : location) :
  0 <= mx -> bounded_float (binary_round_aux prec emax s mx ex lx).
Proof.
  intros Hm. unfold binary_round_aux.
  pose proof (shr_fexp_small mx lx ex Hm) as H1.
  destruct (shr_fexp prec emax mx ex lx) as [mrs' e']. cbn [fst] in H1.
  pose proof (round_nearest_even_bounds (shr_m mrs') (loc_of_shr_record mrs')) as Hb.
  set (m1 := round_nearest_even (shr_m mrs') (loc_of_shr_record mrs')) in *.
  assert (H2 : 0 <= shr_m (fst (shr_fexp prec emax m1 e' loc_Exact)) < 2 ^ 53).
  { destruct (Z.eq_dec m1 (2 ^ 53)) as [-> | Hne].
    - apply shr_fexp_carry.
    - pose proof (shr_fexp_small m1 loc_Exact e' ltac:(lia)). assumption. }
  destruct (shr_fexp prec emax m1 e' loc_Exact) as [mrs'' e'']. cbn [fst] in H2.
  destruct (shr_m mrs'') as [|m|m]; cbn [bounded_float]; auto.
  destruct (Z.leb_spec e'' (emax - prec)); cbn [bounded_float]; auto.
  unfold emax, prec in *. lia.
Qed.

Lemma binary_normalize_bounded (m e : Z) (sz : bool) :
  bounded_float (binary_normalize prec emax m e sz).
Proof.
  destruct m as [|p|p]; cbn [binary_normalize bounded_float]; auto;
    unfold binary_round;
    destruct (shl_align _ _ _) as [mz ez];
    apply binary_round_aux_bounded; lia.
Qed.

Lemma of_Z_bounded (z : Z) : bounded_float (of_Z z).
Proof. apply binary_normalize_bounded. Qed.

Lemma fadd_bounded (x y : float) :
  bounded_float x -> bounded_float y -> bounded_float (fadd x y).
Proof.
  intros Hx Hy. unfold fadd, SFadd.
  destruct x as [sx|sx| |sx mx ex], y as [sy|sy| |sy my ey];
    try exact I; try assumption;
    try (destruct sx, sy; exact I).
  apply binary_normalize_bounded.
Qed.

Lemma fsub_bounded (x y : float) :
  bounded_float x -> bounded_float y -> bounded_float (fsub x y).
Proof.
  intros Hx Hy. unfold fsub, SFsub.
  destruct x as [sx|sx| |sx mx ex], y as [sy|sy| |sy my ey];
    try exact I; try assumption;
    try (destruct sx, sy; exact I).
  apply binary_normalize_bounded.
Qed.

Lemma fmul_bounded (x y : float) : bounded_float (fmul x y).
Proof.
  unfold fmul, SFmul.
  destruct x as [sx|sx| |sx mx ex], y as [sy|sy| |sy my ey]; try exact I.
  apply binary_round_aux_bounded. lia.
Qed.

Lemma fdiv_bounded (x y : float) : bounded_float (fdiv x y).
Proof.
  unfold fdiv, SFdiv.
  destruct x as [sx|sx| |sx mx ex], y as [sy|sy| |sy my ey]; try exact I.
  unfold SFdiv_core_binary.
  set (m' := match _ with Z.pos _ => _ | _ => _ end).
  assert (Hm' : 0 <= m').
  { subst m'. destruct (_ - _ - _) as [|p|p]; try lia.
    rewrite Z.shiftl_mul_pow2 by lia. pose proof (pow2_pos (Z.pos p) ltac:(lia)). lia. }
  rewrite div_eucl_div_mod.
  apply binary_round_aux_bounded. apply Z.div_pos; lia.
Qed.

(** An integer [m * 2^e] with [m < 2^53] and [e <= 971] is a binary64. *)
Lemma py_float_of_scaled (s : bool) (m : positive) (e : Z) :
  Z.pos m < 2 ^ 53 -> 0 <= e <= 971 ->
  exists f, py_float (cond_Zopp s (Z.pos m * 2 ^ e)) = Ok f.
Proof.
  intros Hm He. pose proof (pow2_pos e ltac:(lia)) as Hp.
  destruct (normal_form m Hm) as (c & j & Hc & Hj & Hcj).
  assert (HM : exists M, Z.pos m * 2 ^ e = Z.pos M).
  { exists (Z.to_pos (Z.pos m * 2 ^ e)). rewrite Z2Pos.id; nia. }
  destruct HM as [M HM]. rewrite HM.
  assert (Hr : binary_round prec emax s M 0 = S754_finite s c (e + j)).
  { apply binary_round_exact; try lia.
    - intros Hk. rewrite <- HM, Hcj.
      rewrite <- Z.mul_assoc, <- Z.pow_add_r by lia. do 2 f_equal. lia.
    - intros Hk. rewrite <- HM, Hcj.
      rewrite <- Z.mul_assoc, <- Z.pow_add_r by lia. do 2 f_equal. lia. }
  unfold py_float, of_Z.
  destruct s; cbn [cond_Zopp Z.opp binary_normalize]; rewrite Hr; eauto.
Qed.

(** The integer [round] returns for a bounded float converts back. *)
Lemma py_round_convertible (f : float) (z : Z) :
  bounded_float f -> py_round f = Ok z -> exists f', py_float z = Ok f'.
Proof.
  intros Hb Hr. destruct f as [s|s| |s m e]; cbn [py_round] in Hr;
    try discriminate.
  - injection Hr as <-. eexists. reflexivity.
  - injection Hr as <-. destruct Hb as [Hm He].
    destruct (Z.leb_spec 0 e) as [H0 | H0].
    + apply py_float_of_scaled; lia.
    + apply py_float_below_2_1023.
      pose proof (pow2_pos (- e) ltac:(lia)) as Hp.
      pose proof (Z.div_pos (Z.pos m) (2 ^ (- e)) ltac:(lia) Hp).
      assert (Z.pos m / 2 ^ (- e) <= Z.pos m)
        by (apply Z.div_le_upper_bound; nia).
      assert (2 ^ 54 < 2 ^ 1023) by (apply Z.pow_lt_mono_r; lia).
      assert (2 ^ 54 = 2 * 2 ^ 53) by reflexivity.
      destruct (round_div_cases (Z.pos m) (2 ^ (- e)) Hp) as [[-> _] | [-> _]];
        destruct s; cbn [cond_Zopp]; lia.
Qed.

(** Whatever [calculate] stores, [float] converts: the scores of a game
    never overflow. *)
Lemma calculate_score_convertible (p p' : Player) (op : Operation) (V : Z)
    (b : bool) :
  calculate p op V = Ok (p', b) -> exists f, py_float (score p') = Ok f.
Proof.
  unfold calculate. intros H.
  destruct (py_float (score p)) as [res|] eqn:Hres; cbn [bind] in H;
    [|discriminate].
  assert (Hbres : bounded_float res).
  { unfold py_float in Hres. pose proof (of_Z_bounded (score p)) as Hb.
    destruct (of_Z (score p)); try discriminate; injection Hres as <-; exact Hb. }
  assert (Hconv : forall raw,
             bounded_float raw ->
             (s <- py_round (if flt raw fzero then fzero else raw) ;;
              Ok (mkPlayer (pl_rect p) s (figure_x p),
                  has_fraction (if flt raw fzero then fzero else raw)))
             = Ok (p', b) ->
             exists f, py_float (score p') = Ok f).
  { intros raw Hraw Hs.
    destruct (py_round (if flt raw fzero then fzero else raw)) as [z|] eqn:Hz;
      cbn [bind] in Hs; [|discriminate].
    injection Hs as <- _. cbn [score].
    apply (py_round_convertible _ z) in Hz; [exact Hz|].
    destruct (flt raw fzero); [exact I | exact Hraw]. }
  assert (Hv : forall v, py_float V = Ok v -> bounded_float v).
  { intros v Hv. unfold py_float in Hv. pose proof (of_Z_bounded V) as Hb.
    destruct (of_Z V); try discriminate; injection Hv as <-; exact Hb. }
  destruct op.
  - destruct (py_float V) as [v|] eqn:HV; cbn [bind] in H; [|discriminate].
    apply (Hconv (fadd res v)); [apply fadd_bounded; auto | exact H].
  - destruct (py_float V) as [v|] eqn:HV; cbn [bind] in H; [|discriminate].
    apply (Hconv (fsub res v)); [apply fsub_bounded; auto | exact H].
  - destruct (py_float V) as [v|] eqn:HV; cbn [bind] in H; [|discriminate].
    apply (Hconv (fmul res v)); [apply fmul_bounded | exact H].
  - destruct (V =? 0).
    + cbn [bind] in H. injection H as <- _. eauto.
    + destruct (py_float V) as [v|] eqn:HV; cbn [bind] in H; [|discriminate].
      apply (Hconv (fdiv res v)); [apply fdiv_bounded | exact H].
Qed.

End Scores.

(** ** What the frames keep *)

Section Invariant.

Lemma game_score_convertible (S : Z) :
  game_score S -> exists f, py_float S = Ok f.
Proof.
  intros [|p p' op V b _ Hc].
  - eexists. reflexivity.
  - exact (calculate_score_convertible p p' op V b Hc).
Qed.

Lemma calculate_pl_rect (p p' : Player) (op : Operation) (V : Z) (b : bool) :
  calculate p op V = Ok (p', b) -> pl_rect p' = pl_rect p.
Proof.
  unfold calculate. intros H.
  destruct (py_float (score p)) as [res|]; cbn [bind] in H; [|discriminate].
  destruct (match op with ADD => _ | _ => _ end) as [[raw|]|];
    cbn [bind] in H; try discriminate.
  - destruct (py_round _); cbn [bind] in H; [|discriminate].
    injection H as <- _. reflexivity.
  - injection H as <- _. reflexivity.
Qed.

Lemma for_each_inv {A : Type} (I : Game -> Prop) (P : A -> Prop)
    (body : Game -> A -> result Game) :
  (forall g a g', P a -> I g -> body g a = Ok g' -> I g') ->
  forall (l : list A) (g g' : Game),
    Forall P l -> I g -> for_each body l g = Ok g' -> I g'.
Proof.
  intros Hbody l. induction l as [|a l IH]; intros g g' Hl Hg H.
  - injection H as <-. exact Hg.
  - cbn [for_each] in H. destruct (body g a) as [g1|] eqn:Hb;
      cbn [bind] in H; [|discriminate].
    inversion Hl as [|? ? Ha Hl']; subst.
    exact (IH g1 g' Hl' (Hbody g a g1 Ha Hg Hb) H).
Qed.

Lemma remove_cloud_Forall (P : Cloud -> Prop) (id : nat) (l l' : list Cloud) :
  Forall P l -> remove_cloud id l = Ok l' -> Forall P l'.
Proof.
  revert l'. induction l as [|c l IH]; intros l' Hl H; cbn [remove_cloud] in H.
  - discriminate.
  - inversion Hl as [|? ? Hc Hl']; subst.
    destruct (Nat.eqb (cl_id c) id).
    + injection H as <-. exact Hl'.
    + destruct (remove_cloud id l) as [l''|]; cbn [bind] in H; [|discriminate].
      injection H as <-. constructor; auto.
Qed.

Lemma store_cloud_Forall (P : Cloud -> Prop) (c' : Cloud) (l : list Cloud) :
  P c' -> Forall P l -> Forall P (store_cloud c' l).
Proof.
  intros Hc Hl. unfold store_cloud. induction Hl as [|c l Hc0 Hl IH];
    cbn [map]; constructor; auto.
  destruct (Nat.eqb (cl_id c) (cl_id c')); assumption.
Qed.

Lemma store_cloud_In (c c' : Cloud) (l : list Cloud) :
  cl_id c' = cl_id c -> In c l -> In c' (store_cloud c' l).
Proof.
  intros Hid Hin. unfold store_cloud.
  apply in_map_iff. exists c. rewrite Hid, Nat.eqb_refl. auto.
Qed.

Lemma movement_inv (env : Env) (g : Game) :
  game_inv g -> game_inv (movement env g).
Proof.
  intros Hg.
  assert (Hmove : forall g0 dy, game_inv g0 -> game_inv (move_y g0 dy))
    by (intros g0 dy Hg0; exact Hg0).
  unfold movement.
  destruct (0 <? timer_inverted g);
    repeat match goal with
           | |- context [if ?b then _ else _] => destruct b
           end; auto.
Qed.

Lemma calculate_speeds_inv (g : Game) :
  game_inv g -> game_inv (snd (calculate_speeds g)).
Proof.
  intros Hg. unfold calculate_speeds.
  repeat match goal with
         | |- context [if ?b then _ else _] => destruct b
         end; exact Hg.
Qed.

Lemma spawn_cloud_wall_inv (env : Env) (x : Z) (g : Game) :
  game_inv g -> game_inv (spawn_cloud_wall env x g).
Proof.
  intros (Hs & Hx & Hw & Hc). unfold spawn_cloud_wall.
  cbn [fold_left spawn_cloud_lane set_next_id set_clouds clouds player].
  repeat split; auto.
  repeat (apply Forall_app; split); auto; repeat constructor.
Qed.

Lemma spawners_inv (env : Env) (freq : Z) (g : Game) :
  game_inv g -> game_inv (spawners env freq g).
Proof.
  intros Hg. unfold spawners, spawn_powerups_tick, spawn_clouds_tick.
  set (g1 := if freq <? _ then _ else _).
  assert (H1 : game_inv g1).
  { subst g1. destruct (freq <? _); [|exact Hg].
    exact (spawn_cloud_wall_inv env 0 _ Hg). }
  destruct (POWERUP_FREQUENCY <? _); exact H1.
Qed.

Lemma process_powerup_inv (speed : float) (g g' : Game) (pu : PowerUp) :
  game_inv g -> process_powerup speed g pu = Ok g' -> game_inv g'.
Proof.
  intros Hg H. unfold process_powerup in H.
  destruct (PowerUp_move pu speed) as [pu'|]; cbn [bind] in H; [|discriminate].
  unfold resolve_powerup in H.
  destruct (colliderect _ _).
  - destruct (remove_powerup _ _); cbn [bind] in H; [|discriminate].
    injection H as <-. destruct (pu_type pu'); exact Hg.
  - destruct (rect_right _ <? 0).
    + destruct (remove_powerup _ _); cbn [bind] in H; [|discriminate].
      injection H as <-. exact Hg.
    + injection H as <-. exact Hg.
Qed.

Lemma score_cloud_inv (g g' : Game) (cloud : Cloud) :
  game_inv g -> score_cloud g cloud = Ok g' -> game_inv g'.
Proof.
  intros (Hs & Hx & Hw & Hc) H. unfold score_cloud in H.
  destruct (calculate _ _ _) as [[p' b]|] eqn:Hcalc; cbn [bind] in H;
    [|discriminate].
  pose proof (calculate_pl_rect _ _ _ _ _ Hcalc) as Hrect.
  pose proof (game_score_calculate _ _ _ _ _ Hs Hcalc) as Hs'.
  set (g1 := if b && _ then _ else _) in H.
  assert (H1 : player g1 = p' /\ clouds g1 = clouds g)
    by (subst g1; destruct (b && _); split; reflexivity).
  destruct H1 as [Hp1 Hc1]. rewrite Hc1 in H.
  destruct (remove_cloud _ _) as [l|] eqn:Hrm; cbn [bind] in H; [|discriminate].
  pose proof (remove_cloud_Forall _ _ _ _ Hc Hrm) as Hl.
  injection H as <-.
  assert (Hfin : game_inv (set_clouds g1 l)).
  { unfold game_inv. cbn [set_clouds player clouds]. rewrite Hp1, Hrect.
    repeat split; auto. }
  match goal with
  | |- game_inv (if ?c then _ else _) => destruct c
  end; exact Hfin.
Qed.

Lemma resolve_cloud_inv (g g' : Game) (cloud : Cloud) :
  game_inv g -> resolve_cloud g cloud = Ok g' -> game_inv g'.
Proof.
  intros Hg H. unfold resolve_cloud in H.
  destruct (cloud_collision g cloud) as [g1|] eqn:Hcol; cbn [bind] in H;
    [|discriminate].
  assert (H1 : game_inv g1).
  { unfold cloud_collision in Hcol. destruct (colliderect _ _).
    - destruct (0 <? timer_ghost_mode g).
      + injection Hcol as <-. exact Hg.
      + exact (score_cloud_inv _ _ _ Hg Hcol).
    - injection Hcol as <-. exact Hg. }
  unfold cloud_offscreen in H. destruct (rect_right _ <? 0).
  - destruct (remove_cloud _ _) as [l|] eqn:Hrm; cbn [bind] in H; [|discriminate].
    injection H as <-. destruct H1 as (Hs & Hx & Hw & Hc).
    repeat split; auto. exact (remove_cloud_Forall _ _ _ _ Hc Hrm).
  - injection H as <-. exact H1.
Qed.

Lemma process_cloud_inv (env : Env) (speed : float) (g g' : Game)
    (cloud : Cloud) :
  rw (cl_rect cloud) = 180 ->
  game_inv g -> process_cloud env speed g cloud = Ok g' -> game_inv g'.
Proof.
  intros Hw180 Hg H. unfold process_cloud in H.
  destruct (Cloud_move _ _ _) as [c'|] eqn:Hmv; cbn [bind] in H; [|discriminate].
  assert (Hc' : rw (cl_rect c') = 180).
  { unfold Cloud_move, scroll in Hmv.
    destruct (rect_coordinate _); cbn [bind] in Hmv; [|discriminate].
    injection Hmv as <-. exact Hw180. }
  refine (resolve_cloud_inv _ _ _ _ H).
  destruct Hg as (Hs & Hx & Hw & Hc). repeat split; auto.
  cbn [set_clouds clouds]. apply store_cloud_Forall; assumption.
Qed.

Lemma playing_frame_inv (env : Env) (g g' : Game) :
  game_inv g -> playing_frame env g = Ok g' -> game_inv g'.
Proof.
  intros Hg H. unfold playing_frame in H.
  pose proof (calculate_speeds_inv _ (movement_inv env g Hg)) as H1.
  destruct (calculate_speeds (movement env g)) as [[speed freq] g1].
  cbn [snd] in H1. apply (spawners_inv env freq) in H1.
  unfold collisions in H.
  destruct (for_each (process_powerup speed) _ _) as [g2|] eqn:Hpu;
    cbn [bind] in H; [|discriminate].
  assert (H2 : game_inv g2).
  { apply (for_each_inv game_inv (fun _ => True) (process_powerup speed)
             (fun g0 a g0' _ Hi Hb => process_powerup_inv speed g0 g0' a Hi Hb)
             _ _ _ ltac:(apply Forall_forall; auto) H1 Hpu). }
  apply (for_each_inv game_inv (fun c => rw (cl_rect c) = 180)
           (process_cloud env speed)
           (fun g0 a g0' Ha Hi Hb => process_cloud_inv env speed g0 g0' a Ha Hi Hb)
           _ _ _ ltac:(apply H2) H2 H).
Qed.

Lemma game_inv_ext (g g' : Game) :
  player g' = player g -> clouds g' = clouds g -> game_inv g -> game_inv g'.
Proof. unfold game_inv. intros -> ->. auto. Qed.

(** [game_inv] reads the player and the clouds only. *)
Lemma game_inv_timers (g : Game) (v1 v2 v3 v4 v5 v6 v7 : Z) (d : float) :
  game_inv g ->
  game_inv
    (set_lander_y
       (set_timer_rapid_fire
          (set_timer_inverted
             (set_timer_ghost_mode
                (set_timer_slow_motion
                   (set_current_difficulty_speed
                      (set_timer_spawn_powerup
                         (set_timer_spawn_cloud g v1) v2) d) v3) v4) v5) v6)
       v7).
Proof. intros H. exact H. Qed.

Lemma reset_game_inv (env : Env) (g : Game) : game_inv (reset_game env g).
Proof.
  unfold reset_game. cbv zeta. apply game_inv_timers.
  apply spawn_cloud_wall_inv. unfold game_inv.
  cbn [player set_target set_powerups set_clouds set_player set_state
       clouds score new_Player pl_rect rx rw].
  repeat split; try lia; constructor.
Qed.

Lemma process_events_inv (env : Env) (evs : list Event) (g g' : Game) :
  game_inv g -> process_events env evs g = Ok g' -> game_inv g'.
Proof.
  revert g. induction evs as [|ev evs IH]; intros g Hg H; cbn [process_events] in H.
  - injection H as <-. exact Hg.
  - destruct (handle_event env g ev) as [g1|] eqn:He; cbn [bind] in H;
      [|discriminate].
    apply (IH g1); [|exact H].
    destruct ev; cbn [handle_event] in He; try discriminate.
    + destruct (state g); injection He as <-; auto using reset_game_inv.
    + injection He as <-. exact Hg.
Qed.

Lemma frame_inv (env : Env) (g g' : Game) :
  game_inv g -> frame env g = Ok g' -> game_inv g'.
Proof.
  intros Hg H. unfold frame in H.
  destruct (process_events env (events env) g) as [g1|] eqn:He;
    cbn [bind] in H; [|discriminate].
  pose proof (process_events_inv _ _ _ _ Hg He) as H1.
  destruct (state g1).
  - exact (playing_frame_inv env g1 g' H1 H).
  - injection H as <-. destruct H1 as (Hs & Hx & Hw & Hc).
    unfold transition_frame.
    destruct (WIDTH <? _); unfold game_inv; cbn; repeat split; auto; lia.
  - injection H as <-. unfold animate_landing_scene, animate_stick_figure.
    destruct (lander_y g1 <? _); [exact H1|].
    cbn [player set_lander_y]. destruct (figure_x (player g1) <? _); exact H1.
  - injection H as <-. exact H1.
Qed.

Lemma reachable_inv (g : Game) : reachable g -> game_inv g.
Proof.
  induction 1 as [env | env g g' _ IH Hf].
  - unfold init_game. exact (reset_game_inv env blank_game).
  - exact (frame_inv env g g' IH Hf).
Qed.

Lemma game_inv_on_field (g : Game) (cloud : Cloud) :
  game_inv g -> In cloud (clouds g) -> on_field g cloud.
Proof.
  intros (_ & Hx & Hw & Hc) Hin. rewrite Forall_forall in Hc.
  specialize (Hc cloud Hin). unfold on_field. lia.
Qed.

End Invariant.

(** ** Ties

    A clamped raw result halfway between two integers can only come from a
    division; on the scores a game holds that division is exact. *)

Section Ties.

Lemma round_div_nonneg (n d : Z) : 0 <= n -> 0 < d -> 0 <= round_div n d.
Proof.
  intros Hn Hd. unfold round_div.
  pose proof (Z.div_pos n d Hn Hd).
  destruct (2 * (n mod d) ?= d); [destruct (Z.even _)| |]; lia.
Qed.

Lemma calculate_score_nonneg (p p' : Player) (op : Operation) (V : Z)
    (b : bool) :
  0 <= score p -> calculate p op V = Ok (p', b) -> 0 <= score p'.
Proof.
  intros Hs. unfold calculate.
  destruct (py_float (score p)) as [res|e0]; cbn [bind]; [|discriminate].
  assert (Hround : forall r,
            (s <- py_round (if flt r fzero then fzero else r) ;;
             Ok (mkPlayer (pl_rect p) s (figure_x p),
                 has_fraction (if flt r fzero then fzero else r)))
            = Ok (p', b) -> 0 <= score p').
  { intros r. destruct (flt r fzero) eqn:Hlt; cbn [py_round fzero bind].
    - intros E; inversion E; subst. cbn. lia.
    - destruct r as [s|s| |s m e]; cbn [py_round bind]; try discriminate.
      + intros E; inversion E; subst; cbn [score]; lia.
      + destruct s; [discriminate Hlt|].
        assert (Hz : 0 <= (if 0 <=? e then Z.pos m * 2 ^ e
                           else round_div (Z.pos m) (2 ^ (- e)))).
        { destruct (Z.leb_spec 0 e) as [He|He].
          - apply Z.mul_nonneg_nonneg; [lia|].
            pose proof (pow2_pos e He). lia.
          - apply round_div_nonneg; [lia|apply pow2_pos; lia]. }
        intros E. injection E as E1 E2. subst p'. exact Hz. }
  destruct op.
  1-3: destruct (py_float V) as [v|e0]; cbn [bind]; [|discriminate]; apply Hround.
  destruct (V =? 0); cbn [bind]; [intros E; inversion E; subst; exact Hs|].
  destruct (py_float V) as [v|e0]; cbn [bind]; [|discriminate]; apply Hround.
Qed.

Lemma game_score_nonneg (S : Z) : game_score S -> 0 <= S.
Proof.
  intros H. induction H as [|p p' op V b _ IH Hc]; [lia|].
  exact (calculate_score_nonneg _ _ _ _ _ IH Hc).
Qed.

Lemma py_round_representable (f : float) (z : Z) :
  bounded_float f -> py_round f = Ok z -> representable z.
Proof.
  intros Hb Hr. destruct f as [s|s| |s m e]; cbn [py_round] in Hr;
    try discriminate.
  - injection Hr as <-. exists 0, 0. cbn. lia.
  - injection Hr as <-. destruct Hb as [Hm He].
    destruct (Z.leb_spec 0 e) as [H0 | H0].
    + exists (Z.pos m), e. pose proof (pow2_pos e H0).
      split; [lia|]. split; [lia|].
      destruct s; cbn [cond_Zopp]; rewrite ?Z.abs_opp; apply Z.abs_eq; nia.
    + pose proof (pow2_pos (- e) ltac:(lia)) as Hp.
      pose proof (Z.div_pos (Z.pos m) (2 ^ (- e)) ltac:(lia) Hp).
      assert (2 <= 2 ^ (- e)).
      { change 2 with (2 ^ 1) at 1. apply Z.pow_le_mono_r; lia. }
      assert (Z.pos m / 2 ^ (- e) <= Z.pos m / 2).
      { apply Z.div_le_compat_l; lia. }
      assert (Z.pos m / 2 < 2 ^ 52).
      { apply Z.div_lt_upper_bound; [lia|].
        change (2 * 2 ^ 52) with (2 ^ 53). lia. }
      assert (2 ^ 53 = 2 * 2 ^ 52) by reflexivity.
      exists (round_div (Z.pos m) (2 ^ (- e))), 0.
      rewrite Z.mul_1_r.
      destruct (round_div_cases (Z.pos m) (2 ^ (- e)) Hp) as [[-> _] | [-> _]];
        destruct s; cbn [cond_Zopp]; lia.
Qed.

Lemma calculate_score_representable (p p' : Player) (op : Operation) (V : Z)
    (b : bool) :
  representable (score p) -> calculate p op V = Ok (p', b) ->
  representable (score p').
Proof.
  unfold calculate. intros Hp H.
  destruct (py_float (score p)) as [res|] eqn:Hres; cbn [bind] in H;
    [|discriminate].
  assert (Hbres : bounded_float res).
  { unfold py_float in Hres. pose proof (of_Z_bounded (score p)) as Hb.
    destruct (of_Z (score p)); try discriminate; injection Hres as <-; exact Hb. }
  assert (Hconv : forall raw,
             bounded_float raw ->
             (s <- py_round (if flt raw fzero then fzero else raw) ;;
              Ok (mkPlayer (pl_rect p) s (figure_x p),
                  has_fraction (if flt raw fzero then fzero else raw)))
             = Ok (p', b) ->
             representable (score p')).
  { intros raw Hraw Hs.
    destruct (py_round (if flt raw fzero then fzero else raw)) as [z|] eqn:Hz;
      cbn [bind] in Hs; [|discriminate].
    injection Hs as <- _. cbn [score].
    apply (py_round_representable _ z) in Hz; [exact Hz|].
    destruct (flt raw fzero); [exact I | exact Hraw]. }
  destruct op.
  - destruct (py_float V) as [v|] eqn:HV; cbn [bind] in H; [|discriminate].
    apply (Hconv (fadd res v)); [|exact H].
    apply fadd_bounded; [exact Hbres|].
    unfold py_float in HV. pose proof (of_Z_bounded V) as Hb.
    destruct (of_Z V); try discriminate; injection HV as <-; exact Hb.
  - destruct (py_float V) as [v|] eqn:HV; cbn [bind] in H; [|discriminate].
    apply (Hconv (fsub res v)); [|exact H].
    apply fsub_bounded; [exact Hbres|].
    unfold py_float in HV. pose proof (of_Z_bounded V) as Hb.
    destruct (of_Z V); try discriminate; injection HV as <-; exact Hb.
  - destruct (py_float V) as [v|] eqn:HV; cbn [bind] in H; [|discriminate].
    apply (Hconv (fmul res v)); [apply fmul_bounded | exact H].
  - destruct (V =? 0).
    + cbn [bind] in H. injection H as <- _. exact Hp.
    + destruct (py_float V) as [v|] eqn:HV; cbn [bind] in H; [|discriminate].
      apply (Hconv (fdiv res v)); [apply fdiv_bounded | exact H].
Qed.

Lemma game_score_representable (S : Z) : game_score S -> representable S.
Proof.
  intros H. induction H as [|p p' op V b _ IH Hc].
  - exists 0, 0. cbn. lia.
  - exact (calculate_score_representable p p' op V b IH Hc).
Qed.

(** [float] of an integer [m * 2^e] whose normal form fits. *)
Lemma of_Z_scaled (m c : positive) (e j : Z) :
  Z.pos (digits2_pos c) = 53 -> -52 <= j <= 0 ->
  Z.pos c = Z.pos m * 2 ^ (- j) -> 0 <= e -> e + j <= 971 ->
  of_Z (Z.pos m * 2 ^ e) = S754_finite false c (e + j).
Proof.
  intros Hc Hj Hcj He Hej. pose proof (pow2_pos e He) as Hp.
  assert (HM : exists M, Z.pos m * 2 ^ e = Z.pos M).
  { exists (Z.to_pos (Z.pos m * 2 ^ e)). rewrite Z2Pos.id; nia. }
  destruct HM as [M HM]. rewrite HM.
  unfold of_Z. cbn [binary_normalize].
  apply binary_round_exact; try lia.
  - intros Hk. rewrite <- HM, Hcj.
    rewrite <- Z.mul_assoc, <- Z.pow_add_r by lia. do 2 f_equal. lia.
  - intros Hk. rewrite <- HM, Hcj.
    rewrite <- Z.mul_assoc, <- Z.pow_add_r by lia. do 2 f_equal. lia.
Qed.

Lemma odd_divide_double (n x : Z) : (2 * n + 1 | 2 * x) -> (2 * n + 1 | x).
Proof.
  intros [q Hq].
  destruct (Z.Even_or_Odd q) as [[r ->]|[r ->]]; [exists r; lia|exfalso; lia].
Qed.

Lemma odd_divide_pow2 (n x k : Z) :
  0 <= k -> (2 * n + 1 | x * 2 ^ k) -> (2 * n + 1 | x).
Proof.
  intros Hk. revert x. pattern k. apply natlike_ind; [| |exact Hk].
  - intros x. rewrite Z.mul_1_r. auto.
  - intros k' Hk' IH x H. apply IH. apply odd_divide_double.
    rewrite Z.pow_succ_r in H by exact Hk'.
    replace (2 * (x * 2 ^ k')) with (x * (2 * 2 ^ k')) by ring. exact H.
Qed.

Lemma new_location_exact (D : Z) : new_location D 0 = loc_Exact.
Proof.
  unfold new_location, new_location_even, new_location_odd.
  destruct (Z.even D); reflexivity.
Qed.

(** The quotient of two floats with 53-digit mantissas whose exact value is
    an odd number of halves. *)
Lemma fdiv_half (cS cV : positive) (kS kV n t : Z) :
  Z.pos (digits2_pos cS) = 53 -> Z.pos (digits2_pos cV) = 53 ->
  0 <= n -> 1 <= t <= 105 -> kS - kV - 53 = - t - 1 ->
  Z.pos cS * 2 ^ 53 = (2 * n + 1) * 2 ^ t * Z.pos cV ->
  exists (c : positive) (h : Z),
    fdiv (S754_finite false cS kS) (S754_finite false cV kV)
    = S754_finite false c (- h - 1)
    /\ 0 <= h /\ Z.pos c = (2 * n + 1) * 2 ^ h.
Proof.
  intros HdS HdV Hn Ht Hk Hq.
  pose proof (digits2_bounds cS) as BS. rewrite HdS in BS. simpl (53 - 1) in BS.
  pose proof (digits2_bounds cV) as BV. rewrite HdV in BV. simpl (53 - 1) in BV.
  pose proof (pow2_pos t ltac:(lia)) as Hpt.
  unfold fdiv, SFdiv, SFdiv_core_binary. cbn [Zdigits2 xorb].
  rewrite HdS, HdV.
  replace (53 + kS - (53 + kV)) with (kS - kV) by lia.
  rewrite fexp_normal by lia.
  replace (Z.min (kS - kV - 53) (kS - kV)) with (kS - kV - 53) by lia.
  replace (kS - kV - (kS - kV - 53)) with 53 by lia.
  rewrite Z.shiftl_mul_pow2 by lia.
  rewrite div_eucl_div_mod.
  set (Q := (2 * n + 1) * 2 ^ t) in *.
  assert (Hdiv : Z.pos cS * 2 ^ 53 / Z.pos cV = Q)
    by (rewrite Hq; apply Z.div_mul; lia).
  assert (Hmod : (Z.pos cS * 2 ^ 53) mod Z.pos cV = 0)
    by (rewrite Hq; apply Z.mod_mul; lia).
  rewrite Hdiv, Hmod, new_location_exact, Hk.
  assert (H53 : 2 ^ 53 = 2 * 2 ^ 52) by reflexivity.
  assert (H54 : 2 ^ 54 = 4 * 2 ^ 52) by reflexivity.
  assert (HQ : 2 ^ 52 < Q < 2 ^ 54) by nia.
  assert (Ht1 : 2 ^ t = 2 * 2 ^ (t - 1)).
  { replace t with (1 + (t - 1)) at 1 by lia.
    rewrite Z.pow_add_r by lia. reflexivity. }
  pose proof (pow2_pos (t - 1) ltac:(lia)) as Hpt1.
  destruct (Z.lt_ge_cases Q (2 ^ 53)) as [Hlo|Hhi].
  - exists (Z.to_pos Q), t.
    assert (HQp : Z.pos (Z.to_pos Q) = Q) by (apply Z2Pos.id; lia).
    split; [|split; [lia|exact HQp]].
    rewrite <- HQp at 1.
    replace (- t - 1) with (- t - 1 + 0) at 2 by lia.
    apply binary_round_aux_exact; try lia.
    apply digits2_unique. rewrite HQp. simpl (53 - 1). lia.
  - exists (Z.to_pos ((2 * n + 1) * 2 ^ (t - 1))), (t - 1).
    assert (HQ2 : Q = (2 * n + 1) * 2 ^ (t - 1) * 2) by (unfold Q; lia).
    assert (Hcp : Z.pos (Z.to_pos ((2 * n + 1) * 2 ^ (t - 1)))
                  = (2 * n + 1) * 2 ^ (t - 1)) by (apply Z2Pos.id; nia).
    split; [|split; [lia|exact Hcp]].
    assert (HQp : Z.pos (Z.to_pos Q) = Q) by (apply Z2Pos.id; lia).
    rewrite <- HQp.
    replace (- (t - 1) - 1) with (- t - 1 + 1) by lia.
    apply binary_round_aux_exact; try lia.
    apply digits2_unique. rewrite Hcp. simpl (53 - 1). lia.
Qed.

(** [round] and [% 1] of an odd number of halves. *)
Lemma py_round_half (c : positive) (h n : Z) :
  0 <= h -> Z.pos c = (2 * n + 1) * 2 ^ h ->
  py_round (S754_finite false c (- h - 1))
  = Ok (if Z.even n then n else n + 1)
  /\ has_fraction (S754_finite false c (- h - 1)) = true.
Proof.
  intros Hh Hc. pose proof (pow2_pos h Hh) as Hp.
  destruct (py_round_scaled false c (- h - 1) (h + 1) (Z.pos c))
    as [Hr Hf]; try lia.
  { replace (h + 1 + (- h - 1)) with 0 by lia. lia. }
  rewrite Hr, Hf. cbn [cond_Zopp].
  replace (2 ^ (h + 1)) with (2 * 2 ^ h)
    by (rewrite Z.pow_add_r by lia; change (2 ^ 1) with 2; lia).
  rewrite Hc. rewrite round_div_scale, mod_scale_eq0 by lia.
  split.
  - f_equal. apply round_div_half; lia.
  - replace ((2 * n + 1) mod 2) with 1; [reflexivity|].
    apply Z.mod_unique with n; lia.
Qed.

(** A tie can only come from a division by a positive operand. *)
Lemma tie_is_division (S : Z) (op : Operation) (V n : Z) :
  0 <= S ->
  (clamp (raw_result S op V) == inject_Z n + (1 # 2))%Q ->
  op = DIVIDE /\ 0 < V /\ 2 * S = (2 * n + 1) * V.
Proof.
  intros HS Hhalf.
  assert (Hint : forall z, (clamp (raw_result S op V) == inject_Z z)%Q -> False).
  { intros z Hz. rewrite Hz in Hhalf. exact (half_not_integer _ _ Hhalf). }
  destruct op.
  - exfalso. apply (Hint (Z.max 0 (S + V))). rewrite raw_result_ADD. apply clamp_inject_Z.
  - exfalso. apply (Hint (Z.max 0 (S - V))). rewrite raw_result_SUBTRACT. apply clamp_inject_Z.
  - exfalso. apply (Hint (Z.max 0 (S * V))). rewrite raw_result_MULTIPLY. apply clamp_inject_Z.
  - destruct V as [|v|v].
    + exfalso. apply (Hint 0). apply clamp_nonpos.
      cbv [raw_result Qle Qdiv Qmult Qinv inject_Z Qnum Qden]. lia.
    + split; [reflexivity|]. split; [lia|]. apply Qmake_half.
      rewrite <- Hhalf. rewrite (clamp_compat _ _ (raw_result_DIVIDE_pos S v)).
      rewrite clamp_nonneg; [reflexivity|]. unfold Qle. cbn. lia.
    + exfalso. apply (Hint 0).
      apply (clamp_nonpos _ (raw_result_DIVIDE_neg S v HS)).
Qed.

(** Dividing a representable score by an operand that makes the quotient an
    odd number of halves is exact in binary64, and [round] takes the even
    neighbour. *)
Lemma calculate_tie (p : Player) (V n : Z) :
  representable (score p) -> 0 <= score p -> 0 < V -> V < 2 ^ 1024 ->
  2 * score p = (2 * n + 1) * V ->
  calculate p DIVIDE V
  = Ok (with_score p (if Z.even n then n else n + 1), true).
Proof.
  intros (m & e & Hm & He & HS) HS0 HV HVb Htie.
  rewrite Z.abs_eq in HS by exact HS0.
  pose proof (pow2_pos e ltac:(lia)) as Hpe.
  assert (Hn : 0 <= n) by nia.
  assert (Hmpos : 0 < m) by nia.
  (* the odd factor divides the mantissa *)
  assert (Hdvd : (2 * n + 1 | m)).
  { apply (odd_divide_pow2 n m (e + 1)); [lia|].
    exists V. rewrite Z.pow_add_r by lia. change (2 ^ 1) with 2. nia. }
  destruct Hdvd as [u Hu].
  assert (Hupos : 0 < u) by nia.
  assert (Hub : u < 2 ^ 53) by nia.
  assert (HVu : V = u * 2 ^ (e + 1)).
  { rewrite Z.pow_add_r by lia. change (2 ^ 1) with 2.
    apply (Z.mul_reg_l _ _ (2 * n + 1)); [lia|]. nia. }
  destruct (normal_form (Z.to_pos m)) as (cS & i & HdS & Hi & HcS);
    [rewrite Z2Pos.id; lia|].
  destruct (normal_form (Z.to_pos u)) as (cV & j & HdV & Hj & HcV);
    [rewrite Z2Pos.id; lia|].
  rewrite Z2Pos.id in HcS, HcV by lia.
  pose proof (digits2_bounds cS) as BS. rewrite HdS in BS. simpl (53 - 1) in BS.
  pose proof (digits2_bounds cV) as BV. rewrite HdV in BV. simpl (53 - 1) in BV.
  pose proof (pow2_pos (- i) ltac:(lia)) as Hpi.
  pose proof (pow2_pos (- j) ltac:(lia)) as Hpj.
  (* the exponent of the operand fits *)
  assert (HkV : e + 1 + j <= 971).
  { destruct (Z.le_gt_cases (e + 1 + j) 971) as [|Hgt]; [assumption|exfalso].
    assert (Hle : 2 ^ 972 <= 2 ^ (e + 1 + j)) by (apply Z.pow_le_mono_r; lia).
    assert (HVc : V * 2 ^ (- j) = Z.pos cV * 2 ^ (e + 1)).
    { rewrite HVu, HcV. ring. }
    assert (Hsplit : 2 ^ (e + 1) = 2 ^ (e + 1 + j) * 2 ^ (- j)).
    { rewrite <- Z.pow_add_r by lia. f_equal. lia. }
    assert (H1024 : 2 ^ 1024 = 2 ^ 52 * 2 ^ 972)
      by (rewrite <- Z.pow_add_r by lia; reflexivity).
    pose proof (pow2_pos (e + 1 + j) ltac:(lia)) as Hq.
    assert (V = Z.pos cV * 2 ^ (e + 1 + j)).
    { apply (Z.mul_reg_r _ _ (2 ^ (- j))); [lia|].
      rewrite HVc, Hsplit. ring. }
    nia. }
  assert (HfS : of_Z (score p) = S754_finite false cS (e + i)).
  { rewrite HS. rewrite <- (Z2Pos.id m) at 1 by lia.
    apply of_Z_scaled; try lia. rewrite Z2Pos.id by lia. exact HcS. }
  assert (HfV : of_Z V = S754_finite false cV (e + 1 + j)).
  { rewrite HVu. rewrite <- (Z2Pos.id u) at 1 by lia.
    apply of_Z_scaled; try lia. rewrite Z2Pos.id by lia. exact HcV. }
  destruct (fdiv_half cS cV (e + i) (e + 1 + j) n (53 - i + j))
    as (c & h & Hdiv & Hh & Hc); try lia.
  { rewrite HcS, HcV, Hu.
    assert (E : 2 ^ (- i) * 2 ^ 53 = 2 ^ (53 - i + j) * 2 ^ (- j)).
    { rewrite <- !Z.pow_add_r by lia. f_equal. lia. }
    rewrite <- !Z.mul_assoc, E. ring. }
  destruct (py_round_half c h n Hh Hc) as [Hr Hf].
  unfold calculate, py_float. rewrite HfS. cbn [bind].
  replace (V =? 0) with false by (symmetry; apply Z.eqb_neq; lia).
  rewrite HfV. cbn [bind]. rewrite Hdiv.
  change (flt (S754_finite false c (- h - 1)) fzero) with false.
  cbv iota. rewrite Hr, Hf. reflexivity.
Qed.

End Ties.

(** ** The claims about the arithmetic engine *)

(** C1 (amended).  For every score [0 <= S < 2^52] and operand
    [|V| < 2^52] (with [S * |V| < 2^53] for MULTIPLY and [V <> 0] for
    DIVIDE), [calculate] returns; the flag it returns is true iff the clamped
    raw result is not an integer, and the score it stores is a non-negative
    integer nearest to the clamped raw result. *)
Theorem calculate_exact_arithmetic (p : Player) (op : Operation) (V : Z) :
  in_exact_range (score p) op V -> calculate_meets_spec p op V.
Proof.
  intros Hr. pose proof Hr as (HS & _ & _ & Hdiv).
  exists (fst (exact_result (score p) op V)), (snd (exact_result (score p) op V)).
  split; [exact (calculate_exact p op V Hr)|].
  exact (exact_result_meets_spec (score p) op V (proj1 HS) Hdiv).
Qed.

Lemma calculate_exact_arithmetic_witness :
  in_exact_range (score (with_score new_Player 7)) DIVIDE 2
  /\ calculate_meets_spec (with_score new_Player 7) DIVIDE 2.
Proof.
  assert (H : in_exact_range (score (with_score new_Player 7))
                DIVIDE 2).
  { unfold in_exact_range. cbn [score]. repeat split; try lia; discriminate. }
  split; [exact H | exact (calculate_exact_arithmetic _ _ _ H)].
Defined.

(** C1 as stated fails beyond the 53 bits of a binary64 mantissa: from the
    score [2^53 + 1], ADD 1 stores [2^53], two away from the raw result. *)
Lemma calculate_large_score_inexact :
  ~ calculate_meets_spec (with_score new_Player (2 ^ 53 + 1)) ADD 1.
Proof.
  intros (s' & penalty & Hc & _ & Hn & _).
  vm_compute in Hc. injection Hc as Hs _. subst s'.
  cbn [score] in Hn. rewrite raw_result_ADD in Hn.
  apply (nearest_integer_compat _ _ _ (clamp_inject_Z _)) in Hn.
  unfold nearest_integer in Hn. vm_compute in Hn. apply Hn. reflexivity.
Qed.

(** C2.  For every score a game can hold, DIVIDE by 0 is a no-op: the
    player, and so the score, is returned as it is, with no penalty. *)
Theorem divide_by_zero_is_noop (p : Player) :
  game_score (score p) ->
  calculate p DIVIDE 0 = Ok (p, false).
Proof.
  intros Hs. destruct (game_score_convertible _ Hs) as [f Hf].
  unfold calculate. rewrite Hf. reflexivity.
Qed.

Lemma divide_by_zero_is_noop_witness :
  game_score (score (with_score new_Player 50))
  /\ calculate (with_score new_Player 50) DIVIDE 0
     = Ok (with_score new_Player 50, false).
Proof.
  assert (H : game_score (score (with_score new_Player 50))).
  { apply (game_score_calculate new_Player (with_score new_Player 50)
             ADD 50 false game_score_new).
    vm_compute. reflexivity. }
  split; [exact H | exact (divide_by_zero_is_noop _ H)].
Defined.

(** Outside the game the no-op can fail: a score too large for a binary64,
    which no game holds, makes [float(score)] raise before the operand is
    compared with zero. *)
Lemma divide_by_zero_overflow :
  ~ game_score (2 ^ 1024)
  /\ calculate (with_score new_Player (2 ^ 1024)) DIVIDE 0
     = Raise OverflowError.
Proof.
  split.
  - intros H. destruct (game_score_convertible _ H) as [f Hf].
    vm_compute in Hf. discriminate Hf.
  - vm_compute. reflexivity.
Qed.

(** C10.  The rounding of the final score is round-half-to-even: for every
    score a game can hold and every operand below [2^1024] in absolute value,
    a clamped raw result halfway between [n] and [n + 1] is stored as the
    even one of the two; 5 / 2 stores 2 and 7 / 2 stores 4. *)
Theorem calculate_rounds_half_to_even :
  (forall (p : Player) (op : Operation) (V : Z),
      game_score (score p) -> Z.abs V < 2 ^ 1024 -> ties_to_even p op V)
  /\ (forall r x, exists b,
         calculate (mkPlayer r 5 x) DIVIDE 2 = Ok (mkPlayer r 2 x, b))
  /\ (forall r x, exists b,
         calculate (mkPlayer r 7 x) DIVIDE 2 = Ok (mkPlayer r 4 x, b)).
Proof.
  split; [|split].
  - intros p op V Hs HV n Hhalf.
    pose proof (game_score_nonneg _ Hs) as H0.
    destruct (tie_is_division _ _ _ _ H0 Hhalf) as (-> & HVpos & Htie).
    exists true.
    apply calculate_tie; [apply game_score_representable; exact Hs| | | |];
      try assumption; lia.
  - intros r x. eexists. vm_compute. reflexivity.
  - intros r x. eexists. vm_compute. reflexivity.
Qed.

Lemma calculate_rounds_half_to_even_witness :
  game_score (score (with_score new_Player 5))
  /\ Z.abs 2 < 2 ^ 1024
  /\ ties_to_even (with_score new_Player 5) DIVIDE 2.
Proof.
  assert (H : game_score (score (with_score new_Player 5))).
  { apply (game_score_calculate new_Player (with_score new_Player 5)
             ADD 5 false game_score_new).
    vm_compute. reflexivity. }
  assert (HV : Z.abs 2 < 2 ^ 1024) by (vm_compute; reflexivity).
  split; [exact H|]. split; [exact HV|].
  exact (proj1 calculate_rounds_half_to_even _ _ _ H HV).
Defined.

(** Outside the game a tie can be lost before [round] sees it:
    [3 * 2^53 + 3] is no binary64, so no game holds it as a score, and
    [float] rounds it before the division by 6. *)
Lemma calculate_large_tie_to_odd :
  ~ game_score (3 * 2 ^ 53 + 3)
  /\ ~ ties_to_even (with_score new_Player (3 * 2 ^ 53 + 3)) DIVIDE 6.
Proof.
  split.
  - intros H. apply game_score_representable in H.
    destruct H as (m & e & Hm & He & E).
    change (Z.abs (3 * 2 ^ 53 + 3)) with 27021597764222979 in E.
    change (2 ^ 53) with 9007199254740992 in Hm.
    destruct (Z.eq_dec e 0) as [->|Hne].
    + rewrite Z.mul_1_r in E. lia.
    + replace e with (1 + (e - 1)) in E by lia.
      rewrite Z.pow_add_r in E by lia. change (2 ^ 1) with 2 in E. lia.
  - intros H. destruct (H (2 ^ 52)) as [penalty Hc].
    + cbn [score]. rewrite (clamp_compat _ _ (raw_result_DIVIDE_pos _ 6)).
      rewrite clamp_nonneg by (unfold Qle; cbn; lia).
      vm_compute. reflexivity.
    + vm_compute in Hc. discriminate Hc.
Qed.

(** ** Collisions, timers and spawners *)

Section Frame.

Lemma remove_cloud_In (c : Cloud) (l : list Cloud) :
  In c l -> exists l', remove_cloud (cl_id c) l = Ok l'.
Proof.
  induction l as [|a l IH]; intros Hin; [contradiction|].
  cbn [remove_cloud]. destruct (Nat.eqb (cl_id a) (cl_id c)) eqn:He; [eauto|].
  destruct Hin as [-> | Hin]; [rewrite Nat.eqb_refl in He; discriminate|].
  destruct (IH Hin) as [l' ->]. cbn [bind]. eauto.
Qed.

Lemma remove_powerup_In (pu : PowerUp) (l : list PowerUp) :
  In pu l -> exists l', remove_powerup (pu_id pu) l = Ok l'.
Proof.
  induction l as [|a l IH]; intros Hin; [contradiction|].
  cbn [remove_powerup]. destruct (Nat.eqb (pu_id a) (pu_id pu)) eqn:He; [eauto|].
  destruct Hin as [-> | Hin]; [rewrite Nat.eqb_refl in He; discriminate|].
  destruct (IH Hin) as [l' ->]. cbn [bind]. eauto.
Qed.

(** A cloud that overlaps a player on the field has not left the screen. *)
Lemma collision_on_screen (g : Game) (cloud : Cloud) :
  on_field g cloud ->
  colliderect (pl_rect (player g)) (cl_rect cloud) = true ->
  (rect_right (cl_rect cloud) <? 0) = false.
Proof.
  intros (Hx & Hw & Hc) Hcol. unfold colliderect in Hcol.
  destruct (_ || _) in Hcol; [discriminate|].
  apply andb_prop in Hcol as [Hcol _]. apply andb_prop in Hcol as [Hcol H3].
  apply Z.ltb_lt in H3. apply Z.ltb_ge. unfold rect_right. lia.
Qed.

(** A scored collision, step by step. *)
Lemma score_cloud_result (g : Game) (cloud : Cloud) (p' : Player)
    (penalty : bool) :
  In cloud (clouds g) ->
  calculate (player g) (cl_op cloud) (cl_val cloud) = Ok (p', penalty) ->
  exists g',
    score_cloud g cloud = Ok g'
    /\ player g' = p'
    /\ target g' = target g
    /\ current_difficulty_speed g'
       = (if penalty && (timer_rapid_fire g =? 0)
          then speed_up (current_difficulty_speed g)
          else current_difficulty_speed g)
    /\ state g' = (if score p' =? target g then TRANSITION_TO_LANDING
                   else state g).
Proof.
  intros Hin Hcalc. unfold score_cloud. rewrite Hcalc. cbn [bind].
  set (g1 := if penalty && (timer_rapid_fire (set_player g p') =? 0)
             then _ else _).
  assert (Hcl : clouds g1 = clouds g) by (subst g1; destruct (_ && _); reflexivity).
  destruct (remove_cloud_In cloud (clouds g) Hin) as [l' Hl'].
  rewrite Hcl, Hl'. cbn [bind]. eexists. split; [reflexivity|].
  assert (Hp : player g1 = p') by (subst g1; destruct (_ && _); reflexivity).
  assert (Ht : target g1 = target g) by (subst g1; destruct (_ && _); reflexivity).
  assert (Hs : state g1 = state g) by (subst g1; destruct (_ && _); reflexivity).
  assert (Hd : current_difficulty_speed g1
               = if penalty && (timer_rapid_fire g =? 0)
                 then speed_up (current_difficulty_speed g)
                 else current_difficulty_speed g).
  { subst g1. cbn [set_player timer_rapid_fire].
    destruct (penalty && (timer_rapid_fire g =? 0)); reflexivity. }
  cbn [set_clouds player target]. rewrite Hp, Ht.
  destruct (score p' =? target g); cbn; auto.
Qed.

(** C4.  In state PLAYING, a scored collision moves the state to
    TRANSITION_TO_LANDING iff the new score equals the target, and leaves it
    PLAYING otherwise; from score 0 with target 50, the clouds ADD 9 (five
    times) and ADD 5 give the scores 9, 18, 27, 36, 45 in state PLAYING and
    then 50 in state TRANSITION_TO_LANDING. *)
Theorem transition_iff_score_is_target :
  (forall (g : Game) (cloud : Cloud) (p' : Player) (penalty : bool),
      state g = PLAYING ->
      timer_ghost_mode g <= 0 ->
      colliderect (pl_rect (player g)) (cl_rect cloud) = true ->
      In cloud (clouds g) ->
      calculate (player g) (cl_op cloud) (cl_val cloud) = Ok (p', penalty) ->
      exists g',
        cloud_collision g cloud = Ok g'
        /\ player g' = p'
        /\ (state g' = TRANSITION_TO_LANDING <-> score p' = target g)
        /\ (score p' <> target g -> state g' = PLAYING))
  /\ score (player (game_with_clouds scenario_clouds)) = 0
  /\ target (game_with_clouds scenario_clouds) = 50
  /\ collision_trace (game_with_clouds scenario_clouds) scenario_clouds
     = [Ok (9, PLAYING); Ok (18, PLAYING); Ok (27, PLAYING);
        Ok (36, PLAYING); Ok (45, PLAYING);
        Ok (50, TRANSITION_TO_LANDING)].
Proof.
  split; [|repeat split; vm_compute; reflexivity].
  intros g cloud p' penalty Hst Hghost Hcol Hin Hcalc.
  destruct (score_cloud_result g cloud p' penalty Hin Hcalc)
    as (g' & Hsc & Hp & _ & _ & Hs).
  exists g'. unfold cloud_collision. rewrite Hcol.
  replace (0 <? timer_ghost_mode g) with false by (symmetry; apply Z.ltb_ge; lia).
  split; [exact Hsc|]. split; [exact Hp|].
  rewrite Hs, Hst. destruct (Z.eqb_spec (score p') (target g)); split.
  - tauto.
  - contradiction.
  - split; [discriminate | contradiction].
  - reflexivity.
Qed.

Lemma transition_iff_score_is_target_witness :
  state (game_over_cloud 45 (cloud_at_player 15 ADD 5)) = PLAYING
  /\ timer_ghost_mode (game_over_cloud 45 (cloud_at_player 15 ADD 5)) <= 0
  /\ colliderect
       (pl_rect (player (game_over_cloud 45 (cloud_at_player 15 ADD 5))))
       (cl_rect (cloud_at_player 15 ADD 5)) = true
  /\ In (cloud_at_player 15 ADD 5)
        (clouds (game_over_cloud 45 (cloud_at_player 15 ADD 5)))
  /\ calculate (player (game_over_cloud 45 (cloud_at_player 15 ADD 5)))
       (cl_op (cloud_at_player 15 ADD 5)) (cl_val (cloud_at_player 15 ADD 5))
     = Ok (with_score new_Player 50, false)
  /\ exists g',
       cloud_collision (game_over_cloud 45 (cloud_at_player 15 ADD 5))
         (cloud_at_player 15 ADD 5) = Ok g'
       /\ player g' = with_score new_Player 50
       /\ (state g' = TRANSITION_TO_LANDING
           <-> score (with_score new_Player 50)
               = target (game_over_cloud 45 (cloud_at_player 15 ADD 5)))
       /\ (score (with_score new_Player 50)
           <> target (game_over_cloud 45 (cloud_at_player 15 ADD 5))
           -> state g' = PLAYING).
Proof.
  assert (H1 : state (game_over_cloud 45 (cloud_at_player 15 ADD 5)) = PLAYING)
    by reflexivity.
  assert (H2 : timer_ghost_mode (game_over_cloud 45 (cloud_at_player 15 ADD 5))
               <= 0) by (vm_compute; discriminate).
  assert (H3 : colliderect
                 (pl_rect (player (game_over_cloud 45
                                     (cloud_at_player 15 ADD 5))))
                 (cl_rect (cloud_at_player 15 ADD 5)) = true) by reflexivity.
  assert (H4 : In (cloud_at_player 15 ADD 5)
                  (clouds (game_over_cloud 45 (cloud_at_player 15 ADD 5))))
    by (left; reflexivity).
  assert (H5 : calculate
                 (player (game_over_cloud 45 (cloud_at_player 15 ADD 5)))
                 (cl_op (cloud_at_player 15 ADD 5))
                 (cl_val (cloud_at_player 15 ADD 5))
               = Ok (with_score new_Player 50, false))
    by (vm_compute; reflexivity).
  repeat (split; [assumption|]).
  exact (proj1 transition_iff_score_is_target _ _ _ _ H1 H2 H3 H4 H5).
Defined.

(** C5.  A scored collision that raises the fractional-penalty flag while
    rapid-fire is inactive sets the difficulty speed to
    [min(D * 1.2, 18)], in binary64; while rapid-fire is active the speed
    stays [D]. *)
Theorem penalty_speeds_up (g : Game) (cloud : Cloud) (p' : Player) :
  state g = PLAYING ->
  timer_ghost_mode g <= 0 ->
  colliderect (pl_rect (player g)) (cl_rect cloud) = true ->
  In cloud (clouds g) ->
  calculate (player g) (cl_op cloud) (cl_val cloud) = Ok (p', true) ->
  exists g',
    cloud_collision g cloud = Ok g'
    /\ (timer_rapid_fire g = 0 ->
        current_difficulty_speed g'
        = py_min (fmul (current_difficulty_speed g) (literal 12 10)) (of_Z 18))
    /\ (0 < timer_rapid_fire g ->
        current_difficulty_speed g' = current_difficulty_speed g).
Proof.
  intros Hst Hghost Hcol Hin Hcalc.
  destruct (score_cloud_result g cloud p' true Hin Hcalc)
    as (g' & Hsc & _ & _ & Hd & _).
  exists g'. unfold cloud_collision. rewrite Hcol.
  replace (0 <? timer_ghost_mode g) with false by (symmetry; apply Z.ltb_ge; lia).
  split; [exact Hsc|]. rewrite Hd. cbn [andb]. split; intros Hr.
  - rewrite Hr. reflexivity.
  - replace (timer_rapid_fire g =? 0) with false
      by (symmetry; apply Z.eqb_neq; lia). reflexivity.
Qed.

Lemma penalty_speeds_up_witness :
  state (game_over_cloud 5 (cloud_at_player 15 DIVIDE 2)) = PLAYING
  /\ timer_ghost_mode (game_over_cloud 5 (cloud_at_player 15 DIVIDE 2)) <= 0
  /\ colliderect
       (pl_rect (player (game_over_cloud 5 (cloud_at_player 15 DIVIDE 2))))
       (cl_rect (cloud_at_player 15 DIVIDE 2)) = true
  /\ In (cloud_at_player 15 DIVIDE 2)
        (clouds (game_over_cloud 5 (cloud_at_player 15 DIVIDE 2)))
  /\ calculate (player (game_over_cloud 5 (cloud_at_player 15 DIVIDE 2)))
       (cl_op (cloud_at_player 15 DIVIDE 2))
       (cl_val (cloud_at_player 15 DIVIDE 2))
     = Ok (with_score new_Player 2, true)
  /\ exists g',
       cloud_collision (game_over_cloud 5 (cloud_at_player 15 DIVIDE 2))
         (cloud_at_player 15 DIVIDE 2) = Ok g'
       /\ (timer_rapid_fire (game_over_cloud 5 (cloud_at_player 15 DIVIDE 2))
           = 0 ->
           current_difficulty_speed g'
           = py_min
               (fmul (current_difficulty_speed
                        (game_over_cloud 5 (cloud_at_player 15 DIVIDE 2)))
                     (literal 12 10))
               (of_Z 18))
       /\ (0 < timer_rapid_fire
                 (game_over_cloud 5 (cloud_at_player 15 DIVIDE 2)) ->
           current_difficulty_speed g'
           = current_difficulty_speed
               (game_over_cloud 5 (cloud_at_player 15 DIVIDE 2))).
Proof.
  assert (H1 : state (game_over_cloud 5 (cloud_at_player 15 DIVIDE 2))
               = PLAYING) by reflexivity.
  assert (H2 : timer_ghost_mode
                 (game_over_cloud 5 (cloud_at_player 15 DIVIDE 2)) <= 0)
    by (vm_compute; discriminate).
  assert (H3 : colliderect
                 (pl_rect (player (game_over_cloud 5
                                     (cloud_at_player 15 DIVIDE 2))))
                 (cl_rect (cloud_at_player 15 DIVIDE 2)) = true)
    by reflexivity.
  assert (H4 : In (cloud_at_player 15 DIVIDE 2)
                  (clouds (game_over_cloud 5 (cloud_at_player 15 DIVIDE 2))))
    by (left; reflexivity).
  assert (H5 : calculate
                 (player (game_over_cloud 5 (cloud_at_player 15 DIVIDE 2)))
                 (cl_op (cloud_at_player 15 DIVIDE 2))
                 (cl_val (cloud_at_player 15 DIVIDE 2))
               = Ok (with_score new_Player 2, true))
    by (vm_compute; reflexivity).
  repeat (split; [assumption|]).
  exact (penalty_speeds_up _ _ _ H1 H2 H3 H4 H5).
Defined.

Lemma rect_coordinate_int (z : Z) (f : float) :
  int_float z f -> INT_MIN <= z <= INT_MAX -> rect_coordinate f = Ok z.
Proof.
  intros Hf Hz.
  assert (Hr : round_half_away f = z).
  { destruct f as [s| | |s c k]; cbn [int_float] in Hf; try contradiction.
    - subst z. reflexivity.
    - destruct Hf as (Hd & Hk & Hv). cbn [round_half_away].
      pose proof (pow2_pos (- k) ltac:(lia)) as Hp.
      assert (Hc : Z.pos c = cond_Zopp s z * 2 ^ (- k))
        by (destruct s; cbn [cond_Zopp] in *; lia).
      destruct (Z.leb_spec 0 k).
      + assert (k = 0) by lia. subst k. change (2 ^ (- 0)) with 1 in *.
        change (2 ^ 0) with 1. destruct s; cbn [cond_Zopp] in *; lia.
      + assert (Hq : (2 * Z.pos c + 2 ^ (- k)) / (2 * 2 ^ (- k))
                     = cond_Zopp s z).
        { symmetry. apply Z.div_unique with (2 ^ (- k)); [lia|].
          rewrite Hc. ring. }
        rewrite Hq. destruct s; cbn [cond_Zopp]; lia. }
  unfold rect_coordinate. rewrite Hr.
  replace ((INT_MIN <=? z) && (z <=? INT_MAX)) with true
    by (symmetry; apply andb_true_iff; split; apply Z.leb_le; lia).
  destruct f; cbn [int_float] in Hf; try contradiction; reflexivity.
Qed.

(** Scrolling by an integer speed is exact. *)
Lemma scroll_int (r : Rect) (v : Z) :
  Z.abs (rx r) < 2 ^ 52 -> Z.abs v < 2 ^ 52 ->
  INT_MIN <= rx r - v <= INT_MAX ->
  scroll r (of_Z v) = Ok (set_x r (rx r - v)).
Proof.
  intros Hx Hv Hr. unfold scroll.
  rewrite (rect_coordinate_int (rx r - v)); [reflexivity| |exact Hr].
  apply fsub_int; try apply of_Z_int; lia.
Qed.

Lemma movement_timers (env : Env) (g : Game) :
  timer_slow_motion (movement env g) = timer_slow_motion g
  /\ timer_rapid_fire (movement env g) = timer_rapid_fire g
  /\ current_difficulty_speed (movement env g) = current_difficulty_speed g.
Proof.
  unfold movement.
  destruct (0 <? timer_inverted g), (key_up env), (key_down env);
    cbn [andb];
    repeat match goal with
           | |- context [if ?b then _ else _] => destruct b
           end; auto.
Qed.

(** The speed and the spawn frequency of a frame, by its timers. *)
Lemma frame_speed_rapid (env : Env) (g : Game) :
  0 < timer_rapid_fire g ->
  frame_speed env g = of_Z 12 /\ frame_spawn_freq env g = 40.
Proof.
  intros Hr. unfold frame_speed, frame_spawn_freq.
  destruct (movement_timers env g) as (Hslow & Hrapid & Hspeed).
  unfold calculate_speeds.
  destruct (0 <? timer_slow_motion (movement env g));
    cbn [timer_rapid_fire set_timer_slow_motion];
    rewrite Hrapid;
    (replace (0 <? timer_rapid_fire g) with true
       by (symmetry; apply Z.ltb_lt; lia));
    split; reflexivity.
Qed.

Lemma frame_speed_slow (env : Env) (g : Game) :
  timer_rapid_fire g <= 0 -> 0 < timer_slow_motion g ->
  frame_speed env g = fmul (current_difficulty_speed g) (literal 5 10)
  /\ frame_spawn_freq env g = BASE_CLOUD_FREQ.
Proof.
  intros Hr Hs. unfold frame_speed, frame_spawn_freq.
  destruct (movement_timers env g) as (Hslow & Hrapid & Hspeed).
  unfold calculate_speeds. rewrite Hslow.
  replace (0 <? timer_slow_motion g) with true
    by (symmetry; apply Z.ltb_lt; lia).
  cbn [timer_rapid_fire set_timer_slow_motion]. rewrite Hrapid, Hspeed.
  replace (0 <? timer_rapid_fire g) with false
    by (symmetry; apply Z.ltb_ge; lia).
  split; reflexivity.
Qed.

Lemma playing_frame_eq (env : Env) (g : Game) :
  playing_frame env g
  = collisions env (frame_speed env g)
      (spawners env (frame_spawn_freq env g) (frame_after_timers env g)).
Proof.
  unfold playing_frame, frame_speed, frame_spawn_freq, frame_after_timers.
  destruct (calculate_speeds (movement env g)) as [[e f] g1]. reflexivity.
Qed.

(** C7.  Collecting a ROUND_NUM power-up sets the difficulty speed to the
    base scroll speed 5, whatever it was and whatever the timers are, and
    leaves the four effect timers and the two spawn timers as they were. *)
Theorem round_num_resets_speed (g : Game) (pu : PowerUp) :
  pu_type pu = ROUND_NUM ->
  colliderect (pl_rect (player g)) (pu_rect pu) = true ->
  In pu (powerups g) ->
  exists g',
    resolve_powerup g pu = Ok g'
    /\ current_difficulty_speed g' = of_Z BASE_SCROLL_SPEED
    /\ timer_slow_motion g' = timer_slow_motion g
    /\ timer_ghost_mode g' = timer_ghost_mode g
    /\ timer_inverted g' = timer_inverted g
    /\ timer_rapid_fire g' = timer_rapid_fire g
    /\ timer_spawn_cloud g' = timer_spawn_cloud g
    /\ timer_spawn_powerup g' = timer_spawn_powerup g.
Proof.
  intros Hty Hcol Hin. unfold resolve_powerup. rewrite Hcol, Hty.
  cbn [apply_powerup set_current_difficulty_speed powerups].
  destruct (remove_powerup_In pu (powerups g) Hin) as [l' ->].
  cbn [bind]. eexists. split; [reflexivity|]. repeat split.
Qed.

Lemma round_num_resets_speed_witness :
  pu_type (powerup_at_player 20 ROUND_NUM) = ROUND_NUM
  /\ colliderect
       (pl_rect (player (set_current_difficulty_speed
                           (game_over_powerup
                              (powerup_at_player 20 ROUND_NUM))
                           (of_Z 15))))
       (pu_rect (powerup_at_player 20 ROUND_NUM)) = true
  /\ In (powerup_at_player 20 ROUND_NUM)
        (powerups (set_current_difficulty_speed
                     (game_over_powerup (powerup_at_player 20 ROUND_NUM))
                     (of_Z 15)))
  /\ exists g',
       resolve_powerup
         (set_current_difficulty_speed
            (game_over_powerup (powerup_at_player 20 ROUND_NUM)) (of_Z 15))
         (powerup_at_player 20 ROUND_NUM) = Ok g'
       /\ current_difficulty_speed g' = of_Z 5.
Proof.
  assert (H1 : pu_type (powerup_at_player 20 ROUND_NUM) = ROUND_NUM)
    by reflexivity.
  assert (H2 : colliderect
                 (pl_rect (player (set_current_difficulty_speed
                                     (game_over_powerup
                                        (powerup_at_player 20 ROUND_NUM))
                                     (of_Z 15))))
                 (pu_rect (powerup_at_player 20 ROUND_NUM)) = true)
    by reflexivity.
  assert (H3 : In (powerup_at_player 20 ROUND_NUM)
                  (powerups (set_current_difficulty_speed
                               (game_over_powerup
                                  (powerup_at_player 20 ROUND_NUM))
                               (of_Z 15))))
    by (left; reflexivity).
  repeat (split; [assumption|]).
  destruct (round_num_resets_speed _ _ H1 H2 H3) as (g' & Hg & Hd & _).
  exists g'. split; [exact Hg | exact Hd].
Defined.

(** C8.  SPACE in state LANDING_SCENE or GAME_OVER resets the game: the
    score is 0, the difficulty speed is the base speed 5, the four effect
    timers and the two spawn timers are 0, there is no power-up, the clouds
    are one new wall of three, one per lane, and the state is PLAYING. *)
Theorem reset_restores_session (env : Env) (g : Game) :
  state g = LANDING_SCENE \/ state g = GAME_OVER ->
  exists g',
    handle_event env g KEYDOWN_SPACE = Ok g'
    /\ g' = reset_game env g
    /\ score (player g') = 0
    /\ current_difficulty_speed g' = of_Z BASE_SCROLL_SPEED
    /\ timer_slow_motion g' = 0 /\ timer_ghost_mode g' = 0
    /\ timer_inverted g' = 0 /\ timer_rapid_fire g' = 0
    /\ timer_spawn_cloud g' = 0 /\ timer_spawn_powerup g' = 0
    /\ powerups g' = []
    /\ map cl_rect (clouds g')
       = [mkRect 1300 56 180 120; mkRect 1300 289 180 120;
          mkRect 1300 522 180 120]
    /\ map cl_id (clouds g') = [next_id g; S (next_id g); S (S (next_id g))]
    /\ state g' = PLAYING.
Proof.
  intros Hst. exists (reset_game env g). split.
  - cbn [handle_event]. destruct Hst as [-> | ->]; reflexivity.
  - repeat split.
Qed.

Lemma reset_restores_session_witness :
  (state (set_state (game_with_clouds scenario_clouds) GAME_OVER)
   = LANDING_SCENE
   \/ state (set_state (game_with_clouds scenario_clouds) GAME_OVER)
      = GAME_OVER)
  /\ exists g',
       handle_event quiet_env
         (set_state (game_with_clouds scenario_clouds) GAME_OVER)
         KEYDOWN_SPACE = Ok g'
       /\ score (player g') = 0
       /\ length (clouds g') = 3%nat
       /\ state g' = PLAYING.
Proof.
  assert (H : state (set_state (game_with_clouds scenario_clouds) GAME_OVER)
              = LANDING_SCENE
              \/ state (set_state (game_with_clouds scenario_clouds) GAME_OVER)
                 = GAME_OVER) by (right; reflexivity).
  split; [exact H|].
  destruct (reset_restores_session quiet_env _ H)
    as (g' & He & Hg & Hs & _ & _ & _ & _ & _ & _ & _ & _ & Hc & _ & Hst).
  exists g'. split; [exact He|]. split; [exact Hs|]. split; [|exact Hst].
  rewrite <- (length_map cl_rect), Hc. reflexivity.
Defined.

Lemma timer_spawn_cloud_set_timer_spawn_cloud (g : Game) (v : Z) :
  timer_spawn_cloud (set_timer_spawn_cloud g v) = v.
Proof. reflexivity. Qed.

Lemma clouds_set_timer_spawn_cloud (g : Game) (v : Z) :
  clouds (set_timer_spawn_cloud g v) = clouds g.
Proof. reflexivity. Qed.

Lemma powerups_set_timer_spawn_cloud (g : Game) (v : Z) :
  powerups (set_timer_spawn_cloud g v) = powerups g.
Proof. reflexivity. Qed.

Lemma timer_spawn_powerup_set_timer_spawn_cloud (g : Game) (v : Z) :
  timer_spawn_powerup (set_timer_spawn_cloud g v) = timer_spawn_powerup g.
Proof. reflexivity. Qed.

Lemma spawn_cloud_wall_clouds (env : Env) (x : Z) (g : Game) :
  length (clouds (spawn_cloud_wall env x g)) = (length (clouds g) + 3)%nat
  /\ powerups (spawn_cloud_wall env x g) = powerups g
  /\ timer_spawn_powerup (spawn_cloud_wall env x g) = timer_spawn_powerup g.
Proof.
  unfold spawn_cloud_wall. cbn [fold_left spawn_cloud_lane set_next_id
    set_clouds clouds powerups timer_spawn_powerup].
  rewrite !length_app. cbn [length]. repeat split. lia.
Qed.

Lemma spawn_clouds_tick_quiet (env : Env) (freq : Z) (g : Game) :
  timer_spawn_cloud g + 1 <= freq ->
  clouds (spawn_clouds_tick env freq g) = clouds g
  /\ timer_spawn_cloud (spawn_clouds_tick env freq g) = timer_spawn_cloud g + 1.
Proof.
  intros H. unfold spawn_clouds_tick. cbn [timer_spawn_cloud set_timer_spawn_cloud].
  replace (freq <? timer_spawn_cloud g + 1) with false
    by (symmetry; apply Z.ltb_ge; lia).
  split; reflexivity.
Qed.

Lemma spawn_clouds_tick_fires (env : Env) (freq : Z) (g : Game) :
  freq < timer_spawn_cloud g + 1 ->
  length (clouds (spawn_clouds_tick env freq g)) = (length (clouds g) + 3)%nat
  /\ timer_spawn_cloud (spawn_clouds_tick env freq g) = 0.
Proof.
  intros H. unfold spawn_clouds_tick.
  rewrite timer_spawn_cloud_set_timer_spawn_cloud.
  replace (freq <? timer_spawn_cloud g + 1) with true
    by (symmetry; apply Z.ltb_lt; lia).
  rewrite timer_spawn_cloud_set_timer_spawn_cloud, clouds_set_timer_spawn_cloud.
  split; [|reflexivity].
  rewrite (proj1 (spawn_cloud_wall_clouds env 0 _)).
  rewrite clouds_set_timer_spawn_cloud. reflexivity.
Qed.

Lemma spawn_clouds_tick_powerups (env : Env) (freq : Z) (g : Game) :
  powerups (spawn_clouds_tick env freq g) = powerups g
  /\ timer_spawn_powerup (spawn_clouds_tick env freq g) = timer_spawn_powerup g.
Proof.
  unfold spawn_clouds_tick. destruct (freq <? _).
  - rewrite powerups_set_timer_spawn_cloud,
      timer_spawn_powerup_set_timer_spawn_cloud.
    rewrite (proj1 (proj2 (spawn_cloud_wall_clouds env 0 _))).
    rewrite (proj2 (proj2 (spawn_cloud_wall_clouds env 0 _))).
    rewrite powerups_set_timer_spawn_cloud,
      timer_spawn_powerup_set_timer_spawn_cloud.
    split; reflexivity.
  - rewrite powerups_set_timer_spawn_cloud,
      timer_spawn_powerup_set_timer_spawn_cloud.
    split; reflexivity.
Qed.

Lemma spawn_powerups_tick_clouds (env : Env) (g : Game) :
  clouds (spawn_powerups_tick env g) = clouds g
  /\ timer_spawn_cloud (spawn_powerups_tick env g) = timer_spawn_cloud g.
Proof.
  unfold spawn_powerups_tick. destruct (POWERUP_FREQUENCY <? _); split; reflexivity.
Qed.

Lemma spawn_powerups_tick_quiet (env : Env) (g : Game) :
  timer_spawn_powerup g + 1 <= POWERUP_FREQUENCY ->
  powerups (spawn_powerups_tick env g) = powerups g
  /\ timer_spawn_powerup (spawn_powerups_tick env g) = timer_spawn_powerup g + 1.
Proof.
  intros H. unfold spawn_powerups_tick.
  cbn [timer_spawn_powerup set_timer_spawn_powerup].
  replace (POWERUP_FREQUENCY <? timer_spawn_powerup g + 1) with false
    by (symmetry; apply Z.ltb_ge; lia).
  split; reflexivity.
Qed.

Lemma spawn_powerups_tick_fires (env : Env) (g : Game) :
  POWERUP_FREQUENCY < timer_spawn_powerup g + 1 ->
  length (powerups (spawn_powerups_tick env g)) = (length (powerups g) + 1)%nat
  /\ timer_spawn_powerup (spawn_powerups_tick env g) = 0.
Proof.
  intros H. unfold spawn_powerups_tick.
  cbn [timer_spawn_powerup set_timer_spawn_powerup].
  replace (POWERUP_FREQUENCY <? timer_spawn_powerup g + 1) with true
    by (symmetry; apply Z.ltb_lt; lia).
  unfold spawn_powerup.
  cbn [set_timer_spawn_powerup set_next_id set_powerups powerups timer_spawn_powerup].
  rewrite length_app. split; reflexivity.
Qed.

Lemma spawn_frames_clouds_quiet (env : Env) (freq : Z) (g : Game) (n : nat) :
  timer_spawn_cloud g = 0 -> Z.of_nat n <= freq ->
  clouds (spawn_frames env freq n g) = clouds g
  /\ timer_spawn_cloud (spawn_frames env freq n g) = Z.of_nat n.
Proof.
  intros H0. induction n as [|n IH]; intros Hn.
  - split; [reflexivity | exact H0].
  - destruct (IH ltac:(lia)) as [IHc IHt].
    change (spawn_frames env freq (S n) g)
      with (spawners env freq (spawn_frames env freq n g)).
    unfold spawners.
    destruct (spawn_powerups_tick_clouds env
                (spawn_clouds_tick env freq (spawn_frames env freq n g)))
      as [-> ->].
    destruct (spawn_clouds_tick_quiet env freq (spawn_frames env freq n g)
                ltac:(lia)) as [-> ->].
    split; [exact IHc | lia].
Qed.

Lemma spawn_frames_powerups_quiet (env : Env) (freq : Z) (g : Game) (n : nat) :
  timer_spawn_powerup g = 0 -> Z.of_nat n <= POWERUP_FREQUENCY ->
  powerups (spawn_frames env freq n g) = powerups g
  /\ timer_spawn_powerup (spawn_frames env freq n g) = Z.of_nat n.
Proof.
  intros H0. induction n as [|n IH]; intros Hn.
  - split; [reflexivity | exact H0].
  - destruct (IH ltac:(lia)) as [IHc IHt].
    change (spawn_frames env freq (S n) g)
      with (spawners env freq (spawn_frames env freq n g)).
    unfold spawners.
    destruct (spawn_clouds_tick_powerups env freq (spawn_frames env freq n g))
      as [Hp Ht].
    destruct (spawn_powerups_tick_quiet env
                (spawn_clouds_tick env freq (spawn_frames env freq n g))
                ltac:(lia)) as [-> ->].
    rewrite Hp, Ht. split; [exact IHc | lia].
Qed.

(** With the spawn timers at 0, no cloud wall is spawned during the first
    [spawn_freq] frames and one is spawned in frame [spawn_freq + 1], which
    resets the timer; no power-up is spawned during the first 600 frames and
    one is spawned in frame 601. *)
Lemma spawn_period_general (env : Env) (freq : Z) (g : Game) :
  0 <= freq ->
  timer_spawn_cloud g = 0 ->
  timer_spawn_powerup g = 0 ->
  (forall n : nat, Z.of_nat n <= freq ->
     clouds (spawn_frames env freq n g) = clouds g)
  /\ length (clouds (spawn_frames env freq (S (Z.to_nat freq)) g))
     = (length (clouds g) + 3)%nat
  /\ timer_spawn_cloud (spawn_frames env freq (S (Z.to_nat freq)) g) = 0
  /\ (forall n : nat, (n <= 600)%nat ->
        powerups (spawn_frames env freq n g) = powerups g)
  /\ length (powerups (spawn_frames env freq 601 g))
     = (length (powerups g) + 1)%nat
  /\ timer_spawn_powerup (spawn_frames env freq 601 g) = 0.
Proof.
  intros Hf Hc Hp.
  split; [|split; [|split; [|split; [|split]]]].
  - intros n Hn. apply (spawn_frames_clouds_quiet env freq g n Hc Hn).
  - change (spawn_frames env freq (S (Z.to_nat freq)) g)
      with (spawners env freq (spawn_frames env freq (Z.to_nat freq) g)).
    destruct (spawn_frames_clouds_quiet env freq g (Z.to_nat freq) Hc ltac:(lia))
      as [Hcl Ht].
    assert (Hfire : freq < timer_spawn_cloud
                             (spawn_frames env freq (Z.to_nat freq) g) + 1) by lia.
    unfold spawners. rewrite (proj1 (spawn_powerups_tick_clouds env _)).
    rewrite (proj1 (spawn_clouds_tick_fires env freq _ Hfire)). congruence.
  - change (spawn_frames env freq (S (Z.to_nat freq)) g)
      with (spawners env freq (spawn_frames env freq (Z.to_nat freq) g)).
    destruct (spawn_frames_clouds_quiet env freq g (Z.to_nat freq) Hc ltac:(lia))
      as [Hcl Ht].
    assert (Hfire : freq < timer_spawn_cloud
                             (spawn_frames env freq (Z.to_nat freq) g) + 1) by lia.
    unfold spawners. rewrite (proj2 (spawn_powerups_tick_clouds env _)).
    exact (proj2 (spawn_clouds_tick_fires env freq _ Hfire)).
  - intros n Hn.
    apply (spawn_frames_powerups_quiet env freq g n Hp). unfold POWERUP_FREQUENCY. lia.
  - change (spawn_frames env freq 601 g)
      with (spawners env freq (spawn_frames env freq 600 g)).
    destruct (spawn_frames_powerups_quiet env freq g 600 Hp
                ltac:(unfold POWERUP_FREQUENCY; lia)) as [Hpl Ht].
    destruct (spawn_clouds_tick_powerups env freq (spawn_frames env freq 600 g))
      as [Hp' Ht'].
    assert (Hfire : POWERUP_FREQUENCY
                    < timer_spawn_powerup
                        (spawn_clouds_tick env freq
                           (spawn_frames env freq 600 g)) + 1)
      by (rewrite Ht', Ht; unfold POWERUP_FREQUENCY; lia).
    unfold spawners.
    rewrite (proj1 (spawn_powerups_tick_fires env _ Hfire)).
    congruence.
  - change (spawn_frames env freq 601 g)
      with (spawners env freq (spawn_frames env freq 600 g)).
    destruct (spawn_frames_powerups_quiet env freq g 600 Hp
                ltac:(unfold POWERUP_FREQUENCY; lia)) as [Hpl Ht].
    destruct (spawn_clouds_tick_powerups env freq (spawn_frames env freq 600 g))
      as [Hp' Ht'].
    assert (Hfire : POWERUP_FREQUENCY
                    < timer_spawn_powerup
                        (spawn_clouds_tick env freq
                           (spawn_frames env freq 600 g)) + 1)
      by (rewrite Ht', Ht; unfold POWERUP_FREQUENCY; lia).
    unfold spawners.
    exact (proj2 (spawn_powerups_tick_fires env _ Hfire)).
Qed.

(** C9, on the code.  From the start of a game, the 160 frames after the
    timers were 0 spawn no cloud wall and frame 161 spawns one (41 at the
    rapid-fire frequency 40); the first 600 frames spawn no power-up and
    frame 601 spawns one.  The period is one frame more than the
    frequency. *)
Theorem spawn_period_is_frequency_plus_one :
  (forall n : nat, (n <= 160)%nat ->
     clouds (spawn_frames quiet_env BASE_CLOUD_FREQ n (init_game quiet_env))
     = clouds (init_game quiet_env))
  /\ length (clouds (spawn_frames quiet_env BASE_CLOUD_FREQ 161
                       (init_game quiet_env))) = 6%nat
  /\ clouds (spawn_frames quiet_env 40 40 (init_game quiet_env))
     = clouds (init_game quiet_env)
  /\ length (clouds (spawn_frames quiet_env 40 41 (init_game quiet_env)))
     = 6%nat
  /\ powerups (spawn_frames quiet_env BASE_CLOUD_FREQ 600
                 (init_game quiet_env)) = []
  /\ length (powerups (spawn_frames quiet_env BASE_CLOUD_FREQ 601
                         (init_game quiet_env))) = 1%nat.
Proof.
  destruct (spawn_period_general quiet_env BASE_CLOUD_FREQ
              (init_game quiet_env) ltac:(unfold BASE_CLOUD_FREQ; lia)
              eq_refl eq_refl) as (Hq & Hf & _ & Hpq & Hpf & _).
  destruct (spawn_period_general quiet_env 40 (init_game quiet_env)
              ltac:(lia) eq_refl eq_refl) as (Hq' & Hf' & _).
  split; [|split; [|split; [|split; [|split]]]].
  - intros n Hn. apply Hq. unfold BASE_CLOUD_FREQ. lia.
  - exact Hf.
  - apply (Hq' 40%nat). lia.
  - exact Hf'.
  - apply (Hpq 600%nat). lia.
  - exact Hpf.
Qed.

End Frame.

(** * More of the game

    Properties of the events, the spawners, the movement, the scenes and of
    every game the loop of [run] reaches. *)

(** The projections and setters of [Game], for [cbn]. *)
Ltac game_fields :=
  cbn [state player clouds powerups target timer_spawn_cloud
       timer_spawn_powerup current_difficulty_speed timer_slow_motion
       timer_ghost_mode timer_inverted timer_rapid_fire lander_y next_id
       set_state set_player set_clouds set_powerups set_target
       set_timer_spawn_cloud set_timer_spawn_powerup
       set_current_difficulty_speed set_timer_slow_motion
       set_timer_ghost_mode set_timer_inverted set_timer_rapid_fire
       set_lander_y set_next_id] in *.

(** ** Events *)

Section Events.

Lemma handle_event_not_quit (env : Env) (g : Game) (ev : Event) :
  ev <> QUIT -> exists g', handle_event env g ev = Ok g'.
Proof.
  destruct ev; [congruence| |]; intros _; cbn.
  - destruct (state g); eauto.
  - eauto.
Qed.

Lemma process_events_quit (env : Env) (evs : list Event) (g : Game) :
  In QUIT evs -> process_events env evs g = Raise SystemExit.
Proof.
  revert g. induction evs as [|ev evs IH]; intros g Hin; [destruct Hin|].
  cbn [process_events].
  destruct ev.
  - reflexivity.
  - destruct Hin as [H|H]; [discriminate|].
    destruct (handle_event_not_quit env g KEYDOWN_SPACE) as [g' ->];
      [discriminate|]. cbn [bind]. apply IH, H.
  - destruct Hin as [H|H]; [discriminate|]. cbn [handle_event bind].
    apply IH, H.
Qed.

Lemma process_events_flying (env : Env) (evs : list Event) (g : Game) :
  ~ In QUIT evs ->
  state g = PLAYING \/ state g = TRANSITION_TO_LANDING ->
  process_events env evs g = Ok g.
Proof.
  induction evs as [|ev evs IH]; intros Hq Hs; [reflexivity|].
  cbn [process_events].
  assert (Hev : handle_event env g ev = Ok g).
  { destruct ev.
    - exfalso. apply Hq. left. reflexivity.
    - cbn. destruct Hs as [-> | ->]; reflexivity.
    - reflexivity. }
  rewrite Hev. cbn [bind]. apply IH; [|exact Hs].
  intros H. apply Hq. right. exact H.
Qed.

Lemma process_events_idle (env : Env) (evs : list Event) (g : Game) :
  ~ In QUIT evs -> ~ In KEYDOWN_SPACE evs ->
  process_events env evs g = Ok g.
Proof.
  induction evs as [|ev evs IH]; intros Hq Hs; [reflexivity|].
  cbn [process_events]. destruct ev.
  - exfalso. apply Hq. left. reflexivity.
  - exfalso. apply Hs. left. reflexivity.
  - cbn [handle_event bind]. apply IH; intros H; [apply Hq|apply Hs]; right; exact H.
Qed.

Lemma process_events_no_quit (env : Env) (evs : list Event) (g : Game) :
  ~ In QUIT evs -> exists g', process_events env evs g = Ok g'.
Proof.
  revert g. induction evs as [|ev evs IH]; intros g H; cbn [process_events].
  - eauto.
  - destruct (handle_event_not_quit env g ev) as [g1 ->].
    + intros ->. apply H. left. reflexivity.
    + cbn [bind]. apply IH. intros F. apply H. right. exact F.
Qed.

Lemma Event_eq_dec (a b : Event) : {a = b} + {a <> b}.
Proof. decide equality. Defined.

Lemma process_events_playing (env : Env) (evs : list Event) (g g' : Game) :
  state g = PLAYING -> process_events env evs g = Ok g' -> g' = g.
Proof.
  intros Hs H.
  destruct (in_dec (fun a b : Event =>
                      ltac:(decide equality) : {a = b} + {a <> b})
              QUIT evs) as [Hq|Hq].
  - rewrite (process_events_quit env evs g Hq) in H. discriminate.
  - rewrite (process_events_flying env evs g Hq) in H by auto.
    injection H as <-. reflexivity.
Qed.

(** X5.  A QUIT event anywhere among the events of a frame ends the program
    with [SystemExit], in every state. *)
Theorem quit_raises_SystemExit (env : Env) (g : Game) :
  In QUIT (events env) -> frame env g = Raise SystemExit.
Proof.
  intros H. unfold frame. rewrite (process_events_quit env _ g H). reflexivity.
Qed.

Lemma quit_raises_SystemExit_witness :
  In QUIT (events (sample_env [KEYDOWN_SPACE; QUIT] false false 0))
  /\ frame (sample_env [KEYDOWN_SPACE; QUIT] false false 0)
       (init_game quiet_env) = Raise SystemExit.
Proof.
  assert (H : In QUIT (events (sample_env [KEYDOWN_SPACE; QUIT] false false 0)))
    by (right; left; reflexivity).
  split; [exact H|].
  exact (quit_raises_SystemExit _ _ H).
Defined.

(** X6.  Without a QUIT, the events of a frame reset the game once when the
    state is LANDING_SCENE or GAME_OVER and space is among them, and do
    nothing otherwise: space is ignored in flight, and a second space of the
    same frame finds the state PLAYING. *)
Theorem space_resets_once (env : Env) (evs : list Event) (g : Game) :
  ~ In QUIT evs ->
  process_events env evs g
  = Ok (if (GameState_eqb (state g) LANDING_SCENE
            || GameState_eqb (state g) GAME_OVER)
           && existsb (fun ev => match ev with KEYDOWN_SPACE => true | _ => false end) evs
        then reset_game env g else g).
Proof.
  revert g. induction evs as [|ev evs IH]; intros g Hq.
  - cbn. rewrite andb_false_r. reflexivity.
  - assert (Hq' : ~ In QUIT evs) by (intros H; apply Hq; right; exact H).
    cbn [process_events existsb]. destruct ev.
    + exfalso. apply Hq. left. reflexivity.
    + cbn [handle_event orb]. rewrite andb_true_r.
      destruct (state g) eqn:Hs; cbn [bind GameState_eqb orb andb].
      * rewrite (process_events_flying env evs g Hq'); auto.
      * rewrite (process_events_flying env evs g Hq'); auto.
      * rewrite (process_events_flying env evs _ Hq'); auto.
      * rewrite (process_events_flying env evs _ Hq'); auto.
    + cbn [handle_event bind orb]. apply IH, Hq'.
Qed.

Lemma space_resets_once_witness :
  ~ In QUIT [KEYDOWN_SPACE; OtherEvent; KEYDOWN_SPACE]
  /\ process_events quiet_env [KEYDOWN_SPACE; OtherEvent; KEYDOWN_SPACE]
       (set_state (init_game quiet_env) LANDING_SCENE)
     = Ok (if (GameState_eqb
                 (state (set_state (init_game quiet_env) LANDING_SCENE))
                 LANDING_SCENE
               || GameState_eqb
                    (state (set_state (init_game quiet_env) LANDING_SCENE))
                    GAME_OVER)
              && existsb (fun ev => match ev with
                                    | KEYDOWN_SPACE => true
                                    | _ => false
                                    end)
                   [KEYDOWN_SPACE; OtherEvent; KEYDOWN_SPACE]
           then reset_game quiet_env
                  (set_state (init_game quiet_env) LANDING_SCENE)
           else set_state (init_game quiet_env) LANDING_SCENE).
Proof.
  assert (H : ~ In QUIT [KEYDOWN_SPACE; OtherEvent; KEYDOWN_SPACE])
    by (simpl; intuition discriminate).
  split; [exact H|].
  exact (space_resets_once quiet_env _ _ H).
Defined.

End Events.

(** ** The spawners and the lists *)

Section Spawning.

Lemma remove_cloud_present (id : nat) (l : list Cloud) :
  In id (map cl_id l) ->
  exists l1 c l2,
    l = l1 ++ c :: l2 /\ cl_id c = id /\ ~ In id (map cl_id l1)
    /\ remove_cloud id l = Ok (l1 ++ l2).
Proof.
  induction l as [|c l IH]; intros H; [destruct H|].
  cbn [remove_cloud].
  destruct (Nat.eqb_spec (cl_id c) id) as [E|E].
  - exists [], c, l. cbn. auto.
  - destruct H as [H|H]; [contradiction|].
    destruct (IH H) as (l1 & c' & l2 & -> & Hc & Hn & ->).
    exists (c :: l1), c', l2. cbn. repeat split; auto.
    intros [F|F]; auto.
Qed.

Lemma remove_powerup_present (id : nat) (l : list PowerUp) :
  In id (map pu_id l) ->
  exists l1 c l2,
    l = l1 ++ c :: l2 /\ pu_id c = id /\ ~ In id (map pu_id l1)
    /\ remove_powerup id l = Ok (l1 ++ l2).
Proof.
  induction l as [|c l IH]; intros H; [destruct H|].
  cbn [remove_powerup].
  destruct (Nat.eqb_spec (pu_id c) id) as [E|E].
  - exists [], c, l. cbn. auto.
  - destruct H as [H|H]; [contradiction|].
    destruct (IH H) as (l1 & c' & l2 & -> & Hc & Hn & ->).
    exists (c :: l1), c', l2. cbn. repeat split; auto.
    intros [F|F]; auto.
Qed.

Lemma store_cloud_ids (c' : Cloud) (l : list Cloud) :
  map cl_id (store_cloud c' l) = map cl_id l.
Proof.
  unfold store_cloud. rewrite map_map. apply map_ext_in. intros c _.
  destruct (Nat.eqb_spec (cl_id c) (cl_id c')); congruence.
Qed.

Lemma store_powerup_ids (c' : PowerUp) (l : list PowerUp) :
  map pu_id (store_powerup c' l) = map pu_id l.
Proof.
  unfold store_powerup. rewrite map_map. apply map_ext_in. intros c _.
  destruct (Nat.eqb_spec (pu_id c) (pu_id c')); congruence.
Qed.

Lemma spawn_cloud_wall_eq (env : Env) (x_offset : Z) (g : Game) :
  spawn_cloud_wall env x_offset g
  = set_next_id
      (set_clouds g (clouds g ++ [lane_cloud env x_offset g 0;
                                  lane_cloud env x_offset g 1;
                                  lane_cloud env x_offset g 2]))
      (next_id g + 3)%nat.
Proof.
  destruct g as [st pl cl pu tg tc tp ds ts tgm ti tr ly ni].
  unfold spawn_cloud_wall, lane_cloud.
  cbn [fold_left spawn_cloud_lane set_next_id set_clouds clouds next_id player
       state powerups target timer_spawn_cloud timer_spawn_powerup
       current_difficulty_speed timer_slow_motion timer_ghost_mode
       timer_inverted timer_rapid_fire lander_y].
  unfold spawn_cloud_lane.
  cbn [set_next_id set_clouds clouds next_id player
       state powerups target timer_spawn_cloud timer_spawn_powerup
       current_difficulty_speed timer_slow_motion timer_ghost_mode
       timer_inverted timer_rapid_fire lander_y].
  rewrite <- !app_assoc. cbn [app].
  rewrite !Nat.add_0_r.
  replace (S (S (S ni))) with (ni + 3)%nat by lia.
  replace (S (S ni)) with (ni + 2)%nat by lia.
  replace (S ni) with (ni + 1)%nat by lia.
  reflexivity.
Qed.

Lemma randint_range (a b : Z) (raw : nat) :
  a <= b -> a <= randint a b raw <= b.
Proof.
  intros H. unfold randint.
  pose proof (Z.mod_pos_bound (Z.of_nat raw) (b - a + 1) ltac:(lia)). lia.
Qed.

Lemma random_choice_In (raw : nat) (ops : list Operation) :
  ops <> [] -> In (random_choice raw ops) ops.
Proof.
  intros H. unfold random_choice. apply nth_In.
  apply Nat.mod_upper_bound. destruct ops; [congruence|discriminate].
Qed.

Lemma lane_cloud_spawned (env : Env) (x_offset : Z) (g : Game) (i : nat) :
  spawned_cloud x_offset g (lane_cloud env x_offset g i).
Proof.
  unfold spawned_cloud, lane_cloud. cbv zeta.
  set (ops := [ADD; SUBTRACT; MULTIPLY] ++ _).
  assert (Hin : In (random_choice (rnd_choice env i) ops) ops).
  { apply random_choice_In. subst ops. discriminate. }
  destruct (random_choice (rnd_choice env i) ops) eqn:Hop;
    cbn [new_Cloud cl_rect cl_val cl_op cl_original_y rx ry rw rh];
    repeat split; try discriminate; try reflexivity;
    try (apply randint_range; lia);
    try (pose proof (randint_range 2 4 (rnd_mul env i) ltac:(lia)); lia).
  intros _. subst ops. destruct (Z.ltb_spec 10 (score (player g))); [assumption|].
  cbn in Hin. intuition discriminate.
Qed.

(** X7.  [spawn_cloud_wall] appends three clouds after the ones there are, at
    [WIDTH + 100 + x_offset] in the lanes 56, 289 and 522, 180 by 120, with
    fresh consecutive identities, an operand between 1 and 9 (2 and 4 for
    MULTIPLY), and DIVIDE only when the score is above 10. *)
Theorem spawn_cloud_wall_appends_three (env : Env) (x_offset : Z) (g : Game) :
  exists c0 c1 c2 : Cloud,
    clouds (spawn_cloud_wall env x_offset g) = clouds g ++ [c0; c1; c2]
    /\ Forall (spawned_cloud x_offset g) [c0; c1; c2]
    /\ map (fun c => ry (cl_rect c)) [c0; c1; c2] = [56; 289; 522]
    /\ map cl_id [c0; c1; c2]
       = [next_id g; S (next_id g); S (S (next_id g))]
    /\ next_id (spawn_cloud_wall env x_offset g) = S (S (S (next_id g)))
    /\ player (spawn_cloud_wall env x_offset g) = player g
    /\ powerups (spawn_cloud_wall env x_offset g) = powerups g.
Proof.
  rewrite spawn_cloud_wall_eq.
  exists (lane_cloud env x_offset g 0), (lane_cloud env x_offset g 1),
    (lane_cloud env x_offset g 2).
  cbn [clouds powerups player next_id set_next_id set_clouds].
  repeat split.
  - apply Forall_cons; [apply lane_cloud_spawned|].
    apply Forall_cons; [apply lane_cloud_spawned|].
    apply Forall_cons; [apply lane_cloud_spawned|apply Forall_nil].
  - cbn [map]. unfold lane_cloud. cbn [new_Cloud cl_id].
    f_equal; [lia|f_equal; [lia|f_equal; lia]].
  - lia.
Qed.

(** X8.  [spawn_powerup] appends one 40 by 40 power-up at [WIDTH + 50], with
    a fresh identity and a height between 50 and [HEIGHT - 50]; above one and
    a half times the base speed it is never a RAPID_FIRE. *)
Theorem spawn_powerup_appends_one (env : Env) (g : Game) :
  exists pu : PowerUp,
    powerups (spawn_powerup env g) = powerups g ++ [pu]
    /\ pu_id pu = next_id g
    /\ rx (pu_rect pu) = WIDTH + 50
    /\ 50 <= ry (pu_rect pu) <= HEIGHT - 50
    /\ rw (pu_rect pu) = 40 /\ rh (pu_rect pu) = 40
    /\ (flt (fmul (of_Z BASE_SCROLL_SPEED) (literal 15 10))
            (current_difficulty_speed g) = true ->
        pu_type pu <> RAPID_FIRE)
    /\ next_id (spawn_powerup env g) = S (next_id g)
    /\ clouds (spawn_powerup env g) = clouds g
    /\ player (spawn_powerup env g) = player g.
Proof.
  unfold spawn_powerup. cbv zeta.
  cbn [powerups next_id clouds player set_next_id set_powerups].
  eexists. split; [reflexivity|].
  cbn [new_PowerUp pu_id pu_rect pu_type rx ry rw rh].
  repeat split.
  - apply randint_range. unfold HEIGHT. lia.
  - apply randint_range. unfold HEIGHT. lia.
  - intros ->.
    destruct (flt (rnd_roll env) (literal 50 100)); [discriminate|].
    destruct (flt (rnd_roll env) (literal 70 100)); [discriminate|].
    destruct (flt (rnd_roll env) (literal 85 100)); discriminate.
Qed.

Lemma remove_present_ids (ids1 ids2 : list nat) (id : nat) :
  NoDup (ids1 ++ id :: ids2) ->
  ~ In id (ids1 ++ ids2)
  /\ (forall id', id' <> id ->
        (In id' (ids1 ++ id :: ids2) <-> In id' (ids1 ++ ids2))).
Proof.
  intros Hn. split.
  - apply NoDup_remove_2. exact Hn.
  - intros id' Hne. rewrite !in_app_iff. cbn [In]. intuition congruence.
Qed.

(** X21.  A cloud that changed the score leaves the list: after
    [score_cloud] its identity is gone, every other cloud is still there,
    and the power-ups are untouched; no cloud scores twice. *)
Theorem scored_cloud_is_removed (g g' : Game) (c : Cloud) :
  In (cl_id c) (map cl_id (clouds g)) ->
  NoDup (map cl_id (clouds g)) ->
  score_cloud g c = Ok g' ->
  ~ In (cl_id c) (map cl_id (clouds g'))
  /\ (forall id, id <> cl_id c ->
        (In id (map cl_id (clouds g)) <-> In id (map cl_id (clouds g'))))
  /\ S (length (clouds g')) = length (clouds g)
  /\ powerups g' = powerups g.
Proof.
  intros Hin Hnd H. unfold score_cloud in H.
  destruct (calculate _ _ _) as [[p' b]|]; cbn [bind] in H; [|discriminate].
  set (g1 := if b && _ then _ else _) in H.
  assert (H1 : clouds g1 = clouds g /\ powerups g1 = powerups g)
    by (subst g1; destruct (b && _); split; reflexivity).
  destruct H1 as [Hc1 Hp1]. rewrite Hc1 in H.
  destruct (remove_cloud_present (cl_id c) (clouds g) Hin)
    as (l1 & c0 & l2 & Hl & Hid & _ & Hr).
  rewrite Hr in H. cbn [bind] in H.
  assert (Hg' : clouds g' = l1 ++ l2 /\ powerups g' = powerups g).
  { injection H as <-.
    match goal with
    | |- context [if ?c then _ else _] => destruct c
    end; cbn [set_state set_clouds clouds powerups]; auto. }
  destruct Hg' as [-> ->]. rewrite Hl in *. rewrite !map_app in *.
  cbn [map] in *. rewrite Hid in *.
  destruct (remove_present_ids _ _ _ Hnd) as [R1 R2].
  split; [exact R1|]. split; [|split; [|reflexivity]].
  - intros id Hne. apply R2. exact Hne.
  - rewrite !length_app. cbn [length]. lia.
Qed.

Lemma scored_cloud_is_removed_witness :
  In (cl_id (cloud_at_player 15 ADD 5))
     (map cl_id (clouds (game_with_clouds
                           [cloud_at_player 14 ADD 9;
                            cloud_at_player 15 ADD 5])))
  /\ NoDup (map cl_id (clouds (game_with_clouds
                                 [cloud_at_player 14 ADD 9;
                                  cloud_at_player 15 ADD 5])))
  /\ exists g',
       score_cloud (game_with_clouds [cloud_at_player 14 ADD 9;
                                      cloud_at_player 15 ADD 5])
         (cloud_at_player 15 ADD 5) = Ok g'
       /\ ~ In (cl_id (cloud_at_player 15 ADD 5)) (map cl_id (clouds g'))
       /\ (forall id, id <> cl_id (cloud_at_player 15 ADD 5) ->
             (In id (map cl_id (clouds (game_with_clouds
                                          [cloud_at_player 14 ADD 9;
                                           cloud_at_player 15 ADD 5])))
              <-> In id (map cl_id (clouds g'))))
       /\ S (length (clouds g'))
          = length (clouds (game_with_clouds [cloud_at_player 14 ADD 9;
                                              cloud_at_player 15 ADD 5]))
       /\ powerups g'
          = powerups (game_with_clouds [cloud_at_player 14 ADD 9;
                                        cloud_at_player 15 ADD 5]).
Proof.
  assert (H1 : In (cl_id (cloud_at_player 15 ADD 5))
                 (map cl_id (clouds (game_with_clouds
                                       [cloud_at_player 14 ADD 9;
                                        cloud_at_player 15 ADD 5]))))
    by (right; left; reflexivity).
  assert (H2 : NoDup (map cl_id (clouds (game_with_clouds
                                           [cloud_at_player 14 ADD 9;
                                            cloud_at_player 15 ADD 5])))).
  { cbn [game_with_clouds set_clouds clouds map cloud_at_player new_Cloud
         cl_id].
    repeat constructor; cbn [In]; intuition discriminate. }
  assert (H3 : exists g',
             score_cloud (game_with_clouds [cloud_at_player 14 ADD 9;
                                            cloud_at_player 15 ADD 5])
               (cloud_at_player 15 ADD 5) = Ok g')
    by (eexists; vm_compute; reflexivity).
  split; [exact H1|]. split; [exact H2|].
  destruct H3 as [g' H3]. exists g'. split; [exact H3|].
  exact (scored_cloud_is_removed _ _ _ H1 H2 H3).
Defined.

(** X22.  The body of the power-up loop always finds the power-up it
    removes: one that overlaps the ship or has left the screen is removed and
    no other, one that does neither leaves the game as it is; the clouds,
    the player and the state are never touched. *)
Theorem resolve_powerup_removes (g : Game) (pu : PowerUp) :
  In (pu_id pu) (map pu_id (powerups g)) ->
  NoDup (map pu_id (powerups g)) ->
  exists g',
    resolve_powerup g pu = Ok g'
    /\ clouds g' = clouds g /\ player g' = player g /\ state g' = state g
    /\ (if colliderect (pl_rect (player g)) (pu_rect pu)
           || (rect_right (pu_rect pu) <? 0)
        then ~ In (pu_id pu) (map pu_id (powerups g'))
             /\ (forall id, id <> pu_id pu ->
                   (In id (map pu_id (powerups g))
                    <-> In id (map pu_id (powerups g'))))
             /\ S (length (powerups g')) = length (powerups g)
        else g' = g).
Proof.
  intros Hin Hnd. unfold resolve_powerup.
  destruct (remove_powerup_present (pu_id pu) (powerups g) Hin)
    as (l1 & c0 & l2 & Hl & Hid & _ & Hr).
  assert (Hrem : ~ In (pu_id pu) (map pu_id (l1 ++ l2))
                 /\ (forall id, id <> pu_id pu ->
                       (In id (map pu_id (powerups g))
                        <-> In id (map pu_id (l1 ++ l2))))
                 /\ S (length (l1 ++ l2)) = length (powerups g)).
  { rewrite Hl in *. rewrite !map_app in *. cbn [map] in *.
    rewrite Hid in *. destruct (remove_present_ids _ _ _ Hnd) as [R1 R2].
    split; [exact R1|]. split; [exact R2|].
    rewrite !length_app. cbn [length]. lia. }
  destruct (colliderect _ _); cbn [orb].
  - replace (powerups (apply_powerup g (pu_type pu))) with (powerups g)
      by (destruct (pu_type pu); reflexivity).
    rewrite Hr. cbn [bind]. eexists. split; [reflexivity|].
    cbn [set_powerups clouds player state powerups].
    destruct (pu_type pu);
      (split; [reflexivity|]; split; [reflexivity|]; split; [reflexivity|];
       exact Hrem).
  - destruct (rect_right _ <? 0).
    + rewrite Hr. cbn [bind]. eexists. split; [reflexivity|].
      cbn [set_powerups clouds player state powerups].
      split; [reflexivity|]. split; [reflexivity|]. split; [reflexivity|].
      exact Hrem.
    + exists g. repeat split.
Qed.

Lemma resolve_powerup_removes_witness :
  In (pu_id (powerup_at_player 3 GHOST))
     (map pu_id (powerups (game_over_powerup (powerup_at_player 3 GHOST))))
  /\ NoDup (map pu_id
              (powerups (game_over_powerup (powerup_at_player 3 GHOST))))
  /\ exists g',
       resolve_powerup (game_over_powerup (powerup_at_player 3 GHOST))
         (powerup_at_player 3 GHOST) = Ok g'
       /\ clouds g' = clouds (game_over_powerup (powerup_at_player 3 GHOST))
       /\ player g' = player (game_over_powerup (powerup_at_player 3 GHOST))
       /\ state g' = state (game_over_powerup (powerup_at_player 3 GHOST))
       /\ (if colliderect
                (pl_rect (player (game_over_powerup
                                    (powerup_at_player 3 GHOST))))
                (pu_rect (powerup_at_player 3 GHOST))
              || (rect_right (pu_rect (powerup_at_player 3 GHOST)) <? 0)
           then ~ In (pu_id (powerup_at_player 3 GHOST))
                     (map pu_id (powerups g'))
                /\ (forall id, id <> pu_id (powerup_at_player 3 GHOST) ->
                      (In id (map pu_id
                                (powerups (game_over_powerup
                                             (powerup_at_player 3 GHOST))))
                       <-> In id (map pu_id (powerups g'))))
                /\ S (length (powerups g'))
                   = length (powerups (game_over_powerup
                                         (powerup_at_player 3 GHOST)))
           else g' = game_over_powerup (powerup_at_player 3 GHOST)).
Proof.
  assert (H1 : In (pu_id (powerup_at_player 3 GHOST))
                 (map pu_id (powerups (game_over_powerup
                                         (powerup_at_player 3 GHOST)))))
    by (left; reflexivity).
  assert (H2 : NoDup (map pu_id
                        (powerups (game_over_powerup
                                     (powerup_at_player 3 GHOST))))).
  { cbn [game_over_powerup set_powerups powerups map]. repeat constructor.
    intros []. }
  split; [exact H1|]. split; [exact H2|].
  exact (resolve_powerup_removes _ _ H1 H2).
Defined.

(** X23.  The wall of a reset has three clouds and none of them divides
    (the score is 0 when it is built); the reset game depends on the old one
    only through the identities already given out. *)
Theorem reset_wall_has_no_division (env : Env) (g : Game) :
  Forall (fun c => cl_op c <> DIVIDE) (clouds (reset_game env g))
  /\ length (clouds (reset_game env g)) = 3%nat
  /\ (forall g2 : Game,
        next_id g2 = next_id g -> reset_game env g2 = reset_game env g).
Proof.
  split; [|split].
  - unfold reset_game. cbv zeta. rewrite spawn_cloud_wall_eq.
    cbn [clouds set_lander_y set_timer_rapid_fire set_timer_inverted
         set_timer_ghost_mode set_timer_slow_motion
         set_current_difficulty_speed set_timer_spawn_powerup
         set_timer_spawn_cloud set_next_id set_clouds set_target
         set_powerups set_player set_state app].
    repeat (apply Forall_cons;
            [intros Hop;
             pose proof (lane_cloud_spawned env 200
               (set_target (set_powerups (set_clouds
                  (set_player (set_state g PLAYING) new_Player) []) [])
                  TARGET_NUMBER)) as Hs;
             match goal with
             | H : cl_op (lane_cloud _ _ _ ?i) = DIVIDE |- _ =>
                 destruct (Hs i) as (_ & _ & _ & _ & _ & _ & Hd);
                 specialize (Hd H); cbn in Hd; lia
             end|]).
    apply Forall_nil.
  - unfold reset_game. cbv zeta. rewrite spawn_cloud_wall_eq. reflexivity.
  - intros g2 Hn. unfold reset_game. cbv zeta. rewrite !spawn_cloud_wall_eq.
    destruct g as [st pl cl pu tg tc tp ds ts tgm ti tr ly ni].
    destruct g2 as [st2 pl2 cl2 pu2 tg2 tc2 tp2 ds2 ts2 tgm2 ti2 tr2 ly2 ni2].
    cbn [next_id] in Hn. subst ni2. reflexivity.
Qed.

End Spawning.

(** ** Movement *)

Section Movement.

Lemma move_y_player (g : Game) (dy : Z) :
  player (move_y g dy)
  = mkPlayer (set_y (pl_rect (player g)) (ry (pl_rect (player g)) + dy))
      (score (player g)) (figure_x (player g)).
Proof. reflexivity. Qed.

Lemma movement_player (env : Env) (g : Game) :
  rh (pl_rect (player g)) = 60 ->
  -8 <= ry (pl_rect (player g)) <= 648 ->
  let p := player g in
  let p' := player (movement env g) in
  -8 <= ry (pl_rect p') <= 648
  /\ Z.abs (ry (pl_rect p') - ry (pl_rect p)) <= PLAYER_SPEED
  /\ rx (pl_rect p') = rx (pl_rect p)
  /\ rw (pl_rect p') = rw (pl_rect p)
  /\ rh (pl_rect p') = rh (pl_rect p)
  /\ score p' = score p /\ figure_x p' = figure_x p.
Proof.
  intros Hh Hy p p'. subst p p'. unfold movement.
  destruct (player g) as [[x y w h] s f] eqn:Hp.
  cbn [pl_rect rh ry] in Hh, Hy. subst h.
  unfold rect_bottom, rect_top, HEIGHT, PLAYER_SPEED.
  destruct (0 <? timer_inverted g), (key_up env), (key_down env);
    cbn [andb]; rewrite ?Hp; cbn [pl_rect ry rh];
    repeat match goal with
    | |- context [if ?c then _ else _] =>
        let E := fresh "E" in
        destruct c eqn:E;
        rewrite ?move_y_player, ?Hp in *;
        cbn [pl_rect ry rh rx rw set_y score figure_x] in *
    end;
    rewrite ?move_y_player, ?Hp;
    cbn [pl_rect ry rh rx rw set_y score figure_x];
    repeat match goal with
    | H : (_ <? _) = true |- _ => apply Z.ltb_lt in H
    | H : (_ <? _) = false |- _ => apply Z.ltb_ge in H
    end;
    repeat split; lia.
Qed.

Lemma movement_fields (env : Env) (g : Game) :
  let g' := movement env g in
  state g' = state g /\ clouds g' = clouds g /\ powerups g' = powerups g
  /\ target g' = target g
  /\ timer_spawn_cloud g' = timer_spawn_cloud g
  /\ timer_spawn_powerup g' = timer_spawn_powerup g
  /\ current_difficulty_speed g' = current_difficulty_speed g
  /\ timer_slow_motion g' = timer_slow_motion g
  /\ timer_ghost_mode g' = timer_ghost_mode g
  /\ timer_inverted g' = timer_inverted g
  /\ timer_rapid_fire g' = timer_rapid_fire g
  /\ lander_y g' = lander_y g /\ next_id g' = next_id g.
Proof.
  destruct g as [st pl cl pu tg tc tp ds ts tgm ti tr ly ni].
  unfold movement, move_y. game_fields.
  destruct (0 <? ti), (key_up env), (key_down env); cbn [andb]; game_fields;
    repeat match goal with
    | |- context [if ?c then _ else _] => destruct c; game_fields
    end;
    repeat split; reflexivity.
Qed.

Lemma movement_score (env : Env) (g : Game) :
  score (player (movement env g)) = score (player g).
Proof.
  unfold movement.
  destruct (0 <? timer_inverted g);
    repeat match goal with
    | |- context [if ?c then _ else _] => destruct c
    end; reflexivity.
Qed.

(** X9.  The movement of a frame moves the ship by at most [PLAYER_SPEED]
    vertically and keeps a ship of height 60 between -8 and 648, with normal
    and with inverted controls; it changes nothing else of the ship, the
    clouds, the power-ups or the state. *)
Theorem movement_stays_near_window (env : Env) (g : Game) :
  rh (pl_rect (player g)) = 60 ->
  -8 <= ry (pl_rect (player g)) <= 648 ->
  -8 <= ry (pl_rect (player (movement env g))) <= 648
  /\ Z.abs (ry (pl_rect (player (movement env g)))
            - ry (pl_rect (player g))) <= PLAYER_SPEED
  /\ rx (pl_rect (player (movement env g))) = rx (pl_rect (player g))
  /\ rw (pl_rect (player (movement env g))) = rw (pl_rect (player g))
  /\ rh (pl_rect (player (movement env g))) = rh (pl_rect (player g))
  /\ score (player (movement env g)) = score (player g)
  /\ clouds (movement env g) = clouds g
  /\ powerups (movement env g) = powerups g
  /\ state (movement env g) = state g.
Proof.
  intros Hh Hy.
  destruct (movement_player env g Hh Hy) as (M1 & M2 & M3 & M4 & M5 & M6 & _).
  destruct (movement_fields env g) as (E1 & E2 & E3 & _).
  cbv zeta in *. repeat split; try assumption; lia.
Qed.

Lemma movement_stays_near_window_witness :
  rh (pl_rect (player (init_game quiet_env))) = 60
  /\ -8 <= ry (pl_rect (player (init_game quiet_env))) <= 648
  /\ -8 <= ry (pl_rect (player (movement (sample_env [] true false 0)
                                  (init_game quiet_env)))) <= 648
  /\ Z.abs (ry (pl_rect (player (movement (sample_env [] true false 0)
                                   (init_game quiet_env))))
            - ry (pl_rect (player (init_game quiet_env)))) <= PLAYER_SPEED
  /\ rx (pl_rect (player (movement (sample_env [] true false 0)
                            (init_game quiet_env))))
     = rx (pl_rect (player (init_game quiet_env)))
  /\ rw (pl_rect (player (movement (sample_env [] true false 0)
                            (init_game quiet_env))))
     = rw (pl_rect (player (init_game quiet_env)))
  /\ rh (pl_rect (player (movement (sample_env [] true false 0)
                            (init_game quiet_env))))
     = rh (pl_rect (player (init_game quiet_env)))
  /\ score (player (movement (sample_env [] true false 0)
                      (init_game quiet_env)))
     = score (player (init_game quiet_env))
  /\ clouds (movement (sample_env [] true false 0) (init_game quiet_env))
     = clouds (init_game quiet_env)
  /\ powerups (movement (sample_env [] true false 0) (init_game quiet_env))
     = powerups (init_game quiet_env)
  /\ state (movement (sample_env [] true false 0) (init_game quiet_env))
     = state (init_game quiet_env).
Proof.
  assert (H1 : rh (pl_rect (player (init_game quiet_env))) = 60)
    by reflexivity.
  assert (H2 : -8 <= ry (pl_rect (player (init_game quiet_env))) <= 648)
    by (split; vm_compute; discriminate).
  split; [exact H1|]. split; [exact H2|].
  exact (movement_stays_near_window _ _ H1 H2).
Defined.

End Movement.

(** ** The exceptions of [calculate] *)

Section Exceptions.

Lemma binary_round_aux_not_nan (s : bool) (mx ex : Z) (lx : location) :
  0 <= mx -> not_nan (binary_round_aux prec emax s mx ex lx).
Proof.
  intros Hm. unfold binary_round_aux.
  pose proof (shr_fexp_small mx lx ex Hm) as H1.
  destruct (shr_fexp prec emax mx ex lx) as [mrs' e']. cbn [fst] in H1.
  pose proof (round_nearest_even_bounds (shr_m mrs') (loc_of_shr_record mrs')) as Hb.
  set (m1 := round_nearest_even (shr_m mrs') (loc_of_shr_record mrs')) in *.
  assert (H2 : 0 <= shr_m (fst (shr_fexp prec emax m1 e' loc_Exact)) < 2 ^ 53).
  { destruct (Z.eq_dec m1 (2 ^ 53)) as [-> | Hne].
    - apply shr_fexp_carry.
    - pose proof (shr_fexp_small m1 loc_Exact e' ltac:(lia)). assumption. }
  destruct (shr_fexp prec emax m1 e' loc_Exact) as [mrs'' e'']. cbn [fst] in H2.
  destruct (shr_m mrs'') as [|m|m]; cbn [not_nan]; auto; [|lia].
  destruct (Z.leb_spec e'' (emax - prec)); exact I.
Qed.

Lemma binary_normalize_not_nan (m e : Z) (sz : bool) :
  not_nan (binary_normalize prec emax m e sz).
Proof.
  destruct m as [|p|p]; cbn [binary_normalize not_nan]; auto;
    unfold binary_round;
    destruct (shl_align _ _ _) as [mz ez];
    apply binary_round_aux_not_nan; lia.
Qed.

Lemma py_float_finite (z : Z) (f : float) : py_float z = Ok f -> is_finite f.
Proof.
  unfold py_float. pose proof (binary_normalize_not_nan z 0 false) as H.
  fold (of_Z z) in H. destruct (of_Z z); intros E; inversion E; subst;
    cbn in *; auto.
Qed.

Lemma py_float_error (A : Type) (z : Z) (e : PyExc) :
  py_float z = Raise e -> e = OverflowError.
Proof.
  unfold py_float. destruct (of_Z z); intros E; inversion E; reflexivity.
Qed.

Lemma fadd_not_nan (x y : float) :
  is_finite x -> is_finite y -> not_nan (fadd x y).
Proof.
  unfold fadd, SFadd.
  destruct x as [sx|sx| |sx mx ex], y as [sy|sy| |sy my ey];
    cbn [is_finite]; try contradiction; intros _ _;
    try exact I; try (destruct sx, sy; exact I).
  apply binary_normalize_not_nan.
Qed.

Lemma fsub_not_nan (x y : float) :
  is_finite x -> is_finite y -> not_nan (fsub x y).
Proof.
  unfold fsub, SFsub.
  destruct x as [sx|sx| |sx mx ex], y as [sy|sy| |sy my ey];
    cbn [is_finite]; try contradiction; intros _ _;
    try exact I; try (destruct sx, sy; exact I).
  apply binary_normalize_not_nan.
Qed.

Lemma fmul_not_nan (x y : float) :
  is_finite x -> is_finite y -> not_nan (fmul x y).
Proof.
  unfold fmul, SFmul.
  destruct x as [sx|sx| |sx mx ex], y as [sy|sy| |sy my ey];
    cbn [is_finite]; try contradiction; intros _ _; try exact I.
  apply binary_round_aux_not_nan. lia.
Qed.

Lemma fdiv_not_nan (x y : float) :
  is_finite x -> nonzero y -> not_nan (fdiv x y).
Proof.
  unfold fdiv, SFdiv.
  destruct x as [sx|sx| |sx mx ex], y as [sy|sy| |sy my ey];
    cbn [is_finite nonzero]; try contradiction; intros _ _; try exact I.
  unfold SFdiv_core_binary.
  set (m' := match _ with Z.pos _ => _ | _ => _ end).
  assert (Hm' : 0 <= m').
  { subst m'. destruct (_ - _ - _) as [|p|p]; try lia.
    rewrite Z.shiftl_mul_pow2 by lia. pose proof (pow2_pos (Z.pos p) ltac:(lia)). lia. }
  rewrite div_eucl_div_mod.
  apply binary_round_aux_not_nan. apply Z.div_pos; lia.
Qed.

Lemma shr_snd (mrs : shr_record) (e n : Z) :
  snd (shr mrs e n) = if 0 <? n then e + n else e.
Proof. destruct n; reflexivity. Qed.

Lemma Zdigits2_lower (m : Z) : 0 < m -> 2 ^ (Zdigits2 m - 1) <= m.
Proof.
  destruct m as [|p|p]; try lia. intros _. cbn [Zdigits2].
  apply digits2_bounds.
Qed.

Lemma shr_fexp_normal (m e : Z) (l : location) :
  0 < m -> -1021 <= Zdigits2 m + e ->
  shr_m (fst (shr_fexp prec emax m e l))
  = (if 0 <? Zdigits2 m - 53 then m / 2 ^ (Zdigits2 m - 53) else m)
  /\ snd (shr_fexp prec emax m e l)
     = (if 0 <? Zdigits2 m - 53 then e + (Zdigits2 m - 53) else e).
Proof.
  intros Hm Hd. unfold shr_fexp. rewrite shr_m_shr by lia. rewrite shr_snd.
  rewrite fexp_normal by assumption.
  replace (Zdigits2 m + e - 53 - e) with (Zdigits2 m - 53) by lia.
  split; reflexivity.
Qed.

Lemma Zdigits2_mono (a b : Z) : 0 < a -> a <= b -> Zdigits2 a <= Zdigits2 b.
Proof.
  intros Ha Hab.
  pose proof (Zdigits2_lower a Ha). pose proof (Zdigits2_bound b ltac:(lia)).
  pose proof (Zdigits2_nonneg a). pose proof (Zdigits2_nonneg b).
  destruct (Z.le_gt_cases (Zdigits2 a) (Zdigits2 b)) as [|Hgt]; [assumption|].
  assert (2 ^ Zdigits2 b <= 2 ^ (Zdigits2 a - 1)) by (apply Z.pow_le_mono_r; lia).
  lia.
Qed.

Lemma binary_round_aux_nonzero (s : bool) (mx ex : Z) (lx : location) :
  0 < mx -> -1021 <= Zdigits2 mx + ex ->
  nonzero (binary_round_aux prec emax s mx ex lx).
Proof.
  intros Hm Hd. unfold binary_round_aux.
  destruct (shr_fexp_normal mx ex lx Hm Hd) as [H1 H1e].
  pose proof (Zdigits2_lower mx Hm) as Hlo.
  pose proof (Zdigits2_bound mx ltac:(lia)) as Hhi.
  destruct (shr_fexp prec emax mx ex lx) as [mrs' e']. cbn [fst snd] in H1, H1e.
  pose proof (round_nearest_even_bounds (shr_m mrs') (loc_of_shr_record mrs')) as Hb.
  set (m1 := round_nearest_even (shr_m mrs') (loc_of_shr_record mrs')) in *.
  set (d := Zdigits2 mx) in *.
  assert (Hm1 : 0 < m1 <= 2 ^ 53 /\ -1021 <= Zdigits2 m1 + e').
  { destruct (Z.ltb_spec 0 (d - 53)) as [Hn|Hn].
    - assert (Hq : 2 ^ 52 <= shr_m mrs' < 2 ^ 53).
      { rewrite H1.
        pose proof (pow2_pos (d - 53) ltac:(lia)) as Hp.
        assert (E1 : 2 ^ (d - 1) = 2 ^ 52 * 2 ^ (d - 53))
          by (rewrite <- Z.pow_add_r by lia; f_equal; lia).
        assert (E2 : 2 ^ d = 2 ^ 53 * 2 ^ (d - 53))
          by (rewrite <- Z.pow_add_r by lia; f_equal; lia).
        split.
        - apply Z.div_le_lower_bound; lia.
        - apply Z.div_lt_upper_bound; lia. }
      split; [lia|].
      assert (53 <= Zdigits2 m1).
      { change 53 with (Zdigits2 (2 ^ 52)). apply Zdigits2_mono; lia. }
      lia.
    - rewrite H1 in Hb. subst e'.
      assert (2 ^ d <= 2 ^ 53) by (apply Z.pow_le_mono_r; lia).
      split; [lia|].
      pose proof (Zdigits2_mono mx m1 Hm ltac:(lia)). fold d in H0. lia. }
  destruct Hm1 as [Hm1 Hd1].
  destruct (shr_fexp_normal m1 e' loc_Exact ltac:(lia) Hd1) as [H2 _].
  destruct (shr_fexp prec emax m1 e' loc_Exact) as [mrs'' e'']. cbn [fst] in H2.
  assert (Hpos : 0 < shr_m mrs'').
  { rewrite H2. destruct (Z.ltb_spec 0 (Zdigits2 m1 - 53)) as [Hn|Hn]; [|lia].
    assert (Zdigits2 m1 <= 54).
    { change 54 with (Zdigits2 (2 ^ 53)). apply Zdigits2_mono; lia. }
    replace (Zdigits2 m1 - 53) with 1 by lia.
    assert (2 ^ 53 <= m1).
    { pose proof (Zdigits2_lower m1 ltac:(lia)).
      replace (Zdigits2 m1) with 54 in * by lia. exact H0. }
    change (2 ^ 1) with 2. apply Z.div_str_pos. lia. }
  destruct (shr_m mrs'') as [|m|m]; try lia.
  destruct (Z.leb_spec e'' (emax - prec)); exact I.
Qed.

Lemma of_Z_nonzero (z : Z) : z <> 0 -> nonzero (of_Z z).
Proof.
  intros Hz. unfold of_Z.
  assert (H : forall s p, nonzero (binary_round prec emax s p 0)).
  { intros s p. unfold binary_round.
    pose proof (digits2_bounds p) as Hb.
    assert (Hd : 1 <= Z.pos (digits2_pos p)) by lia.
    rewrite Z.add_0_r. rewrite fexp_normal by lia.
    unfold shl_align.
    destruct (Z.pos (digits2_pos p) - 53 - 0) as [|q|q] eqn:E.
    - apply binary_round_aux_nonzero; [lia|].
      cbn [Zdigits2]. lia.
    - apply binary_round_aux_nonzero; [lia|].
      cbn [Zdigits2]. lia.
    - apply binary_round_aux_nonzero; [lia|].
      cbn [Zdigits2]. pose proof (Pos2Z.is_pos (digits2_pos (shift_pos q p))). lia. }
  destruct z as [|p|p]; [congruence| |]; cbn [binary_normalize]; apply H.
Qed.

Lemma calculate_error (p : Player) (op : Operation) (V : Z) (e : PyExc) :
  calculate p op V = Raise e -> e = OverflowError.
Proof.
  unfold calculate.
  destruct (py_float (score p)) as [res|e0] eqn:Hres; cbn [bind];
    [|intros E; inversion E; subst; exact (py_float_error unit _ _ Hres)].
  pose proof (py_float_finite _ _ Hres) as Hfin.
  assert (Hround : forall r, not_nan r ->
            (s <- py_round (if flt r fzero then fzero else r) ;;
             Ok (mkPlayer (pl_rect p) s (figure_x p),
                 has_fraction (if flt r fzero then fzero else r)))
            = Raise e -> e = OverflowError).
  { intros r Hr. destruct (flt r fzero); cbn [py_round fzero bind];
      [discriminate|].
    destruct r; cbn [py_round bind not_nan] in *;
      try discriminate; try contradiction.
    intros E; inversion E; reflexivity. }
  destruct op.
  - destruct (py_float V) as [v|e0] eqn:Hv; cbn [bind];
      [|intros E; inversion E; subst; exact (py_float_error unit _ _ Hv)].
    apply Hround, fadd_not_nan; [assumption|exact (py_float_finite _ _ Hv)].
  - destruct (py_float V) as [v|e0] eqn:Hv; cbn [bind];
      [|intros E; inversion E; subst; exact (py_float_error unit _ _ Hv)].
    apply Hround, fsub_not_nan; [assumption|exact (py_float_finite _ _ Hv)].
  - destruct (py_float V) as [v|e0] eqn:Hv; cbn [bind];
      [|intros E; inversion E; subst; exact (py_float_error unit _ _ Hv)].
    apply Hround, fmul_not_nan; [assumption|exact (py_float_finite _ _ Hv)].
  - destruct (Z.eqb_spec V 0) as [HV|HV]; cbn [bind]; [discriminate|].
    destruct (py_float V) as [v|e0] eqn:Hv; cbn [bind];
      [|intros E; inversion E; subst; exact (py_float_error unit _ _ Hv)].
    apply Hround, fdiv_not_nan; [assumption|].
    pose proof (of_Z_nonzero V HV) as Hnz. unfold py_float in Hv.
    destruct (of_Z V); inversion Hv; subst; assumption.
Qed.

(** X1.  Whatever the operation and the operand, [calculate] never stores a
    negative score in place of a non-negative one, and it changes nothing of
    the player but the score. *)
Theorem calculate_never_negative (p p' : Player) (op : Operation) (V : Z)
    (b : bool) :
  0 <= score p ->
  calculate p op V = Ok (p', b) ->
  0 <= score p' /\ pl_rect p' = pl_rect p /\ figure_x p' = figure_x p.
Proof.
  intros Hs Hc. split; [exact (calculate_score_nonneg _ _ _ _ _ Hs Hc)|].
  split; [exact (calculate_pl_rect _ _ _ _ _ Hc)|].
  unfold calculate in Hc.
  destruct (py_float (score p)); cbn [bind] in Hc; [|discriminate].
  destruct (match op with ADD => _ | _ => _ end) as [[r|]|];
    cbn [bind] in Hc; try discriminate.
  - destruct (py_round _); cbn [bind] in Hc; [|discriminate].
    injection Hc as <- _. reflexivity.
  - injection Hc as <- _. reflexivity.
Qed.

Lemma calculate_never_negative_witness :
  0 <= score (with_score new_Player 3)
  /\ calculate (with_score new_Player 3) SUBTRACT 5
     = Ok (with_score new_Player 0, false)
  /\ 0 <= score (with_score new_Player 0)
  /\ pl_rect (with_score new_Player 0) = pl_rect (with_score new_Player 3)
  /\ figure_x (with_score new_Player 0) = figure_x (with_score new_Player 3).
Proof.
  assert (H1 : 0 <= score (with_score new_Player 3)) by (cbn [score with_score]; lia).
  assert (H2 : calculate (with_score new_Player 3) SUBTRACT 5
               = Ok (with_score new_Player 0, false))
    by (vm_compute; reflexivity).
  split; [exact H1|]. split; [exact H2|].
  exact (calculate_never_negative _ _ _ _ _ H1 H2).
Defined.

(** X2.  [calculate] never raises [ValueError] (no NaN reaches [round]) nor
    [TypeError], and never exits: the only exception it can raise is
    [OverflowError]. *)
Theorem calculate_raises_only_overflow (p : Player) (op : Operation) (V : Z) :
  calculate p op V <> Raise ValueError
  /\ calculate p op V <> Raise SystemExit
  /\ calculate p op V <> Raise TypeError.
Proof.
  split; [|split]; intros H; apply calculate_error in H; discriminate.
Qed.

(** X3.  The score [calculate] stores is one [float] converts: on the new
    player, DIVIDE by 0 is the no-op, whatever the inputs were. *)
Theorem calculate_result_convertible (p p' : Player) (op : Operation) (V : Z)
    (b : bool) :
  calculate p op V = Ok (p', b) ->
  (exists f, py_float (score p') = Ok f)
  /\ calculate p' DIVIDE 0 = Ok (p', false).
Proof.
  intros H. destruct (calculate_score_convertible _ _ _ _ _ H) as [f Hf].
  split; [exists f; exact Hf|].
  unfold calculate. rewrite Hf. reflexivity.
Qed.

Lemma calculate_result_convertible_witness :
  calculate (with_score new_Player (2 ^ 1000)) MULTIPLY 4
  = Ok (with_score new_Player (2 ^ 1002), false)
  /\ (exists f, py_float (score (with_score new_Player (2 ^ 1002))) = Ok f)
  /\ calculate (with_score new_Player (2 ^ 1002)) DIVIDE 0
     = Ok (with_score new_Player (2 ^ 1002), false).
Proof.
  assert (H : calculate (with_score new_Player (2 ^ 1000)) MULTIPLY 4
              = Ok (with_score new_Player (2 ^ 1002), false))
    by (vm_compute; reflexivity).
  split; [exact H|].
  exact (calculate_result_convertible _ _ _ _ _ H).
Defined.

(** X4.  In the exact range ADD, SUBTRACT and MULTIPLY never give a penalty;
    DIVIDE gives one exactly when the operand is positive and does not
    divide the score. *)
Theorem penalty_only_from_division (p : Player) (op : Operation) (V : Z) :
  in_exact_range (score p) op V ->
  exists s' : Z,
    calculate p op V
    = Ok (with_score p s',
          match op with
          | DIVIDE => (0 <? V) && negb (score p mod V =? 0)
          | _ => false
          end).
Proof.
  intros H. rewrite (calculate_exact p op V H).
  destruct H as (_ & _ & _ & Hd).
  destruct op; cbn [exact_result fst snd]; try (eexists; reflexivity).
  specialize (Hd eq_refl).
  destruct (Z.ltb_spec V 0) as [Hn|Hn]; cbn [fst snd].
  - exists 0. replace (0 <? V) with false by (symmetry; apply Z.ltb_ge; lia).
    reflexivity.
  - exists (round_div (score p) V).
    replace (0 <? V) with true by (symmetry; apply Z.ltb_lt; lia).
    reflexivity.
Qed.

Lemma penalty_only_from_division_witness :
  in_exact_range (score (with_score new_Player 7)) DIVIDE 2
  /\ exists s' : Z,
       calculate (with_score new_Player 7) DIVIDE 2
       = Ok (with_score (with_score new_Player 7) s',
             (0 <? 2) && negb (score (with_score new_Player 7) mod 2 =? 0)).
Proof.
  assert (H : in_exact_range (score (with_score new_Player 7)) DIVIDE 2).
  { unfold in_exact_range. cbn [score with_score].
    repeat split; try lia; discriminate. }
  split; [exact H|].
  exact (penalty_only_from_division _ _ _ H).
Defined.

End Exceptions.

(** ** Timers, transition and landing *)

Section Scenes.

Lemma calculate_speeds_fields (g : Game) :
  let g' := snd (calculate_speeds g) in
  timer_slow_motion g' = count_down (timer_slow_motion g)
  /\ timer_rapid_fire g' = count_down (timer_rapid_fire g)
  /\ timer_ghost_mode g' = count_down (timer_ghost_mode g)
  /\ timer_inverted g' = count_down (timer_inverted g)
  /\ state g' = state g /\ player g' = player g /\ clouds g' = clouds g
  /\ powerups g' = powerups g /\ target g' = target g
  /\ timer_spawn_cloud g' = timer_spawn_cloud g
  /\ timer_spawn_powerup g' = timer_spawn_powerup g
  /\ current_difficulty_speed g' = current_difficulty_speed g
  /\ lander_y g' = lander_y g /\ next_id g' = next_id g.
Proof.
  destruct g as [st pl cl pu tg tc tp ds ts tgm ti tr ly ni].
  unfold calculate_speeds, count_down.
  cbv beta iota zeta delta
    [timer_slow_motion timer_rapid_fire timer_ghost_mode timer_inverted
     current_difficulty_speed set_timer_slow_motion set_timer_rapid_fire
     set_timer_ghost_mode set_timer_inverted state player clouds powerups
     target timer_spawn_cloud timer_spawn_powerup lander_y next_id].
  destruct (0 <? ts), (0 <? tr), (0 <? tgm), (0 <? ti);
    repeat split; reflexivity.
Qed.

Lemma count_down_iter (n : nat) (t : Z) :
  Nat.iter n count_down t = timer_after t n.
Proof.
  unfold timer_after. destruct (Z.ltb_spec 0 t) as [Ht|Ht].
  - induction n as [|n IH]; [change (Nat.iter 0 count_down t) with t; lia|].
    change (Nat.iter (S n) count_down t)
      with (count_down (Nat.iter n count_down t)).
    rewrite IH. unfold count_down.
    destruct (Z.ltb_spec 0 (Z.max 0 (t - Z.of_nat n))); lia.
  - induction n as [|n IH]; [reflexivity|].
    change (Nat.iter (S n) count_down t)
      with (count_down (Nat.iter n count_down t)).
    rewrite IH. unfold count_down.
    destruct (Z.ltb_spec 0 t); [lia|reflexivity].
Qed.

(** X10.  Each of the four effect timers goes down by one per frame and
    stops at zero: [n] speed calculations after it held [t > 0] it holds
    [max 0 (t - n)]. *)
Theorem effect_timers_count_down (n : nat) (g : Game) :
  let g' := Nat.iter n (fun g => snd (calculate_speeds g)) g in
  timer_slow_motion g' = timer_after (timer_slow_motion g) n
  /\ timer_rapid_fire g' = timer_after (timer_rapid_fire g) n
  /\ timer_ghost_mode g' = timer_after (timer_ghost_mode g) n
  /\ timer_inverted g' = timer_after (timer_inverted g) n.
Proof.
  cbv zeta. rewrite <- !count_down_iter.
  induction n as [|n IH]; [repeat split; reflexivity|].
  change (Nat.iter (S n) (fun g => snd (calculate_speeds g)) g)
    with (snd (calculate_speeds
                 (Nat.iter n (fun g => snd (calculate_speeds g)) g))).
  change (Nat.iter (S n) count_down) with
    (fun t => count_down (Nat.iter n count_down t)). cbv beta.
  destruct (calculate_speeds_fields
              (Nat.iter n (fun g => snd (calculate_speeds g)) g))
    as (E1 & E2 & E3 & E4 & _).
  destruct IH as (I1 & I2 & I3 & I4).
  rewrite E1, E2, E3, E4, I1, I2, I3, I4. repeat split; reflexivity.
Qed.

Lemma transition_frame_fields (g : Game) :
  let g' := transition_frame g in
  rx (pl_rect (player g')) = rx (pl_rect (player g)) + 10
  /\ ry (pl_rect (player g')) = ry (pl_rect (player g))
  /\ score (player g') = score (player g)
  /\ state g' = (if WIDTH <? rx (pl_rect (player g)) + 10
                 then LANDING_SCENE else state g)
  /\ clouds g' = clouds g
  /\ lander_y g' = lander_y g
  /\ figure_x (player g') = figure_x (player g).
Proof.
  destruct g as [st pl cl pu tg tc tp ds ts tgm ti tr ly ni].
  unfold transition_frame. cbn [player set_player pl_rect rect_left set_x rx].
  destruct (WIDTH <? rx (pl_rect pl) + 10); repeat split; reflexivity.
Qed.

Lemma frame_transition (env : Env) (g : Game) :
  ~ In QUIT (events env) -> state g = TRANSITION_TO_LANDING ->
  frame env g = Ok (transition_frame g).
Proof.
  intros Hq Hs. unfold frame.
  rewrite (process_events_flying env _ g Hq) by auto.
  cbn [bind]. rewrite Hs. reflexivity.
Qed.

Lemma Forall_repeat {A : Type} (P : A -> Prop) (a : A) (n : nat) :
  P a -> Forall P (repeat a n).
Proof.
  intros H. apply Forall_forall. intros x Hx.
  apply repeat_spec in Hx. subst x. exact H.
Qed.

(** X11.  In TRANSITION_TO_LANDING the ship advances 10 per frame, whatever
    the keys; from [x <= WIDTH] the state is LANDING_SCENE after exactly
    [(WIDTH - x) / 10 + 1] frames and not before, and the score is kept. *)
Theorem transition_reaches_landing (envs : list Env) (g : Game) :
  state g = TRANSITION_TO_LANDING ->
  Forall (fun env => ~ In QUIT (events env)) envs ->
  rx (pl_rect (player g)) <= WIDTH ->
  Z.of_nat (length envs) <= (WIDTH - rx (pl_rect (player g))) / 10 + 1 ->
  exists g',
    run_frames envs g = Ok g'
    /\ rx (pl_rect (player g'))
       = rx (pl_rect (player g)) + 10 * Z.of_nat (length envs)
    /\ state g'
       = (if WIDTH <? rx (pl_rect (player g)) + 10 * Z.of_nat (length envs)
          then LANDING_SCENE else TRANSITION_TO_LANDING)
    /\ score (player g') = score (player g).
Proof.
  revert g. induction envs as [|env envs IH]; intros g Hs Hq Hx Hn.
  - exists g. cbn [run_frames length Z.of_nat].
    replace (WIDTH <? _) with false by (symmetry; apply Z.ltb_ge; lia).
    repeat split; [lia|exact Hs].
  - inversion Hq as [|? ? Hq1 Hq2]; subst.
    cbn [run_frames]. rewrite (frame_transition env g Hq1 Hs). cbn [bind].
    destruct (transition_frame_fields g) as (Ex & _ & Esc & Est & _).
    cbv zeta in *.
    destruct envs as [|env' envs'].
    + exists (transition_frame g). cbn [run_frames length Z.of_nat].
      rewrite Hs in Est. change (10 * Z.of_nat 1) with 10.
      repeat split; assumption.
    + assert (Hlen : 2 <= Z.of_nat (length (env :: env' :: envs')))
        by (cbn [length]; lia).
      unfold WIDTH in *.
      assert (Hx' : rx (pl_rect (player g)) + 10 <= 1000)
        by (Z.div_mod_to_equations; lia).
      replace (1000 <? rx (pl_rect (player g)) + 10) with false in Est
        by (symmetry; apply Z.ltb_ge; lia).
      destruct (IH (transition_frame g)) as (g' & Hr & Hrx & Hst & Hsc).
      * rewrite Est. exact Hs.
      * exact Hq2.
      * rewrite Ex. exact Hx'.
      * rewrite Ex. cbn [length] in *. Z.div_mod_to_equations. lia.
      * exists g'. rewrite Hr. split; [reflexivity|].
        rewrite Hrx, Hst, Hsc, Ex, Esc.
        replace (rx (pl_rect (player g)) + 10
                 + 10 * Z.of_nat (length (env' :: envs')))
          with (rx (pl_rect (player g))
                + 10 * Z.of_nat (length (env :: env' :: envs')))
          by (cbn [length]; lia).
        repeat split; reflexivity.
Qed.

Lemma transition_reaches_landing_witness :
  state (set_state (init_game quiet_env) TRANSITION_TO_LANDING)
  = TRANSITION_TO_LANDING
  /\ Forall (fun env => ~ In QUIT (events env)) (repeat quiet_env 91)
  /\ rx (pl_rect (player (set_state (init_game quiet_env)
                            TRANSITION_TO_LANDING))) <= WIDTH
  /\ Z.of_nat (length (repeat quiet_env 91))
     <= (WIDTH - rx (pl_rect (player (set_state (init_game quiet_env)
                                        TRANSITION_TO_LANDING)))) / 10 + 1
  /\ exists g',
       run_frames (repeat quiet_env 91)
         (set_state (init_game quiet_env) TRANSITION_TO_LANDING) = Ok g'
       /\ rx (pl_rect (player g'))
          = rx (pl_rect (player (set_state (init_game quiet_env)
                                   TRANSITION_TO_LANDING)))
            + 10 * Z.of_nat (length (repeat quiet_env 91))
       /\ state g'
          = (if WIDTH <? rx (pl_rect (player (set_state (init_game quiet_env)
                                                TRANSITION_TO_LANDING)))
                         + 10 * Z.of_nat (length (repeat quiet_env 91))
             then LANDING_SCENE else TRANSITION_TO_LANDING)
       /\ score (player g')
          = score (player (set_state (init_game quiet_env)
                             TRANSITION_TO_LANDING)).
Proof.
  assert (H1 : state (set_state (init_game quiet_env) TRANSITION_TO_LANDING)
               = TRANSITION_TO_LANDING) by reflexivity.
  assert (H2 : Forall (fun env => ~ In QUIT (events env))
                 (repeat quiet_env 91))
    by (apply Forall_repeat; simpl; tauto).
  assert (H3 : rx (pl_rect (player (set_state (init_game quiet_env)
                                      TRANSITION_TO_LANDING))) <= WIDTH)
    by (vm_compute; discriminate).
  assert (H4 : Z.of_nat (length (repeat quiet_env 91))
               <= (WIDTH - rx (pl_rect (player (set_state
                                                  (init_game quiet_env)
                                                  TRANSITION_TO_LANDING))))
                  / 10 + 1)
    by (vm_compute; discriminate).
  repeat (split; [assumption|]).
  exact (transition_reaches_landing _ _ H1 H2 H3 H4).
Defined.

Lemma animate_landing_scene_fields (g : Game) :
  let g' := animate_landing_scene g in
  lander_y g'
  = (if lander_y g <? HEIGHT - 200 - 80 then lander_y g + 3
     else HEIGHT - 200 - 80)
  /\ figure_x (player g')
     = (if lander_y g <? HEIGHT - 200 - 80 then figure_x (player g)
        else if figure_x (player g) <? 250 then figure_x (player g) + 2
             else figure_x (player g))
  /\ state g' = state g
  /\ score (player g') = score (player g)
  /\ pl_rect (player g') = pl_rect (player g)
  /\ clouds g' = clouds g.
Proof.
  destruct g as [st pl cl pu tg tc tp ds ts tgm ti tr ly ni].
  unfold animate_landing_scene, animate_stick_figure.
  cbn [lander_y set_lander_y player].
  destruct (ly <? HEIGHT - 200 - 80).
  - repeat split; reflexivity.
  - change (600 - 350) with 250. destruct (figure_x pl <? 250);
      repeat split; reflexivity.
Qed.

Lemma frame_landing (env : Env) (g : Game) :
  idle env -> state g = LANDING_SCENE ->
  frame env g = Ok (animate_landing_scene g).
Proof.
  intros [Hq Hsp] Hs. unfold frame.
  rewrite (process_events_idle env _ g Hq Hsp).
  cbn [bind]. rewrite Hs. reflexivity.
Qed.

(** X12.  The landing scene comes to rest: after [frames_to_settle] idle
    frames the lander stands at [HEIGHT - 280] and the stick figure at its
    goal, and the state and the score are as they were. *)
Theorem landing_scene_settles (envs : list Env) (g : Game) :
  state g = LANDING_SCENE ->
  Forall idle envs ->
  frames_to_settle g <= Z.of_nat (length envs) ->
  exists g',
    run_frames envs g = Ok g'
    /\ lander_y g' = HEIGHT - 280
    /\ figure_x (player g') = figure_goal g
    /\ state g' = LANDING_SCENE
    /\ score (player g') = score (player g).
Proof.
  revert g. induction envs as [|env envs IH]; intros g Hs Hi Hn.
  - exists g. cbn [run_frames]. unfold frames_to_settle, figure_goal, HEIGHT in *.
    cbn [length Z.of_nat] in Hn.
    destruct (Z.eqb_spec (lander_y g) (700 - 280)) as [E|E];
      [|exfalso; Z.div_mod_to_equations; lia].
    repeat split; auto. Z.div_mod_to_equations. lia.
  - inversion Hi as [|? ? Hi1 Hi2]; subst.
    cbn [run_frames]. rewrite (frame_landing env g Hi1 Hs). cbn [bind].
    destruct (animate_landing_scene_fields g) as (Ey & Ef & Est & Esc & _).
    cbv zeta in *.
    destruct (IH (animate_landing_scene g)) as (g' & Hr & Hy & Hf & Hst & Hsc).
    + rewrite Est. exact Hs.
    + exact Hi2.
    + unfold frames_to_settle in *. rewrite Ey, Ef. cbn [length] in Hn.
      unfold HEIGHT in *.
      destruct (Z.ltb_spec (lander_y g) (700 - 200 - 80));
        [|destruct (Z.ltb_spec (figure_x (player g)) 250)];
        repeat match goal with
        | |- context [?a =? ?b] => destruct (Z.eqb_spec a b)
        | H : context [?a =? ?b] |- _ => destruct (Z.eqb_spec a b)
        end;
        Z.div_mod_to_equations; lia.
    + exists g'. rewrite Hr. split; [reflexivity|].
      rewrite Hy, Hf, Hst, Hsc, Esc. repeat split.
      unfold figure_goal. rewrite Ef. unfold HEIGHT.
      destruct (Z.ltb_spec (lander_y g) (700 - 200 - 80));
        [reflexivity|].
      destruct (Z.ltb_spec (figure_x (player g)) 250);
        Z.div_mod_to_equations; lia.
Qed.

Lemma landing_scene_settles_witness :
  state (set_state (init_game quiet_env) LANDING_SCENE) = LANDING_SCENE
  /\ Forall idle (repeat quiet_env 300)
  /\ frames_to_settle (set_state (init_game quiet_env) LANDING_SCENE)
     <= Z.of_nat (length (repeat quiet_env 300))
  /\ exists g',
       run_frames (repeat quiet_env 300)
         (set_state (init_game quiet_env) LANDING_SCENE) = Ok g'
       /\ lander_y g' = HEIGHT - 280
       /\ figure_x (player g')
          = figure_goal (set_state (init_game quiet_env) LANDING_SCENE)
       /\ state g' = LANDING_SCENE
       /\ score (player g')
          = score (player (set_state (init_game quiet_env) LANDING_SCENE)).
Proof.
  assert (H1 : state (set_state (init_game quiet_env) LANDING_SCENE)
               = LANDING_SCENE) by reflexivity.
  assert (H2 : Forall idle (repeat quiet_env 300))
    by (apply Forall_repeat; unfold idle; simpl; tauto).
  assert (H3 : frames_to_settle (set_state (init_game quiet_env) LANDING_SCENE)
               <= Z.of_nat (length (repeat quiet_env 300)))
    by (vm_compute; discriminate).
  repeat (split; [assumption|]).
  exact (landing_scene_settles _ _ H1 H2 H3).
Defined.

End Scenes.

(** ** Scrolling

    What [rect.x -= speed] stores for the positions and the speeds of a
    game, and the two loops of a frame object by object. *)

Section Scrolling.

Lemma scroll_check_all :
  forallb (fun s => forallb (scroll_check s) view_xs) effective_speeds = true.
Proof. vm_compute. reflexivity. Qed.

Lemma view_xs_In (x : Z) : -180 <= x <= 1300 -> In x view_xs.
Proof.
  intros H. unfold view_xs. apply in_map_iff.
  exists (Z.to_nat (x + 180)). split; [lia|].
  apply in_seq. lia.
Qed.

Lemma scrolled_in_view (x : Z) (speed : float) :
  In speed effective_speeds -> -180 <= x <= 1300 ->
  exists x', scrolled x speed = Ok x' /\ x - 18 <= x' <= x - 2.
Proof.
  intros Hs Hx. pose proof scroll_check_all as H.
  rewrite forallb_forall in H. specialize (H speed Hs).
  rewrite forallb_forall in H. specialize (H x (view_xs_In x Hx)).
  unfold scroll_check in H. unfold scrolled.
  destruct (rect_coordinate _) as [x'|]; [|discriminate].
  exists x'. split; [reflexivity|].
  apply andb_true_iff in H. destruct H as [H1 H2].
  apply Z.leb_le in H1, H2. lia.
Qed.

Lemma scrolled_12 (x : Z) :
  -180 <= x <= 1300 -> scrolled x (of_Z 12) = Ok (x - 12).
Proof.
  intros H. pose proof (scroll_int (mkRect x 0 0 0) 12) as E.
  cbn [rx] in E. unfold scroll in E. cbn [rx] in E. unfold scrolled.
  assert (H52 : 2 ^ 52 = 4503599627370496) by reflexivity.
  destruct (rect_coordinate _) as [x'|e].
  - cbn [bind] in E. unfold set_x in E. cbn [rx ry rw rh] in E.
    assert (E' : Ok (mkRect x' 0 0 0) = Ok (mkRect (x - 12) 0 0 0)).
    { apply E; unfold INT_MIN, INT_MAX; lia. }
    injection E' as ->. reflexivity.
  - cbn [bind] in E. exfalso.
    assert (E' : @Raise Rect e = Ok (set_x (mkRect x 0 0 0) (x - 12))).
    { apply E; unfold INT_MIN, INT_MAX; lia. }
    discriminate.
Qed.

Lemma Cloud_move_at (env : Env) (c : Cloud) (speed : float) (x : Z) :
  scrolled (rx (cl_rect c)) speed = Ok x ->
  Cloud_move c speed (bob env (cl_id c)) = Ok (cloud_at env c x).
Proof.
  unfold scrolled, Cloud_move, scroll. intros ->. reflexivity.
Qed.

Lemma PowerUp_move_at (pu : PowerUp) (speed : float) (x : Z) :
  scrolled (rx (pu_rect pu)) speed = Ok x ->
  PowerUp_move pu speed = Ok (powerup_at pu x).
Proof.
  unfold scrolled, PowerUp_move, scroll. intros ->. reflexivity.
Qed.

Lemma Cloud_move_cases (env : Env) (c : Cloud) (speed : float) :
  match Cloud_move c speed (bob env (cl_id c)) with
  | Ok c' => exists x, scrolled (rx (cl_rect c)) speed = Ok x
                       /\ c' = cloud_at env c x
  | Raise e => e = TypeError
  end.
Proof.
  unfold Cloud_move, scroll, scrolled.
  destruct (rect_coordinate _) as [x|e] eqn:E; cbn [bind].
  - exists x. split; reflexivity.
  - unfold rect_coordinate in E.
    destruct (fsub _ _); try (injection E as <-; reflexivity);
      destruct (_ && _); try discriminate; injection E as <-; reflexivity.
Qed.

Lemma PowerUp_move_cases (pu : PowerUp) (speed : float) :
  match PowerUp_move pu speed with
  | Ok pu' => exists x, scrolled (rx (pu_rect pu)) speed = Ok x
                        /\ pu' = powerup_at pu x
  | Raise e => e = TypeError
  end.
Proof.
  unfold PowerUp_move, scroll, scrolled.
  destruct (rect_coordinate _) as [x|e] eqn:E; cbn [bind].
  - exists x. split; reflexivity.
  - unfold rect_coordinate in E.
    destruct (fsub _ _); try (injection E as <-; reflexivity);
      destruct (_ && _); try discriminate; injection E as <-; reflexivity.
Qed.

Lemma map_fixed {A : Type} (f : A -> A) (l : list A) :
  (forall a, In a l -> f a = a) -> map f l = l.
Proof.
  induction l as [|a l IH]; intros H; cbn [map]; [reflexivity|].
  rewrite H by (left; reflexivity). rewrite IH; [reflexivity|].
  intros b Hb. apply H. right. exact Hb.
Qed.

(** Writing a moved object back by identity, and removing it. *)
Lemma store_cloud_split (c c' : Cloud) (kept rest : list Cloud) :
  NoDup (map cl_id (kept ++ c :: rest)) -> cl_id c' = cl_id c ->
  store_cloud c' (kept ++ c :: rest) = kept ++ c' :: rest.
Proof.
  intros Hn Hid. unfold store_cloud. rewrite map_app. cbn [map].
  rewrite Hid, Nat.eqb_refl.
  rewrite map_app in Hn. cbn [map] in Hn.
  pose proof (NoDup_remove_2 _ _ _ Hn) as Hnot.
  rewrite in_app_iff in Hnot.
  f_equal; [|f_equal];
    (apply map_fixed; intros a Ha;
     destruct (Nat.eqb_spec (cl_id a) (cl_id c)) as [E|]; [|reflexivity];
     exfalso; apply Hnot; rewrite <- E).
  - left. apply in_map. exact Ha.
  - right. apply in_map. exact Ha.
Qed.

Lemma store_powerup_split (c c' : PowerUp) (kept rest : list PowerUp) :
  NoDup (map pu_id (kept ++ c :: rest)) -> pu_id c' = pu_id c ->
  store_powerup c' (kept ++ c :: rest) = kept ++ c' :: rest.
Proof.
  intros Hn Hid. unfold store_powerup. rewrite map_app. cbn [map].
  rewrite Hid, Nat.eqb_refl.
  rewrite map_app in Hn. cbn [map] in Hn.
  pose proof (NoDup_remove_2 _ _ _ Hn) as Hnot.
  rewrite in_app_iff in Hnot.
  f_equal; [|f_equal];
    (apply map_fixed; intros a Ha;
     destruct (Nat.eqb_spec (pu_id a) (pu_id c)) as [E|]; [|reflexivity];
     exfalso; apply Hnot; rewrite <- E).
  - left. apply in_map. exact Ha.
  - right. apply in_map. exact Ha.
Qed.

Lemma remove_cloud_split (c : Cloud) (kept rest : list Cloud) :
  ~ In (cl_id c) (map cl_id kept) ->
  remove_cloud (cl_id c) (kept ++ c :: rest) = Ok (kept ++ rest).
Proof.
  induction kept as [|a kept IH]; intros Hn; cbn [app remove_cloud].
  - rewrite Nat.eqb_refl. reflexivity.
  - cbn [map In] in Hn.
    destruct (Nat.eqb_spec (cl_id a) (cl_id c)) as [E|_]; [tauto|].
    rewrite IH by tauto. reflexivity.
Qed.

Lemma remove_powerup_split (c : PowerUp) (kept rest : list PowerUp) :
  ~ In (pu_id c) (map pu_id kept) ->
  remove_powerup (pu_id c) (kept ++ c :: rest) = Ok (kept ++ rest).
Proof.
  induction kept as [|a kept IH]; intros Hn; cbn [app remove_powerup].
  - rewrite Nat.eqb_refl. reflexivity.
  - cbn [map In] in Hn.
    destruct (Nat.eqb_spec (pu_id a) (pu_id c)) as [E|_]; [tauto|].
    rewrite IH by tauto. reflexivity.
Qed.

Lemma remove_cloud_absent (id : nat) (l : list Cloud) :
  ~ In id (map cl_id l) -> remove_cloud id l = Raise ValueError.
Proof.
  induction l as [|a l IH]; intros Hn; cbn [remove_cloud]; [reflexivity|].
  cbn [map In] in Hn.
  destruct (Nat.eqb_spec (cl_id a) id) as [E|_]; [tauto|].
  rewrite IH by tauto. reflexivity.
Qed.

End Scrolling.

Section LoopShape.

Lemma score_cloud_fields (g g' : Game) (c : Cloud) :
  score_cloud g c = Ok g' ->
  powerups g' = powerups g /\ pl_rect (player g') = pl_rect (player g)
  /\ timer_ghost_mode g' = timer_ghost_mode g
  /\ timer_spawn_cloud g' = timer_spawn_cloud g
  /\ remove_cloud (cl_id c) (clouds g) = Ok (clouds g').
Proof.
  unfold score_cloud. intros H.
  destruct (calculate _ _ _) as [[p' b]|] eqn:Hcalc; cbn [bind] in H;
    [|discriminate].
  pose proof (calculate_pl_rect _ _ _ _ _ Hcalc) as Hrect.
  destruct g as [st pl cl pu tg tc tp ds ts tgm ti tr ly ni].
  game_fields.
  destruct (b && (tr =? 0)); game_fields;
    (destruct (remove_cloud (cl_id c) cl) as [l|]; cbn [bind] in H;
     [|discriminate]); injection H as <-; game_fields;
    destruct (score p' =? tg); game_fields; auto.
Qed.

Lemma process_cloud_shape (env : Env) (speed : float) (g g' : Game)
    (c : Cloud) (kept rest : list Cloud) :
  NoDup (map cl_id (kept ++ c :: rest)) ->
  clouds g = kept ++ c :: rest ->
  process_cloud env speed g c = Ok g' ->
  powerups g' = powerups g /\ pl_rect (player g') = pl_rect (player g)
  /\ timer_ghost_mode g' = timer_ghost_mode g
  /\ timer_spawn_cloud g' = timer_spawn_cloud g
  /\ exists x,
       scrolled (rx (cl_rect c)) speed = Ok x
       /\ ((clouds g' = kept ++ cloud_at env c x :: rest
            /\ (rect_right (cl_rect (cloud_at env c x)) <? 0) = false
            /\ (0 < timer_ghost_mode g
                \/ colliderect (pl_rect (player g))
                     (cl_rect (cloud_at env c x)) = false))
           \/ (clouds g' = kept ++ rest
               /\ ((colliderect (pl_rect (player g))
                      (cl_rect (cloud_at env c x)) = true
                    /\ timer_ghost_mode g <= 0)
                   \/ (rect_right (cl_rect (cloud_at env c x)) <? 0) = true))).
Proof.
  intros Hn Hc Hp. unfold process_cloud in Hp.
  pose proof (Cloud_move_cases env c speed) as M.
  destruct (Cloud_move _ _ _) as [c'|]; cbn [bind] in Hp; [|discriminate].
  destruct M as (x & Hx & ->). rewrite Hc in Hp.
  rewrite (store_cloud_split c) in Hp by (exact Hn || reflexivity).
  assert (Hnot : ~ In (cl_id (cloud_at env c x)) (map cl_id kept)).
  { rewrite map_app in Hn. cbn [map] in Hn.
    pose proof (NoDup_remove_2 _ _ _ Hn) as Hnot.
    rewrite in_app_iff in Hnot. cbn [cloud_at cl_id]. tauto. }
  assert (Hnot2 : ~ In (cl_id (cloud_at env c x)) (map cl_id (kept ++ rest))).
  { rewrite map_app in Hn. cbn [map] in Hn.
    pose proof (NoDup_remove_2 _ _ _ Hn) as Hnot2.
    rewrite map_app. exact Hnot2. }
  set (c' := cloud_at env c x) in *.
  set (g1 := set_clouds g (kept ++ c' :: rest)) in Hp.
  assert (F1 : powerups g1 = powerups g /\ player g1 = player g
               /\ timer_ghost_mode g1 = timer_ghost_mode g
               /\ timer_spawn_cloud g1 = timer_spawn_cloud g
               /\ clouds g1 = kept ++ c' :: rest)
    by (repeat split; reflexivity).
  destruct F1 as (P1 & P2 & P3 & P4 & P5).
  assert (Hoff : forall g2, cloud_offscreen g2 c' = Ok g' ->
            clouds g2 = kept ++ c' :: rest ->
            powerups g' = powerups g2 /\ player g' = player g2
            /\ timer_ghost_mode g' = timer_ghost_mode g2
            /\ timer_spawn_cloud g' = timer_spawn_cloud g2
            /\ ((clouds g' = kept ++ c' :: rest
                 /\ (rect_right (cl_rect c') <? 0) = false)
                \/ (clouds g' = kept ++ rest
                    /\ (rect_right (cl_rect c') <? 0) = true))).
  { intros g2 H2 Hc2. unfold cloud_offscreen in H2.
    destruct (rect_right _ <? 0).
    - rewrite Hc2, (remove_cloud_split c') in H2 by exact Hnot.
      cbn [bind] in H2. injection H2 as <-.
      repeat split; try reflexivity. right. split; reflexivity.
    - injection H2 as <-. repeat split; try reflexivity.
      left. split; [exact Hc2|reflexivity]. }
  unfold resolve_cloud, cloud_collision in Hp. rewrite P2, P3 in Hp.
  destruct (colliderect (pl_rect (player g)) (cl_rect c')) eqn:Hcol.
  - destruct (Z.ltb_spec 0 (timer_ghost_mode g)) as [Hg|Hg].
    + cbn [bind] in Hp.
      destruct (Hoff g1 Hp P5) as (Q1 & Q2 & Q3 & Q4 & Q5).
      rewrite Q1, Q2, Q3, Q4, P1, P2, P3, P4.
      repeat (split; [reflexivity|]).
      exists x. split; [exact Hx|].
      destruct Q5 as [[Q5 Q6]|[Q5 Q6]]; [left|right]; split; auto.
    + destruct (score_cloud g1 c') as [g2|] eqn:Hs; cbn [bind] in Hp;
        [|discriminate].
      destruct (score_cloud_fields _ _ _ Hs) as (S1 & S2 & S3 & S4 & S5).
      rewrite P5, (remove_cloud_split c') in S5 by exact Hnot.
      injection S5 as S5.
      unfold cloud_offscreen in Hp.
      destruct (rect_right _ <? 0).
      * rewrite <- S5, remove_cloud_absent in Hp by exact Hnot2.
        discriminate.
      * injection Hp as <-. rewrite S1, S2, S3, S4, P1, P2, P3, P4.
        repeat (split; [reflexivity|]).
        exists x. split; [exact Hx|]. right. split; [auto|].
        left. split; [exact Hcol|exact Hg].
  - cbn [bind] in Hp.
    destruct (Hoff g1 Hp P5) as (Q1 & Q2 & Q3 & Q4 & Q5).
    rewrite Q1, Q2, Q3, Q4, P1, P2, P3, P4.
    repeat (split; [reflexivity|]).
    exists x. split; [exact Hx|].
    destruct Q5 as [[Q5 Q6]|[Q5 Q6]]; [left|right]; split; auto.
Qed.

Lemma apply_powerup_keeps (g : Game) (t : PowerUpType) :
  powerups (apply_powerup g t) = powerups g
  /\ clouds (apply_powerup g t) = clouds g
  /\ player (apply_powerup g t) = player g
  /\ state (apply_powerup g t) = state g
  /\ timer_spawn_cloud (apply_powerup g t) = timer_spawn_cloud g
  /\ next_id (apply_powerup g t) = next_id g.
Proof. destruct t; repeat split; reflexivity. Qed.

Lemma process_powerup_shape (speed : float) (g g' : Game)
    (pu : PowerUp) (kept rest : list PowerUp) :
  NoDup (map pu_id (kept ++ pu :: rest)) ->
  powerups g = kept ++ pu :: rest ->
  process_powerup speed g pu = Ok g' ->
  clouds g' = clouds g /\ player g' = player g /\ state g' = state g
  /\ timer_spawn_cloud g' = timer_spawn_cloud g
  /\ exists x,
       scrolled (rx (pu_rect pu)) speed = Ok x
       /\ ((powerups g' = kept ++ powerup_at pu x :: rest
            /\ (rect_right (pu_rect (powerup_at pu x)) <? 0) = false
            /\ colliderect (pl_rect (player g))
                 (pu_rect (powerup_at pu x)) = false)
           \/ (powerups g' = kept ++ rest
               /\ (colliderect (pl_rect (player g))
                     (pu_rect (powerup_at pu x)) = true
                   \/ (rect_right (pu_rect (powerup_at pu x)) <? 0) = true))).
Proof.
  intros Hn Hc Hp. unfold process_powerup in Hp.
  pose proof (PowerUp_move_cases pu speed) as M.
  destruct (PowerUp_move _ _) as [c'|]; cbn [bind] in Hp; [|discriminate].
  destruct M as (x & Hx & ->). rewrite Hc in Hp.
  rewrite (store_powerup_split pu) in Hp by (exact Hn || reflexivity).
  assert (Hnot : ~ In (pu_id (powerup_at pu x)) (map pu_id kept)).
  { rewrite map_app in Hn. cbn [map] in Hn.
    pose proof (NoDup_remove_2 _ _ _ Hn) as Hnot.
    rewrite in_app_iff in Hnot. cbn [powerup_at pu_id]. tauto. }
  set (c' := powerup_at pu x) in *.
  set (g1 := set_powerups g (kept ++ c' :: rest)) in Hp.
  assert (F1 : clouds g1 = clouds g /\ player g1 = player g
               /\ state g1 = state g
               /\ timer_spawn_cloud g1 = timer_spawn_cloud g
               /\ powerups g1 = kept ++ c' :: rest)
    by (repeat split; reflexivity).
  destruct F1 as (P1 & P2 & P3 & P4 & P5).
  unfold resolve_powerup in Hp. rewrite P2 in Hp.
  destruct (colliderect (pl_rect (player g)) (pu_rect c')) eqn:Hcol.
  - destruct (apply_powerup_keeps g1 (pu_type c'))
      as (A1 & A2 & A3 & A4 & A5 & A6).
    rewrite A1, P5, (remove_powerup_split c') in Hp by exact Hnot.
    cbn [bind] in Hp. injection Hp as <-.
    clear A1 A2 A3 A4 A5 A6. destruct (pu_type pu).
    all: repeat (split; [reflexivity|]).
    all: exists x; (split; [exact Hx|]);
      right; (split; [reflexivity|]); left; exact Hcol.
  - destruct (rect_right (pu_rect c') <? 0) eqn:Hr.
    + rewrite P5, (remove_powerup_split c') in Hp by exact Hnot.
      cbn [bind] in Hp. injection Hp as <-.
      repeat (split; [reflexivity|]).
      exists x. split; [exact Hx|]. right. split; [reflexivity|]. right.
      exact Hr.
    + injection Hp as <-. repeat (split; [reflexivity|]).
      exists x. split; [exact Hx|]. left.
      split; [reflexivity|]. split; [exact Hr|exact Hcol].
Qed.

Lemma cloud_loop_shape (env : Env) (speed : float) :
  forall (rest kept : list Cloud) (g g' : Game),
    NoDup (map cl_id (kept ++ rest)) ->
    clouds g = kept ++ rest ->
    for_each (process_cloud env speed) rest g = Ok g' ->
    powerups g' = powerups g /\ pl_rect (player g') = pl_rect (player g)
    /\ timer_ghost_mode g' = timer_ghost_mode g
    /\ timer_spawn_cloud g' = timer_spawn_cloud g
    /\ exists kept',
         clouds g' = kept ++ kept'
         /\ (forall c', In c' kept' ->
               exists c x, In c rest
                 /\ scrolled (rx (cl_rect c)) speed = Ok x
                 /\ c' = cloud_at env c x
                 /\ (rect_right (cl_rect c') <? 0) = false)
         /\ (forall c x, In c rest ->
               scrolled (rx (cl_rect c)) speed = Ok x ->
               (0 < timer_ghost_mode g
                \/ colliderect (pl_rect (player g))
                     (cl_rect (cloud_at env c x)) = false) ->
               (rect_right (cl_rect (cloud_at env c x)) <? 0) = false ->
               In (cloud_at env c x) kept').
Proof.
  induction rest as [|c rest IH]; intros kept g g' Hn Hc Hf;
    cbn [for_each] in Hf.
  - injection Hf as <-. repeat (split; [reflexivity|]).
    exists []. split; [exact Hc|]. split; intros; contradiction.
  - destruct (process_cloud env speed g c) as [g1|] eqn:Hp;
      cbn [bind] in Hf; [|discriminate].
    destruct (process_cloud_shape env speed g g1 c kept rest Hn Hc Hp)
      as (P1 & P2 & P3 & P4 & x & Hx & Hsh).
    destruct Hsh as [(S1 & S2 & S3)|(S1 & S2)].
    + assert (Hn1 : NoDup (map cl_id ((kept ++ [cloud_at env c x]) ++ rest))).
      { rewrite <- app_assoc. cbn [app].
        rewrite map_app in *. cbn [map] in *. exact Hn. }
      assert (Hc1 : clouds g1 = (kept ++ [cloud_at env c x]) ++ rest)
        by (rewrite <- app_assoc; exact S1).
      destruct (IH _ g1 g' Hn1 Hc1 Hf)
        as (Q1 & Q2 & Q3 & Q4 & kept' & K1 & K2 & K3).
      rewrite Q1, Q2, Q3, Q4, P1, P2, P3, P4.
      repeat (split; [reflexivity|]).
      exists (cloud_at env c x :: kept').
      split; [rewrite K1, <- app_assoc; reflexivity|]. split.
      * intros c' [<-|Hin].
        -- exists c, x. split; [left; reflexivity|]. auto.
        -- destruct (K2 c' Hin) as (c0 & x0 & H0 & H1 & H2 & H3).
           exists c0, x0. split; [right; exact H0|]. auto.
      * intros c0 x0 [<-|Hin] Hx0 Hg0 Hr0.
        -- left. rewrite Hx in Hx0. injection Hx0 as <-. reflexivity.
        -- right. apply K3; auto. rewrite P2, P3. exact Hg0.
    + assert (Hn1 : NoDup (map cl_id (kept ++ rest))).
      { rewrite map_app in *. cbn [map] in Hn.
        apply NoDup_remove_1 in Hn. exact Hn. }
      destruct (IH _ g1 g' Hn1 S1 Hf)
        as (Q1 & Q2 & Q3 & Q4 & kept' & K1 & K2 & K3).
      rewrite Q1, Q2, Q3, Q4, P1, P2, P3, P4.
      repeat (split; [reflexivity|]).
      exists kept'. split; [exact K1|]. split.
      * intros c' Hin.
        destruct (K2 c' Hin) as (c0 & x0 & H0 & H1 & H2 & H3).
        exists c0, x0. split; [right; exact H0|]. auto.
      * intros c0 x0 [<-|Hin] Hx0 Hg0 Hr0.
        -- exfalso. rewrite Hx in Hx0. injection Hx0 as <-.
           destruct S2 as [[S2 S3]|S2]; [|congruence].
           destruct Hg0 as [Hg0|Hg0]; [lia|congruence].
        -- apply K3; auto. rewrite P2, P3. exact Hg0.
Qed.

Lemma powerup_loop_shape (speed : float) :
  forall (rest kept : list PowerUp) (g g' : Game),
    NoDup (map pu_id (kept ++ rest)) ->
    powerups g = kept ++ rest ->
    for_each (process_powerup speed) rest g = Ok g' ->
    clouds g' = clouds g /\ player g' = player g /\ state g' = state g
    /\ timer_spawn_cloud g' = timer_spawn_cloud g
    /\ exists kept',
         powerups g' = kept ++ kept'
         /\ (forall c', In c' kept' ->
               exists c x, In c rest
                 /\ scrolled (rx (pu_rect c)) speed = Ok x
                 /\ c' = powerup_at c x
                 /\ (rect_right (pu_rect c') <? 0) = false)
         /\ (forall c x, In c rest ->
               scrolled (rx (pu_rect c)) speed = Ok x ->
               colliderect (pl_rect (player g))
                 (pu_rect (powerup_at c x)) = false ->
               (rect_right (pu_rect (powerup_at c x)) <? 0) = false ->
               In (powerup_at c x) kept').
Proof.
  induction rest as [|c rest IH]; intros kept g g' Hn Hc Hf;
    cbn [for_each] in Hf.
  - injection Hf as <-. repeat (split; [reflexivity|]).
    exists []. split; [exact Hc|]. split; intros; contradiction.
  - destruct (process_powerup speed g c) as [g1|] eqn:Hp;
      cbn [bind] in Hf; [|discriminate].
    destruct (process_powerup_shape speed g g1 c kept rest Hn Hc Hp)
      as (P1 & P2 & P3 & P4 & x & Hx & Hsh).
    destruct Hsh as [(S1 & S2 & S3)|(S1 & S2)].
    + assert (Hn1 : NoDup (map pu_id ((kept ++ [powerup_at c x]) ++ rest))).
      { rewrite <- app_assoc. cbn [app].
        rewrite map_app in *. cbn [map] in *. exact Hn. }
      assert (Hc1 : powerups g1 = (kept ++ [powerup_at c x]) ++ rest)
        by (rewrite <- app_assoc; exact S1).
      destruct (IH _ g1 g' Hn1 Hc1 Hf)
        as (Q1 & Q2 & Q3 & Q4 & kept' & K1 & K2 & K3).
      rewrite Q1, Q2, Q3, Q4, P1, P2, P3, P4.
      repeat (split; [reflexivity|]).
      exists (powerup_at c x :: kept').
      split; [rewrite K1, <- app_assoc; reflexivity|]. split.
      * intros c' [<-|Hin].
        -- exists c, x. split; [left; reflexivity|]. auto.
        -- destruct (K2 c' Hin) as (c0 & x0 & H0 & H1 & H2 & H3).
           exists c0, x0. split; [right; exact H0|]. auto.
      * intros c0 x0 [<-|Hin] Hx0 Hg0 Hr0.
        -- left. rewrite Hx in Hx0. injection Hx0 as <-. reflexivity.
        -- right. apply K3; auto. rewrite P2. exact Hg0.
    + assert (Hn1 : NoDup (map pu_id (kept ++ rest))).
      { rewrite map_app in *. cbn [map] in Hn.
        apply NoDup_remove_1 in Hn. exact Hn. }
      destruct (IH _ g1 g' Hn1 S1 Hf)
        as (Q1 & Q2 & Q3 & Q4 & kept' & K1 & K2 & K3).
      rewrite Q1, Q2, Q3, Q4, P1, P2, P3, P4.
      repeat (split; [reflexivity|]).
      exists kept'. split; [exact K1|]. split.
      * intros c' Hin.
        destruct (K2 c' Hin) as (c0 & x0 & H0 & H1 & H2 & H3).
        exists c0, x0. split; [right; exact H0|]. auto.
      * intros c0 x0 [<-|Hin] Hx0 Hg0 Hr0.
        -- exfalso. rewrite Hx in Hx0. injection Hx0 as <-.
           destruct S2 as [S2|S2]; congruence.
        -- apply K3; auto. rewrite P2. exact Hg0.
Qed.

End LoopShape.

(** ** What every reachable game satisfies *)

Section WellFormed.

Lemma difficulty_speeds_base : In (of_Z BASE_SCROLL_SPEED) difficulty_speeds.
Proof. left. reflexivity. Qed.

Lemma difficulty_speeds_speed_up (d : float) :
  In d difficulty_speeds -> In (speed_up d) difficulty_speeds.
Proof.
  intros H. unfold difficulty_speeds in H. cbn [map seq] in H.
  repeat (destruct H as [<- | H];
          [vm_compute; tauto|]).
  destruct H.
Qed.

Lemma difficulty_speeds_finite (d : float) :
  In d difficulty_speeds ->
  is_finite d /\ is_finite (fmul d (literal 5 10)).
Proof.
  intros H. unfold difficulty_speeds in H. cbn [map seq] in H.
  repeat (destruct H as [<- | H]; [vm_compute; tauto|]).
  destruct H.
Qed.

Lemma difficulty_speeds_bounds (d : float) :
  In d difficulty_speeds ->
  is_finite d /\ flt d (of_Z BASE_SCROLL_SPEED) = false
  /\ flt (of_Z 18) d = false.
Proof.
  intros H. unfold difficulty_speeds in H. cbn [map seq] in H.
  repeat (destruct H as [<- | H]; [vm_compute; tauto|]).
  destruct H.
Qed.

Lemma cloud_ok_mono (n m : nat) (c : Cloud) :
  (n <= m)%nat -> cloud_ok n c -> cloud_ok m c.
Proof. unfold cloud_ok. intros ? (? & ?). split; [lia|assumption]. Qed.

Lemma powerup_ok_mono (n m : nat) (c : PowerUp) :
  (n <= m)%nat -> powerup_ok n c -> powerup_ok m c.
Proof. unfold powerup_ok. intros ? (? & ?). split; [lia|assumption]. Qed.

Lemma Forall_cloud_ok_ids (n : nat) (l : list Cloud) :
  Forall (cloud_ok n) l -> Forall (fun i => (i < n)%nat) (map cl_id l).
Proof.
  intros H. apply Forall_map. eapply Forall_impl; [|exact H].
  intros c (? & _). assumption.
Qed.

Lemma Forall_powerup_ok_ids (n : nat) (l : list PowerUp) :
  Forall (powerup_ok n) l -> Forall (fun i => (i < n)%nat) (map pu_id l).
Proof.
  intros H. apply Forall_map. eapply Forall_impl; [|exact H].
  intros c (? & _). assumption.
Qed.

Lemma NoDup_app_fresh (l : list nat) (n : nat) (k : nat) :
  NoDup l -> Forall (fun i => (i < n)%nat) l ->
  NoDup (l ++ map (fun j => (n + j)%nat) (seq 0 k)).
Proof.
  intros Hl Hb. induction l as [|a l IH]; cbn [app].
  - apply Injective_map_NoDup; [|apply seq_NoDup].
    intros x y. lia.
  - inversion Hl; subst. inversion Hb; subst. constructor; [|auto].
    rewrite in_app_iff. intros [F|F]; [contradiction|].
    apply in_map_iff in F. destruct F as (j & Hj & _). lia.
Qed.

Lemma lane_cloud_ok (env : Env) (x : Z) (g : Game) (i : nat) (n : nat) :
  (next_id g + i < n)%nat -> cloud_ok n (lane_cloud env x g i).
Proof.
  intros Hn. destruct (lane_cloud_spawned env x g i) as (_ & Hw & Hh & _ & Hv & Hm & _).
  split; [exact Hn|]. auto.
Qed.

Lemma spawn_cloud_wall_ok (env : Env) (x : Z) (g : Game) :
  game_ok g -> game_ok (spawn_cloud_wall env x g).
Proof.
  intros [H1 H2 H3 H4 H5 H6 H7 H8 H9 H10 H11].
  rewrite spawn_cloud_wall_eq.
  constructor; game_fields; auto.
  - apply Forall_app. split.
    + eapply Forall_impl; [|exact H8]. intros c. apply cloud_ok_mono. lia.
    + repeat (apply Forall_cons; [apply lane_cloud_ok; lia|]). apply Forall_nil.
  - rewrite map_app.
    replace (map cl_id [lane_cloud env x g 0; lane_cloud env x g 1;
                        lane_cloud env x g 2])
      with (map (fun j => (next_id g + j)%nat) (seq 0 3)) by reflexivity.
    apply NoDup_app_fresh; [assumption|].
    apply Forall_cloud_ok_ids. assumption.
  - eapply Forall_impl; [|exact H10]. intros c. apply powerup_ok_mono. lia.
Qed.

Lemma spawn_powerup_ok (env : Env) (g : Game) :
  game_ok g -> game_ok (spawn_powerup env g).
Proof.
  intros [H1 H2 H3 H4 H5 H6 H7 H8 H9 H10 H11].
  unfold spawn_powerup. cbv zeta.
  constructor; game_fields; auto.
  - eapply Forall_impl; [|exact H8]. intros c. apply cloud_ok_mono. lia.
  - apply Forall_app. split.
    + eapply Forall_impl; [|exact H10]. intros c. apply powerup_ok_mono. lia.
    + apply Forall_cons; [|apply Forall_nil].
      unfold powerup_ok, new_PowerUp. cbn. repeat split; lia.
  - rewrite map_app. cbn [map new_PowerUp pu_id].
    replace [next_id g] with (map (fun j => (next_id g + j)%nat) (seq 0 1))
      by (cbn; f_equal; lia).
    apply NoDup_app_fresh; [assumption|].
    apply Forall_powerup_ok_ids. assumption.
Qed.

Lemma game_ok_set_timer_spawn_cloud (g : Game) (tc : Z) :
  0 <= tc <= BASE_CLOUD_FREQ -> game_ok g ->
  game_ok (set_timer_spawn_cloud g tc).
Proof.
  intros Hc [H1 H2 H3 H4 H5 H6 H7 H8 H9 H10 H11].
  constructor; game_fields; auto.
  unfold timers_in_range in *. game_fields. intuition.
Qed.

Lemma game_ok_set_timer_spawn_powerup (g : Game) (tp : Z) :
  0 <= tp <= POWERUP_FREQUENCY -> game_ok g ->
  game_ok (set_timer_spawn_powerup g tp).
Proof.
  intros Hc [H1 H2 H3 H4 H5 H6 H7 H8 H9 H10 H11].
  constructor; game_fields; auto.
  unfold timers_in_range in *. game_fields. intuition.
Qed.

Lemma spawn_clouds_tick_ok (env : Env) (freq : Z) (g : Game) :
  0 <= freq <= BASE_CLOUD_FREQ ->
  game_ok g -> game_ok (spawn_clouds_tick env freq g).
Proof.
  intros Hf Hg. unfold spawn_clouds_tick.
  change (timer_spawn_cloud (set_timer_spawn_cloud g (timer_spawn_cloud g + 1)))
    with (timer_spawn_cloud g + 1).
  pose proof (ok_timers g Hg) as (_ & _ & _ & _ & Hc & _).
  destruct (Z.ltb_spec freq (timer_spawn_cloud g + 1)).
  - pose proof (spawn_cloud_wall_ok env 0 g Hg) as Hw.
    rewrite spawn_cloud_wall_eq in *.
    destruct Hw as [H1 H2 H3 H4 H5 H6 H7 H8 H9 H10 H11].
    constructor; game_fields; auto.
    unfold timers_in_range, BASE_CLOUD_FREQ in *. game_fields. intuition lia.
  - apply game_ok_set_timer_spawn_cloud; [lia|exact Hg].
Qed.

Lemma spawn_powerups_tick_ok (env : Env) (g : Game) :
  game_ok g -> game_ok (spawn_powerups_tick env g).
Proof.
  intros Hg. unfold spawn_powerups_tick.
  change (timer_spawn_powerup
            (set_timer_spawn_powerup g (timer_spawn_powerup g + 1)))
    with (timer_spawn_powerup g + 1).
  pose proof (ok_timers g Hg) as (_ & _ & _ & _ & _ & Hc).
  destruct (Z.ltb_spec POWERUP_FREQUENCY (timer_spawn_powerup g + 1)).
  - pose proof (spawn_powerup_ok env g Hg) as Hw.
    unfold spawn_powerup in *. cbv zeta in *.
    destruct Hw as [H1 H2 H3 H4 H5 H6 H7 H8 H9 H10 H11].
    constructor; game_fields; auto.
    unfold timers_in_range, POWERUP_FREQUENCY in *. game_fields. intuition lia.
  - apply game_ok_set_timer_spawn_powerup; [lia|exact Hg].
Qed.

Lemma spawners_ok (env : Env) (freq : Z) (g : Game) :
  0 <= freq <= BASE_CLOUD_FREQ ->
  game_ok g -> game_ok (spawners env freq g).
Proof.
  intros Hf Hg. unfold spawners.
  apply spawn_powerups_tick_ok, spawn_clouds_tick_ok; assumption.
Qed.

Lemma movement_ok (env : Env) (g : Game) :
  game_ok g -> game_ok (movement env g).
Proof.
  intros [H1 H2 H3 H4 H5 H6 H7 H8 H9 H10 H11].
  destruct (movement_fields env g)
    as (E1 & E2 & E3 & E4 & E5 & E6 & E7 & E8 & E9 & E10 & E11 & E12 & E13).
  destruct (movement_player env g H4 H5)
    as (M1 & M2 & M3 & M4 & M5 & M6 & M7).
  cbv zeta in *.
  constructor; rewrite ?E1, ?E2, ?E3, ?E4, ?E7, ?E13, ?M3, ?M5; auto.
  unfold timers_in_range in *.
  rewrite E5, E6, E8, E9, E10, E11. exact H6.
Qed.

Lemma count_down_range (t b : Z) : 0 <= t <= b -> 0 <= count_down t <= b.
Proof. unfold count_down. destruct (Z.ltb_spec 0 t); lia. Qed.

Lemma calculate_speeds_ok (g : Game) :
  game_ok g -> game_ok (snd (calculate_speeds g)).
Proof.
  intros [H1 H2 H3 H4 H5 H6 H7 H8 H9 H10 H11].
  destruct (calculate_speeds_fields g)
    as (E1 & E2 & E3 & E4 & E5 & E6 & E7 & E8 & E9 & E10 & E11 & E12 & E13 & E14).
  cbv zeta in *.
  constructor; rewrite ?E5, ?E6, ?E7, ?E8, ?E9, ?E12, ?E14; auto.
  unfold timers_in_range in *. rewrite E1, E2, E3, E4, E10, E11.
  destruct H6 as (T1 & T2 & T3 & T4 & T5 & T6).
  pose proof (count_down_range _ _ T1). pose proof (count_down_range _ _ T2).
  pose proof (count_down_range _ _ T3). pose proof (count_down_range _ _ T4).
  tauto.
Qed.

Lemma difficulty_speeds_effective (d : float) :
  In d difficulty_speeds ->
  In d effective_speeds /\ In (fmul d (literal 5 10)) effective_speeds.
Proof.
  unfold effective_speeds. intros H. rewrite !in_app_iff. split.
  - left. exact H.
  - right. left. apply in_map_iff. exists d. split; [reflexivity|exact H].
Qed.

Lemma rapid_speed_effective : In (of_Z 12) effective_speeds.
Proof.
  unfold effective_speeds. rewrite !in_app_iff. right. right. left.
  reflexivity.
Qed.

Lemma calculate_speeds_outputs (g : Game) :
  In (current_difficulty_speed g) difficulty_speeds ->
  In (fst (fst (calculate_speeds g))) effective_speeds
  /\ 0 <= snd (fst (calculate_speeds g)) <= BASE_CLOUD_FREQ.
Proof.
  intros Hd. destruct (difficulty_speeds_effective _ Hd) as [F1 F2].
  destruct g as [st pl cl pu tg tc tp ds ts tgm ti tr ly ni].
  cbv beta iota zeta delta
    [calculate_speeds fst snd
     timer_slow_motion timer_rapid_fire timer_ghost_mode timer_inverted
     current_difficulty_speed set_timer_slow_motion set_timer_rapid_fire
     set_timer_ghost_mode set_timer_inverted state player clouds powerups
     target timer_spawn_cloud timer_spawn_powerup lander_y next_id] in *.
  destruct (0 <? ts), (0 <? tr), (0 <? tgm), (0 <? ti);
    cbv beta iota zeta delta [fst snd];
    unfold BASE_CLOUD_FREQ; (split; [|lia]);
    try assumption; exact rapid_speed_effective.
Qed.

Lemma remove_cloud_sub (id : nat) (l : list Cloud) :
  In id (map cl_id l) ->
  exists l',
    remove_cloud id l = Ok l'
    /\ (forall P : Cloud -> Prop, Forall P l -> Forall P l')
    /\ (NoDup (map cl_id l) -> NoDup (map cl_id l'))
    /\ (forall id', id' <> id -> In id' (map cl_id l) ->
                    In id' (map cl_id l')).
Proof.
  intros H. destruct (remove_cloud_present id l H)
    as (l1 & c & l2 & -> & Hc & _ & Hr).
  exists (l1 ++ l2). split; [exact Hr|]. repeat split.
  - intros P HP. apply Forall_app in HP. destruct HP as [H1 H2].
    inversion H2; subst. apply Forall_app. split; assumption.
  - rewrite !map_app. cbn [map]. apply NoDup_remove_1.
  - intros id' Hne. rewrite !map_app, !in_app_iff. cbn [map In].
    intros [?|[?|?]]; auto. congruence.
Qed.

Lemma remove_powerup_sub (id : nat) (l : list PowerUp) :
  In id (map pu_id l) ->
  exists l',
    remove_powerup id l = Ok l'
    /\ (forall P : PowerUp -> Prop, Forall P l -> Forall P l')
    /\ (NoDup (map pu_id l) -> NoDup (map pu_id l'))
    /\ (forall id', id' <> id -> In id' (map pu_id l) ->
                    In id' (map pu_id l')).
Proof.
  intros H. destruct (remove_powerup_present id l H)
    as (l1 & c & l2 & -> & Hc & _ & Hr).
  exists (l1 ++ l2). split; [exact Hr|]. repeat split.
  - intros P HP. apply Forall_app in HP. destruct HP as [H1 H2].
    inversion H2; subst. apply Forall_app. split; assumption.
  - rewrite !map_app. cbn [map]. apply NoDup_remove_1.
  - intros id' Hne. rewrite !map_app, !in_app_iff. cbn [map In].
    intros [?|[?|?]]; auto. congruence.
Qed.

Lemma store_powerup_Forall (P : PowerUp -> Prop) (c' : PowerUp)
    (l : list PowerUp) :
  P c' -> Forall P l -> Forall P (store_powerup c' l).
Proof.
  intros Hc Hl. unfold store_powerup. apply Forall_map.
  eapply Forall_impl; [|exact Hl]. intros a Ha.
  destruct (Nat.eqb _ _); assumption.
Qed.

Lemma scroll_cases (r : Rect) (speed : float) :
  In speed effective_speeds -> -180 <= rx r <= 1300 ->
  exists x, scroll r speed = Ok (set_x r x) /\ rx r - 18 <= x <= rx r - 2.
Proof.
  intros Hs Hx. destruct (scrolled_in_view _ _ Hs Hx) as (x & E & B).
  exists x. unfold scroll. unfold scrolled in E. rewrite E.
  split; [reflexivity|exact B].
Qed.

Lemma game_ok_set_powerups (g : Game) (l : list PowerUp) :
  game_ok g -> Forall (powerup_ok (next_id g)) l -> NoDup (map pu_id l) ->
  game_ok (set_powerups g l).
Proof.
  intros [H1 H2 H3 H4 H5 H6 H7 H8 H9 H10 H11] Hl Hn.
  constructor; game_fields; auto.
Qed.

Lemma game_ok_set_clouds (g : Game) (l : list Cloud) :
  game_ok g -> Forall (cloud_ok (next_id g)) l -> NoDup (map cl_id l) ->
  game_ok (set_clouds g l).
Proof.
  intros [H1 H2 H3 H4 H5 H6 H7 H8 H9 H10 H11] Hl Hn.
  constructor; game_fields; auto.
Qed.

Lemma apply_powerup_ok (g : Game) (t : PowerUpType) :
  game_ok g -> game_ok (apply_powerup g t).
Proof.
  intros [H1 H2 H3 H4 H5 H6 H7 H8 H9 H10 H11].
  destruct t; unfold apply_powerup; constructor; game_fields; auto;
    try (unfold timers_in_range in *; game_fields; intuition lia).
  apply difficulty_speeds_base.
Qed.

Lemma apply_powerup_fields (g : Game) (t : PowerUpType) :
  powerups (apply_powerup g t) = powerups g
  /\ next_id (apply_powerup g t) = next_id g.
Proof. destruct t; split; reflexivity. Qed.

Lemma process_powerup_step (speed : float) (g : Game) (pu : PowerUp) :
  In speed effective_speeds -> game_inv g -> game_ok g ->
  powerup_ok (next_id g) pu -> powerup_in_view pu ->
  In (pu_id pu) (map pu_id (powerups g)) ->
  safe (fun g' =>
          game_inv g' /\ game_ok g' /\ next_id g' = next_id g
          /\ (forall id, id <> pu_id pu -> In id (map pu_id (powerups g)) ->
                         In id (map pu_id (powerups g'))))
       (process_powerup speed g pu).
Proof.
  intros Hsp Hinv Hok Hpu Hview Hin.
  assert (Hv : -180 <= rx (pu_rect pu) <= 1300)
    by (unfold powerup_in_view in Hview; lia).
  destruct (scroll_cases (pu_rect pu) speed Hsp Hv) as (x & Hsc & _).
  destruct (process_powerup speed g pu) as [g'|e] eqn:Hp; unfold safe.
  - split; [exact (process_powerup_inv _ _ _ _ Hinv Hp)|].
    unfold process_powerup, PowerUp_move in Hp.
    rewrite Hsc in Hp. cbn [bind] in Hp.
    set (pu' := mkPowerUp _ _ _ _ _) in Hp.
    assert (Hpu' : powerup_ok (next_id g) pu')
      by (destruct Hpu as (? & ? & ?); repeat split; assumption).
    set (g1 := set_powerups g (store_powerup pu' (powerups g))) in Hp.
    assert (Hg1 : game_ok g1).
    { apply game_ok_set_powerups; [assumption| |].
      - apply store_powerup_Forall; [assumption|apply (ok_powerups g Hok)].
      - rewrite store_powerup_ids. apply (ok_powerup_ids g Hok). }
    assert (Hids : map pu_id (powerups g1) = map pu_id (powerups g))
      by (apply store_powerup_ids).
    assert (Hrem : forall g2, game_ok g2 -> powerups g2 = powerups g1 ->
                     next_id g2 = next_id g ->
                     (l <- remove_powerup (pu_id pu') (powerups g2) ;;
                      Ok (set_powerups g2 l)) = Ok g' ->
                     game_ok g' /\ next_id g' = next_id g
                     /\ (forall id, id <> pu_id pu ->
                           In id (map pu_id (powerups g)) ->
                           In id (map pu_id (powerups g')))).
    { intros g2 Hg2 Hp2 Hn2 Hr. rewrite Hp2 in Hr.
      destruct (remove_powerup_sub (pu_id pu') (powerups g1))
        as (l' & Hl' & HF & HN & HI);
        [rewrite Hids; exact Hin|].
      rewrite Hl' in Hr. cbn [bind] in Hr. injection Hr as <-.
      split; [|split].
      - apply game_ok_set_powerups; [assumption| |].
        + apply HF. rewrite Hn2, <- Hp2. rewrite <- Hn2.
          apply (ok_powerups g2 Hg2).
        + apply HN. rewrite <- Hp2. apply (ok_powerup_ids g2 Hg2).
      - cbn [set_powerups next_id]. exact Hn2.
      - intros id Hne Hid. cbn [set_powerups powerups].
        apply HI; [exact Hne|]. rewrite Hids. exact Hid. }
    unfold resolve_powerup in Hp.
    destruct (colliderect _ _).
    + apply (Hrem (apply_powerup g1 (pu_type pu'))).
      * apply apply_powerup_ok, Hg1.
      * apply apply_powerup_fields.
      * rewrite (proj2 (apply_powerup_fields _ _)). reflexivity.
      * exact Hp.
    + destruct (rect_right _ <? 0).
      * apply (Hrem g1); auto.
      * injection Hp as <-. split; [exact Hg1|]. split; [reflexivity|].
        intros id _ Hid. rewrite Hids. exact Hid.
  - unfold process_powerup, PowerUp_move in Hp.
    rewrite Hsc in Hp. cbn [bind] in Hp. exfalso.
    set (pu' := mkPowerUp _ _ _ _ _) in Hp.
    set (g1 := set_powerups g (store_powerup pu' (powerups g))) in Hp.
    assert (Hids : map pu_id (powerups g1) = map pu_id (powerups g))
      by (apply store_powerup_ids).
    destruct (remove_powerup_sub (pu_id pu') (powerups g1))
      as (l' & Hl' & _); [rewrite Hids; exact Hin|].
    unfold resolve_powerup in Hp.
    destruct (colliderect _ _).
    + rewrite (proj1 (apply_powerup_fields _ _)), Hl' in Hp. discriminate.
    + destruct (rect_right _ <? 0); [|discriminate].
      rewrite Hl' in Hp. discriminate.
Qed.

Lemma score_cloud_step (g : Game) (c : Cloud) :
  game_inv g -> game_ok g ->
  In (cl_id c) (map cl_id (clouds g)) ->
  safe (fun g' =>
          game_inv g' /\ game_ok g' /\ next_id g' = next_id g
          /\ (forall id, id <> cl_id c -> In id (map cl_id (clouds g)) ->
                         In id (map cl_id (clouds g'))))
       (score_cloud g c).
Proof.
  intros Hinv Hok Hin.
  destruct (score_cloud g c) as [g'|e] eqn:Hp; unfold safe.
  - split; [exact (score_cloud_inv _ _ _ Hinv Hp)|].
    unfold score_cloud in Hp.
    destruct (calculate _ _ _) as [[p' b]|] eqn:Hcalc; cbn [bind] in Hp;
      [|discriminate].
    pose proof (calculate_pl_rect _ _ _ _ _ Hcalc) as Hrect.
    set (g1 := if b && _ then _ else _) in Hp.
    assert (Hg1 : game_ok g1 /\ clouds g1 = clouds g
                  /\ next_id g1 = next_id g).
    { destruct Hok as [H1 H2 H3 H4 H5 H6 H7 H8 H9 H10 H11].
      subst g1. destruct (b && _); (split; [|split; reflexivity]);
        constructor; game_fields; rewrite ?Hrect; auto.
      apply difficulty_speeds_speed_up. assumption. }
    destruct Hg1 as (Hg1 & Hc1 & Hn1).
    destruct (remove_cloud_sub (cl_id c) (clouds g1))
      as (l' & Hl' & HF & HN & HI); [rewrite Hc1; exact Hin|].
    rewrite Hl' in Hp. cbn [bind] in Hp.
    assert (Hg2 : game_ok (set_clouds g1 l')).
    { apply game_ok_set_clouds; [assumption| |].
      - apply HF, (ok_clouds g1 Hg1).
      - apply HN, (ok_cloud_ids g1 Hg1). }
    assert (Hfin : game_ok g' /\ next_id g' = next_id g
                   /\ clouds g' = l').
    { injection Hp as <-.
      match goal with
      | |- context [if ?c then _ else _] => destruct c
      end.
      - split; [|split; [exact Hn1|reflexivity]].
        destruct Hg2 as [H1 H2 H3 H4 H5 H6 H7 H8 H9 H10 H11].
        constructor; game_fields; auto; discriminate.
      - split; [exact Hg2|]. split; [exact Hn1|reflexivity]. }
    destruct Hfin as (Hf1 & Hf2 & Hf3).
    split; [exact Hf1|]. split; [exact Hf2|].
    intros id Hne Hid. rewrite Hf3. apply HI; [exact Hne|].
    rewrite Hc1. exact Hid.
  - unfold score_cloud in Hp.
    destruct (calculate _ _ _) as [[p' b]|e0] eqn:Hcalc; cbn [bind] in Hp.
    + exfalso. set (g1 := if b && _ then _ else _) in Hp.
      assert (Hc1 : clouds g1 = clouds g)
        by (subst g1; destruct (b && _); reflexivity).
      destruct (remove_cloud_sub (cl_id c) (clouds g1))
        as (l' & Hl' & _); [rewrite Hc1; exact Hin|].
      rewrite Hl' in Hp. discriminate.
    + injection Hp as <-. exact (calculate_error _ _ _ _ Hcalc).
Qed.

Lemma cloud_offscreen_step (g : Game) (c : Cloud) :
  game_inv g -> game_ok g ->
  In (cl_id c) (map cl_id (clouds g)) ->
  safe (fun g' =>
          game_inv g' /\ game_ok g' /\ next_id g' = next_id g
          /\ (forall id, id <> cl_id c -> In id (map cl_id (clouds g)) ->
                         In id (map cl_id (clouds g'))))
       (cloud_offscreen g c).
Proof.
  intros Hinv Hok Hin. unfold cloud_offscreen.
  destruct (rect_right _ <? 0).
  - destruct (remove_cloud_sub (cl_id c) (clouds g))
      as (l' & Hl' & HF & HN & HI); [exact Hin|].
    rewrite Hl'. cbn [bind safe].
    split; [|split; [|split]].
    + destruct Hinv as (Hs & Hx & Hw & Hc). repeat split; auto.
    + apply game_ok_set_clouds; [assumption| |].
      * apply HF, (ok_clouds g Hok).
      * apply HN, (ok_cloud_ids g Hok).
    + reflexivity.
    + intros id Hne Hid. cbn [set_clouds clouds]. apply HI; assumption.
  - cbn [safe]. auto.
Qed.

Lemma process_cloud_step (env : Env) (speed : float) (g : Game) (c : Cloud) :
  In speed effective_speeds -> game_inv g -> game_ok g ->
  cloud_ok (next_id g) c -> cloud_in_view c ->
  In (cl_id c) (map cl_id (clouds g)) ->
  safe (fun g' =>
          game_inv g' /\ game_ok g' /\ next_id g' = next_id g
          /\ (forall id, id <> cl_id c -> In id (map cl_id (clouds g)) ->
                         In id (map cl_id (clouds g'))))
       (process_cloud env speed g c).
Proof.
  intros Hsp Hinv Hok Hc Hview Hin. unfold process_cloud, Cloud_move.
  destruct (scroll_cases (cl_rect c) speed Hsp Hview) as (x & Hsc & _).
  rewrite Hsc. cbn [bind].
  set (c' := mkCloud _ _ _ _ _).
  assert (Hc' : cloud_ok (next_id g) c')
    by (destruct Hc as (A & B & C & D & E); split; [exact A|];
        split; [exact B|]; split; [exact C|]; split; [exact D|exact E]).
  set (g1 := set_clouds g (store_cloud c' (clouds g))).
  assert (Hids : map cl_id (clouds g1) = map cl_id (clouds g))
    by (apply store_cloud_ids).
  assert (Hg1 : game_ok g1).
  { apply game_ok_set_clouds; [assumption| |].
    - apply store_cloud_Forall; [assumption|apply (ok_clouds g Hok)].
    - rewrite store_cloud_ids. apply (ok_cloud_ids g Hok). }
  assert (Hi1 : game_inv g1).
  { destruct Hinv as (Hs & Hx & Hw & Hcl). repeat split; auto.
    cbn [g1 set_clouds clouds]. apply store_cloud_Forall; [|assumption].
    destruct Hc' as (_ & ? & _). assumption. }
  assert (Hfield : on_field g1 c').
  { destruct Hi1 as (_ & Hx & Hw & _). destruct Hc' as (_ & Hw' & _).
    unfold on_field. rewrite Hw, Hw'. lia. }
  assert (Hin1 : In (cl_id c') (map cl_id (clouds g1)))
    by (rewrite Hids; exact Hin).
  unfold resolve_cloud, cloud_collision.
  destruct (colliderect (pl_rect (player g1)) (cl_rect c')) eqn:Hcol.
  - pose proof (collision_on_screen g1 c' Hfield Hcol) as Hright.
    assert (Hoff : forall g2, cloud_offscreen g2 c' = Ok g2)
      by (intros g2; unfold cloud_offscreen; rewrite Hright; reflexivity).
    destruct (0 <? timer_ghost_mode g1).
    + cbn [bind]. rewrite Hoff. cbn [safe].
      split; [exact Hi1|]. split; [exact Hg1|]. split; [reflexivity|].
      intros id _ Hid. rewrite Hids. exact Hid.
    + pose proof (score_cloud_step g1 c' Hi1 Hg1 Hin1) as Hs.
      destruct (score_cloud g1 c') as [g2|e]; cbn [bind safe] in *;
        [|exact Hs].
      rewrite Hoff. cbn [safe]. destruct Hs as (S1 & S2 & S3 & S4).
      split; [exact S1|]. split; [exact S2|]. split; [exact S3|].
      intros id Hne Hid. apply S4; [exact Hne|]. rewrite Hids. exact Hid.
  - cbn [bind].
    pose proof (cloud_offscreen_step g1 c' Hi1 Hg1 Hin1) as Hs.
    destruct (cloud_offscreen g1 c') as [g2|e]; cbn [safe] in *; [|exact Hs].
    destruct Hs as (S1 & S2 & S3 & S4).
    split; [exact S1|]. split; [exact S2|]. split; [exact S3|].
    intros id Hne Hid. apply S4; [exact Hne|]. rewrite Hids. exact Hid.
Qed.

Lemma for_each_safe {A : Type} (I : Game -> list A -> Prop)
    (body : Game -> A -> result Game) :
  (forall g a l, I g (a :: l) -> safe (fun g' => I g' l) (body g a)) ->
  forall (l : list A) (g : Game),
    I g l -> safe (fun g' => I g' []) (for_each body l g).
Proof.
  intros Hbody l. induction l as [|a l IH]; intros g Hg; cbn [for_each].
  - exact Hg.
  - specialize (Hbody g a l Hg).
    destruct (body g a) as [g'|e]; cbn [bind safe] in *; [|exact Hbody].
    apply IH. exact Hbody.
Qed.

Lemma cloud_at_in_view (env : Env) (speed : float) (c : Cloud) (x : Z) :
  In speed effective_speeds -> cloud_in_view c -> rw (cl_rect c) = 180 ->
  scrolled (rx (cl_rect c)) speed = Ok x ->
  (rect_right (cl_rect (cloud_at env c x)) <? 0) = false ->
  cloud_in_view (cloud_at env c x).
Proof.
  intros Hs Hv Hw Hx Hr.
  destruct (scrolled_in_view _ _ Hs Hv) as (x' & E & B).
  rewrite Hx in E. injection E as <-.
  apply Z.ltb_ge in Hr. unfold cloud_in_view, rect_right in *.
  cbn [cloud_at cl_rect rx rw] in *. lia.
Qed.

Lemma powerup_at_in_view (speed : float) (pu : PowerUp) (x : Z) :
  In speed effective_speeds -> powerup_in_view pu -> rw (pu_rect pu) = 40 ->
  scrolled (rx (pu_rect pu)) speed = Ok x ->
  (rect_right (pu_rect (powerup_at pu x)) <? 0) = false ->
  powerup_in_view (powerup_at pu x).
Proof.
  intros Hs Hv Hw Hx Hr.
  assert (Hv' : -180 <= rx (pu_rect pu) <= 1300)
    by (unfold powerup_in_view in Hv; lia).
  destruct (scrolled_in_view _ _ Hs Hv') as (x' & E & B).
  rewrite Hx in E. injection E as <-.
  apply Z.ltb_ge in Hr. unfold powerup_in_view, rect_right in *.
  cbn [powerup_at pu_rect rx rw] in *. lia.
Qed.

Lemma collisions_ok (env : Env) (speed : float) (g : Game) :
  In speed effective_speeds -> game_inv g -> game_ok g -> coords_ok g ->
  safe (fun g' => game_inv g' /\ game_ok g' /\ coords_ok g')
       (collisions env speed g).
Proof.
  intros Hsp Hinv Hok [Hcv Hpv]. unfold collisions.
  assert (H1 : safe (fun g' => powerup_loop_inv g' [])
                 (for_each (process_powerup speed) (powerups g) g)).
  { apply for_each_safe.
    - intros g0 a l (Hi & Ho & HF & HV & HN & HI).
      inversion HF as [|? ? Ha HF']; subst.
      inversion HV as [|? ? Hva HV']; subst.
      cbn [map] in HN, HI. inversion HN as [|? ? Hna HN']; subst.
      pose proof (process_powerup_step speed g0 a Hsp Hi Ho Ha Hva
                    (HI _ (or_introl eq_refl))) as Hs.
      destruct (process_powerup speed g0 a) as [g'|e]; cbn [safe] in *;
        [|exact Hs].
      destruct Hs as (S1 & S2 & S3 & S4).
      split; [exact S1|]. split; [exact S2|]. rewrite S3.
      split; [exact HF'|]. split; [exact HV'|]. split; [exact HN'|].
      intros id Hid. apply S4.
      + intros ->. contradiction.
      + apply HI. right. exact Hid.
    - split; [exact Hinv|]. split; [exact Hok|].
      split; [apply (ok_powerups g Hok)|]. split; [exact Hpv|].
      split; [apply (ok_powerup_ids g Hok)|apply incl_refl]. }
  destruct (for_each (process_powerup speed) (powerups g) g) as [g1|e] eqn:E1;
    cbn [bind safe] in *; [|exact H1].
  destruct H1 as (Hi1 & Ho1 & _).
  destruct (powerup_loop_shape speed (powerups g) [] g g1
              (ok_powerup_ids g Hok) eq_refl E1)
    as (Q1 & _ & _ & _ & keptp & Kp1 & Kp2 & _).
  cbn [app] in Kp1.
  assert (Hpv1 : Forall powerup_in_view (powerups g1)).
  { rewrite Kp1. apply Forall_forall. intros pu' Hin.
    destruct (Kp2 pu' Hin) as (pu & x & Hpu & Hx & -> & Hr).
    pose proof (ok_powerups g Hok) as Hall.
    rewrite Forall_forall in Hall, Hpv.
    destruct (Hall pu Hpu) as (_ & Hw & _).
    apply (powerup_at_in_view speed); auto. }
  assert (Hcv1 : Forall cloud_in_view (clouds g1))
    by (rewrite Q1; exact Hcv).
  assert (H2 : safe (fun g' => cloud_loop_inv g' [])
                 (for_each (process_cloud env speed) (clouds g1) g1)).
  { apply for_each_safe.
    - intros g0 a l (Hi & Ho & HF & HV & HN & HI).
      inversion HF as [|? ? Ha HF']; subst.
      inversion HV as [|? ? Hva HV']; subst.
      cbn [map] in HN, HI. inversion HN as [|? ? Hna HN']; subst.
      pose proof (process_cloud_step env speed g0 a Hsp Hi Ho Ha Hva
                    (HI _ (or_introl eq_refl))) as Hs.
      destruct (process_cloud env speed g0 a) as [g'|e]; cbn [safe] in *;
        [|exact Hs].
      destruct Hs as (S1 & S2 & S3 & S4).
      split; [exact S1|]. split; [exact S2|]. rewrite S3.
      split; [exact HF'|]. split; [exact HV'|]. split; [exact HN'|].
      intros id Hid. apply S4.
      + intros ->. contradiction.
      + apply HI. right. exact Hid.
    - split; [exact Hi1|]. split; [exact Ho1|].
      split; [apply (ok_clouds g1 Ho1)|]. split; [exact Hcv1|].
      split; [apply (ok_cloud_ids g1 Ho1)|apply incl_refl]. }
  destruct (for_each (process_cloud env speed) (clouds g1) g1) as [g2|e] eqn:E2;
    cbn [safe] in *; [|exact H2].
  destruct H2 as (Hi2 & Ho2 & _).
  destruct (cloud_loop_shape env speed (clouds g1) [] g1 g2
              (ok_cloud_ids g1 Ho1) eq_refl E2)
    as (R1 & _ & _ & _ & keptc & Kc1 & Kc2 & _).
  cbn [app] in Kc1.
  split; [exact Hi2|]. split; [exact Ho2|]. split.
  - rewrite Kc1. apply Forall_forall. intros c' Hin.
    destruct (Kc2 c' Hin) as (c & x & Hc & Hx & -> & Hr).
    pose proof (ok_clouds g1 Ho1) as Hall.
    rewrite Forall_forall in Hall, Hcv1.
    destruct (Hall c Hc) as (_ & Hw & _).
    apply (cloud_at_in_view env speed); auto.
  - rewrite R1. exact Hpv1.
Qed.

Lemma spawn_clouds_tick_coords (env : Env) (freq : Z) (g : Game) :
  coords_ok g -> coords_ok (spawn_clouds_tick env freq g).
Proof.
  intros [Hc Hp]. unfold spawn_clouds_tick. cbv zeta.
  destruct (_ <? _).
  - rewrite spawn_cloud_wall_eq. split; game_fields; [|exact Hp].
    apply Forall_app. split; [exact Hc|].
    repeat (apply Forall_cons;
            [unfold cloud_in_view, lane_cloud, new_Cloud, WIDTH;
             cbn [cl_rect rx]; lia|]).
    apply Forall_nil.
  - split; game_fields; assumption.
Qed.

Lemma spawn_powerups_tick_coords (env : Env) (g : Game) :
  coords_ok g -> coords_ok (spawn_powerups_tick env g).
Proof.
  intros [Hc Hp]. unfold spawn_powerups_tick. cbv zeta.
  destruct (_ <? _).
  - unfold spawn_powerup. cbv zeta. split; game_fields; [exact Hc|].
    apply Forall_app. split; [exact Hp|].
    apply Forall_cons; [|apply Forall_nil].
    unfold powerup_in_view, new_PowerUp, WIDTH. cbn [pu_rect rx]. lia.
  - split; game_fields; assumption.
Qed.

Lemma spawners_coords (env : Env) (freq : Z) (g : Game) :
  coords_ok g -> coords_ok (spawners env freq g).
Proof.
  intros H. unfold spawners.
  apply spawn_powerups_tick_coords, spawn_clouds_tick_coords. exact H.
Qed.

Lemma playing_frame_ok (env : Env) (g : Game) :
  game_inv g -> game_ok g -> coords_ok g ->
  safe (fun g' => game_inv g' /\ game_ok g' /\ coords_ok g')
       (playing_frame env g).
Proof.
  intros Hinv Hok Hco. unfold playing_frame.
  pose proof (movement_inv env g Hinv) as Hi1.
  pose proof (movement_ok env g Hok) as Ho1.
  pose proof (calculate_speeds_inv _ Hi1) as Hi2.
  pose proof (calculate_speeds_ok _ Ho1) as Ho2.
  pose proof (calculate_speeds_outputs _ (ok_speed _ Ho1)) as [Hf Hq].
  assert (Hc2 : coords_ok (snd (calculate_speeds (movement env g)))).
  { destruct (calculate_speeds_fields (movement env g))
      as (_ & _ & _ & _ & _ & _ & C7 & C8 & _).
    destruct (movement_fields env g) as (_ & M2 & M3 & _).
    cbv zeta in *. unfold coords_ok. rewrite C7, C8, M2, M3. exact Hco. }
  destruct (calculate_speeds (movement env g)) as [[speed freq] g2].
  cbn [fst snd] in *.
  apply collisions_ok; [exact Hf| | |].
  - apply spawners_inv. exact Hi2.
  - apply spawners_ok; assumption.
  - apply spawners_coords. exact Hc2.
Qed.

Lemma reset_game_ok (env : Env) (g : Game) : game_ok (reset_game env g).
Proof.
  unfold reset_game. cbv zeta. rewrite spawn_cloud_wall_eq.
  destruct g as [st pl cl pu tg tc tp ds ts tgm ti tr ly ni].
  constructor; game_fields.
  - discriminate.
  - reflexivity.
  - reflexivity.
  - reflexivity.
  - cbn. lia.
  - unfold timers_in_range. game_fields.
    unfold BASE_CLOUD_FREQ, POWERUP_FREQUENCY. lia.
  - apply difficulty_speeds_base.
  - cbn [app].
    repeat (apply Forall_cons; [apply lane_cloud_ok; game_fields; lia|]).
    apply Forall_nil.
  - cbn [app map]. unfold lane_cloud. cbn [new_Cloud cl_id]. game_fields.
    repeat constructor; cbn [In]; lia.
  - apply Forall_nil.
  - apply NoDup_nil.
Qed.

Lemma reset_game_coords (env : Env) (g : Game) : coords_ok (reset_game env g).
Proof.
  unfold reset_game. cbv zeta. rewrite spawn_cloud_wall_eq.
  destruct g as [st pl cl pu tg tc tp ds ts tgm ti tr ly ni].
  split; game_fields; [|apply Forall_nil]. cbn [app].
  repeat (apply Forall_cons;
          [unfold cloud_in_view, lane_cloud, new_Cloud, WIDTH;
           cbn [cl_rect rx]; lia|]).
  apply Forall_nil.
Qed.

Lemma process_events_ok (env : Env) (evs : list Event) (g : Game) :
  game_inv g -> game_ok g -> coords_ok g ->
  match process_events env evs g with
  | Ok g' => game_inv g' /\ game_ok g' /\ coords_ok g'
  | Raise e => e = SystemExit
  end.
Proof.
  revert g. induction evs as [|ev evs IH]; intros g Hi Ho Hc;
    cbn [process_events]; [auto|].
  destruct ev; cbn [handle_event bind].
  - reflexivity.
  - destruct (state g); cbn [bind]; apply IH; auto;
      try apply reset_game_inv; try apply reset_game_ok;
      apply reset_game_coords.
  - apply IH; assumption.
Qed.

Lemma transition_frame_ok (g : Game) :
  game_inv g -> state g = TRANSITION_TO_LANDING ->
  game_ok g -> game_ok (transition_frame g).
Proof.
  intros (_ & Hx & _) Hs [H1 H2 H3 H4 H5 H6 H7 H8 H9 H10 H11].
  destruct g as [st pl cl pu tg tc tp ds ts tgm ti tr ly ni].
  unfold transition_frame. game_fields. subst st.
  destruct (WIDTH <? _); constructor; game_fields; auto; discriminate.
Qed.

Lemma animate_landing_scene_ok (g : Game) :
  state g = LANDING_SCENE -> game_ok g -> game_ok (animate_landing_scene g).
Proof.
  intros Hs [H1 H2 H3 H4 H5 H6 H7 H8 H9 H10 H11].
  destruct g as [st pl cl pu tg tc tp ds ts tgm ti tr ly ni].
  unfold animate_landing_scene, animate_stick_figure. game_fields. subst st.
  destruct (ly <? _); [constructor; game_fields; auto|].
  destruct (figure_x pl <? _); constructor; game_fields; auto.
Qed.

Lemma frame_ok (env : Env) (g : Game) :
  game_inv g -> game_ok g -> coords_ok g ->
  match frame env g with
  | Ok g' => game_inv g' /\ game_ok g' /\ coords_ok g'
  | Raise e => e <> ValueError /\ e <> TypeError
  end.
Proof.
  intros Hi Ho Hc. unfold frame.
  pose proof (process_events_ok env (events env) g Hi Ho Hc) as He.
  destruct (process_events env (events env) g) as [g1|e]; cbn [bind];
    [|subst e; split; discriminate].
  destruct He as (Hi1 & Ho1 & Hc1).
  destruct (state g1) eqn:Hs.
  - pose proof (playing_frame_ok env g1 Hi1 Ho1 Hc1) as Hp.
    destruct (playing_frame env g1); cbn [safe] in Hp;
      [exact Hp|subst; split; discriminate].
  - split; [|split; [apply transition_frame_ok; assumption|]].
    + apply (frame_inv (mkEnv [] false false (fun _ => 0%nat) (fun _ => 0%nat)
                          (fun _ => 0%nat) fzero 0%nat (fun _ => 0)) g1);
        [exact Hi1|].
      unfold frame. cbn [events process_events bind]. rewrite Hs. reflexivity.
    + unfold transition_frame. cbv zeta.
      destruct (WIDTH <? _); exact Hc1.
  - split; [|split; [apply animate_landing_scene_ok; assumption|]].
    + apply (frame_inv (mkEnv [] false false (fun _ => 0%nat) (fun _ => 0%nat)
                          (fun _ => 0%nat) fzero 0%nat (fun _ => 0)) g1);
        [exact Hi1|].
      unfold frame. cbn [events process_events bind]. rewrite Hs. reflexivity.
    + unfold animate_landing_scene, animate_stick_figure. cbv zeta.
      destruct (lander_y g1 <? _); [exact Hc1|].
      match goal with
      | |- context [if ?c then _ else _] => destruct c
      end; exact Hc1.
  - auto.
Qed.

Lemma reachable_well_formed (g : Game) : reachable g -> well_formed g.
Proof.
  intros H. induction H as [env|env g g' Hr IH Hf].
  - unfold init_game. split; [|split].
    + apply reset_game_inv.
    + apply reset_game_ok.
    + apply reset_game_coords.
  - destruct IH as (Hi & Ho & Hc).
    pose proof (frame_ok env g Hi Ho Hc) as H.
    rewrite Hf in H. exact H.
Qed.

Lemma reachable_ok (g : Game) : reachable g -> game_ok g.
Proof. intros H. apply (reachable_well_formed g H). Qed.

(** X13.  No game the loop reaches is in state GAME_OVER, and the target is
    always [TARGET_NUMBER]. *)
Theorem reachable_never_game_over (g : Game) :
  reachable g -> state g <> GAME_OVER /\ target g = TARGET_NUMBER.
Proof.
  intros Hr. pose proof (reachable_ok g Hr) as Hok.
  split; [exact (ok_state g Hok)|exact (ok_target g Hok)].
Qed.

Lemma reachable_never_game_over_witness :
  reachable (init_game quiet_env)
  /\ state (init_game quiet_env) <> GAME_OVER
  /\ target (init_game quiet_env) = TARGET_NUMBER.
Proof.
  assert (H : reachable (init_game quiet_env)) by apply reachable_init.
  split; [exact H|]. exact (reachable_never_game_over _ H).
Defined.

(** X14.  In every game the loop reaches the ship is 100 by 60, at
    [x = 100] while PLAYING and never left of it, and between -8 and 648
    vertically. *)
Theorem reachable_ship_position (g : Game) :
  reachable g ->
  rw (pl_rect (player g)) = 100 /\ rh (pl_rect (player g)) = 60
  /\ 100 <= rx (pl_rect (player g))
  /\ (state g = PLAYING -> rx (pl_rect (player g)) = 100)
  /\ -8 <= ry (pl_rect (player g)) <= 648.
Proof.
  intros Hr. pose proof (reachable_ok g Hr) as Hok.
  destruct (reachable_inv g Hr) as (_ & Hx & Hw & _).
  split; [exact Hw|]. split; [exact (ok_h g Hok)|]. split; [exact Hx|].
  split; [exact (ok_x g Hok)|exact (ok_y g Hok)].
Qed.

Lemma reachable_ship_position_witness :
  reachable (init_game quiet_env)
  /\ rw (pl_rect (player (init_game quiet_env))) = 100
  /\ rh (pl_rect (player (init_game quiet_env))) = 60
  /\ 100 <= rx (pl_rect (player (init_game quiet_env)))
  /\ (state (init_game quiet_env) = PLAYING ->
      rx (pl_rect (player (init_game quiet_env))) = 100)
  /\ -8 <= ry (pl_rect (player (init_game quiet_env))) <= 648.
Proof.
  assert (H : reachable (init_game quiet_env)) by apply reachable_init.
  split; [exact H|]. exact (reachable_ship_position _ H).
Defined.

(** X15.  In every game the loop reaches the effect timers lie between 0
    and their starting value, and the spawn timers between 0 and their
    frequency. *)
Theorem reachable_timers_in_range (g : Game) :
  reachable g ->
  0 <= timer_slow_motion g <= 600 /\ 0 <= timer_ghost_mode g <= 300
  /\ 0 <= timer_inverted g <= 300 /\ 0 <= timer_rapid_fire g <= 300
  /\ 0 <= timer_spawn_cloud g <= BASE_CLOUD_FREQ
  /\ 0 <= timer_spawn_powerup g <= POWERUP_FREQUENCY.
Proof.
  intros Hr. pose proof (reachable_ok g Hr) as Hok.
  exact (ok_timers g Hok).
Qed.

Lemma reachable_timers_in_range_witness :
  reachable (init_game quiet_env)
  /\ 0 <= timer_slow_motion (init_game quiet_env) <= 600
  /\ 0 <= timer_ghost_mode (init_game quiet_env) <= 300
  /\ 0 <= timer_inverted (init_game quiet_env) <= 300
  /\ 0 <= timer_rapid_fire (init_game quiet_env) <= 300
  /\ 0 <= timer_spawn_cloud (init_game quiet_env) <= BASE_CLOUD_FREQ
  /\ 0 <= timer_spawn_powerup (init_game quiet_env) <= POWERUP_FREQUENCY.
Proof.
  assert (H : reachable (init_game quiet_env)) by apply reachable_init.
  split; [exact H|]. exact (reachable_timers_in_range _ H).
Defined.

(** X16.  In every game the loop reaches the difficulty speed is one of
    [difficulty_speeds]: a finite float, not below the base speed and not
    above 18. *)
Theorem reachable_difficulty_speed (g : Game) :
  reachable g ->
  In (current_difficulty_speed g) difficulty_speeds
  /\ is_finite (current_difficulty_speed g)
  /\ flt (current_difficulty_speed g) (of_Z BASE_SCROLL_SPEED) = false
  /\ flt (of_Z 18) (current_difficulty_speed g) = false.
Proof.
  intros Hr. pose proof (ok_speed g (reachable_ok g Hr)) as Hs.
  split; [exact Hs|]. exact (difficulty_speeds_bounds _ Hs).
Qed.

Lemma reachable_difficulty_speed_witness :
  reachable (init_game quiet_env)
  /\ In (current_difficulty_speed (init_game quiet_env)) difficulty_speeds
  /\ is_finite (current_difficulty_speed (init_game quiet_env))
  /\ flt (current_difficulty_speed (init_game quiet_env))
         (of_Z BASE_SCROLL_SPEED) = false
  /\ flt (of_Z 18) (current_difficulty_speed (init_game quiet_env)) = false.
Proof.
  assert (H : reachable (init_game quiet_env)) by apply reachable_init.
  split; [exact H|]. exact (reachable_difficulty_speed _ H).
Defined.

(** X17.  In every game the loop reaches the clouds are 180 by 120 with an
    operand between 1 and 9 (never 0), the power-ups are 40 by 40, and no two
    clouds and no two power-ups of the lists are the same object. *)
Theorem reachable_clouds_well_formed (g : Game) :
  reachable g ->
  Forall (cloud_ok (next_id g)) (clouds g)
  /\ NoDup (map cl_id (clouds g))
  /\ Forall (powerup_ok (next_id g)) (powerups g)
  /\ NoDup (map pu_id (powerups g))
  /\ (forall c, In c (clouds g) -> cl_val c <> 0).
Proof.
  intros Hr. pose proof (reachable_ok g Hr) as Hok.
  split; [exact (ok_clouds g Hok)|]. split; [exact (ok_cloud_ids g Hok)|].
  split; [exact (ok_powerups g Hok)|]. split; [exact (ok_powerup_ids g Hok)|].
  intros c Hc. pose proof (ok_clouds g Hok) as Hall.
  rewrite Forall_forall in Hall. destruct (Hall c Hc) as (_ & _ & _ & Hv & _).
  lia.
Qed.

Lemma reachable_clouds_well_formed_witness :
  reachable (init_game quiet_env)
  /\ Forall (cloud_ok (next_id (init_game quiet_env)))
       (clouds (init_game quiet_env))
  /\ NoDup (map cl_id (clouds (init_game quiet_env)))
  /\ Forall (powerup_ok (next_id (init_game quiet_env)))
       (powerups (init_game quiet_env))
  /\ NoDup (map pu_id (powerups (init_game quiet_env)))
  /\ (forall c, In c (clouds (init_game quiet_env)) -> cl_val c <> 0).
Proof.
  assert (H : reachable (init_game quiet_env)) by apply reachable_init.
  split; [exact H|]. exact (reachable_clouds_well_formed _ H).
Defined.

Lemma frame_raise_cases (env : Env) (g : Game) (e : PyExc) :
  reachable g ->
  frame env g = Raise e ->
  (e = SystemExit /\ In QUIT (events env))
  \/ (e = OverflowError /\ ~ In QUIT (events env)).
Proof.
  intros Hr Hf.
  destruct (reachable_well_formed g Hr) as (Hi & Ho & Hc).
  destruct (in_dec Event_eq_dec QUIT (events env)) as [Hq|Hq].
  - left. unfold frame in Hf.
    rewrite (process_events_quit env _ g Hq) in Hf.
    injection Hf as <-. split; [reflexivity|exact Hq].
  - right. unfold frame in Hf.
    pose proof (process_events_ok env (events env) g Hi Ho Hc) as He.
    destruct (process_events_no_quit env (events env) g Hq) as [g1 Hg1].
    rewrite Hg1 in He, Hf. cbn [bind] in Hf. destruct He as (Hi1 & Ho1 & Hc1).
    destruct (state g1) eqn:Hs; try discriminate.
    pose proof (playing_frame_ok env g1 Hi1 Ho1 Hc1) as Hp.
    rewrite Hf in Hp. cbn [safe] in Hp.
    split; [exact Hp|exact Hq].
Qed.

(** X18.  A frame of a game the loop reaches never raises [ValueError]
    ([list.remove] always finds its object, and no NaN is rounded) nor
    [TypeError] (every coordinate a rect is given fits a C int), and it
    raises [SystemExit] exactly when a QUIT is among the events; the only
    other exception it can raise is [OverflowError]. *)
Theorem frame_failures (env : Env) (g : Game) :
  reachable g ->
  (frame env g = Raise SystemExit <-> In QUIT (events env))
  /\ frame env g <> Raise ValueError
  /\ frame env g <> Raise TypeError.
Proof.
  intros Hr. split; [split|split].
  - intros H. destruct (frame_raise_cases _ _ _ Hr H) as [[_ Hq]|[He _]];
      [exact Hq|discriminate].
  - intros Hq. unfold frame. rewrite (process_events_quit env _ g Hq).
    reflexivity.
  - intros H. destruct (frame_raise_cases _ _ _ Hr H) as [[He _]|[He _]];
      discriminate.
  - intros H. destruct (frame_raise_cases _ _ _ Hr H) as [[He _]|[He _]];
      discriminate.
Qed.

Lemma frame_failures_witness :
  reachable (init_game quiet_env)
  /\ (frame (sample_env [OtherEvent; QUIT] false false 0)
        (init_game quiet_env) = Raise SystemExit
      <-> In QUIT (events (sample_env [OtherEvent; QUIT] false false 0)))
  /\ frame (sample_env [OtherEvent; QUIT] false false 0)
       (init_game quiet_env) <> Raise ValueError
  /\ frame (sample_env [OtherEvent; QUIT] false false 0)
       (init_game quiet_env) <> Raise TypeError.
Proof.
  assert (H : reachable (init_game quiet_env)) by apply reachable_init.
  split; [exact H|]. exact (frame_failures _ _ H).
Defined.

(** X19.  In every game the loop reaches the score is non-negative and one
    [float] converts, so that DIVIDE by 0 is the no-op. *)
Theorem reachable_score_is_safe (g : Game) :
  reachable g ->
  0 <= score (player g)
  /\ (exists f, py_float (score (player g)) = Ok f)
  /\ calculate (player g) DIVIDE 0 = Ok (player g, false).
Proof.
  intros Hr. destruct (reachable_inv g Hr) as (Hs & _).
  pose proof (game_score_convertible _ Hs) as [f Hf].
  split; [exact (game_score_nonneg _ Hs)|]. split; [exists f; exact Hf|].
  unfold calculate. rewrite Hf. reflexivity.
Qed.

Lemma reachable_score_is_safe_witness :
  reachable (init_game quiet_env)
  /\ 0 <= score (player (init_game quiet_env))
  /\ (exists f, py_float (score (player (init_game quiet_env))) = Ok f)
  /\ calculate (player (init_game quiet_env)) DIVIDE 0
     = Ok (player (init_game quiet_env), false).
Proof.
  assert (H : reachable (init_game quiet_env)) by apply reachable_init.
  split; [exact H|]. exact (reachable_score_is_safe _ H).
Defined.

End WellFormed.

(** ** A frame in ghost mode *)

Section Ghost.

Lemma process_powerup_ghost (s : Z) (speed : float) (g g' : Game)
    (pu : PowerUp) :
  ghost_inv s g -> process_powerup speed g pu = Ok g' -> ghost_inv s g'.
Proof.
  intros (H1 & H2 & H3) H. unfold process_powerup in H.
  destruct (PowerUp_move pu speed) as [pu'|]; cbn [bind] in H; [|discriminate].
  unfold resolve_powerup in H.
  destruct (colliderect _ _).
  - destruct (remove_powerup _ _); cbn [bind] in H; [|discriminate].
    injection H as <-. unfold ghost_inv.
    destruct (pu_type pu'); cbn; repeat split; auto; lia.
  - destruct (rect_right _ <? 0).
    + destruct (remove_powerup _ _); cbn [bind] in H; [|discriminate].
      injection H as <-. repeat split; assumption.
    + injection H as <-. repeat split; assumption.
Qed.

Lemma process_cloud_ghost (s : Z) (env : Env) (speed : float) (g g' : Game)
    (c : Cloud) :
  ghost_inv s g -> process_cloud env speed g c = Ok g' -> ghost_inv s g'.
Proof.
  intros (H1 & H2 & H3) H. unfold process_cloud in H.
  destruct (Cloud_move _ _ _) as [c'|]; cbn [bind] in H; [|discriminate].
  unfold resolve_cloud, cloud_collision in H.
  cbn [set_clouds player timer_ghost_mode] in H.
  replace (0 <? timer_ghost_mode g) with true in H
    by (symmetry; apply Z.ltb_lt; exact H2).
  assert (Hoff : cloud_offscreen (set_clouds g (store_cloud c' (clouds g))) c'
                 = Ok g').
  { destruct (colliderect _ _); exact H. }
  clear H. unfold cloud_offscreen in Hoff.
  destruct (rect_right _ <? 0).
  - destruct (remove_cloud _ _); cbn [bind] in Hoff; [|discriminate].
    injection Hoff as <-. repeat split; assumption.
  - injection Hoff as <-. repeat split; assumption.
Qed.

Lemma spawners_fields (env : Env) (freq : Z) (g : Game) :
  state (spawners env freq g) = state g
  /\ player (spawners env freq g) = player g
  /\ timer_ghost_mode (spawners env freq g) = timer_ghost_mode g.
Proof.
  unfold spawners, spawn_powerups_tick, spawn_clouds_tick.
  repeat match goal with
  | |- context [if ?c then _ else _] => destruct c
  end; rewrite ?spawn_cloud_wall_eq; repeat split; reflexivity.
Qed.

Lemma ghost_frame_inv (env : Env) (g g' : Game) :
  state g = PLAYING ->
  1 < timer_ghost_mode g ->
  frame env g = Ok g' ->
  ghost_inv (score (player g)) g'.
Proof.
  intros Hs Hg H. unfold frame in H.
  destruct (process_events env (events env) g) as [g1|] eqn:He;
    cbn [bind] in H; [|discriminate].
  apply (process_events_playing env _ g g1 Hs) in He. subst g1.
  rewrite Hs in H. unfold playing_frame in H.
  destruct (movement_fields env g)
    as (M1 & _ & _ & _ & _ & _ & _ & _ & M9 & _).
  pose proof (movement_score env g) as M2.
  destruct (calculate_speeds_fields (movement env g))
    as (_ & _ & C3 & _ & C5 & C6 & _).
  cbv zeta in *.
  destruct (calculate_speeds (movement env g)) as [[speed freq] g2].
  cbn [snd] in *.
  destruct (spawners_fields env freq g2) as (S1 & S2 & S3).
  assert (Hinv : ghost_inv (score (player g)) (spawners env freq g2)).
  { unfold ghost_inv. rewrite S1, S2, S3, C3, C5, C6, M1, M2, M9.
    unfold count_down. destruct (Z.ltb_spec 0 (timer_ghost_mode g));
      repeat split; auto; lia. }
  unfold collisions in H.
  destruct (for_each (process_powerup speed) _ _) as [g3|] eqn:H3;
    cbn [bind] in H; [|discriminate].
  assert (Hinv3 : ghost_inv (score (player g)) g3).
  { refine (for_each_inv (ghost_inv (score (player g))) (fun _ => True)
              (process_powerup speed) _ _ _ _ _ Hinv H3).
    - intros ? ? ? _. apply process_powerup_ghost.
    - apply Forall_forall. intros; exact I. }
  refine (for_each_inv (ghost_inv (score (player g))) (fun _ => True)
            (process_cloud env speed) _ _ _ _ _ Hinv3 H).
  - intros ? ? ? _. apply process_cloud_ghost.
  - apply Forall_forall. intros; exact I.
Qed.


(** X20.  A whole PLAYING frame that starts with more than one frame of
    ghost mode left keeps the score and the state, whatever overlaps the
    ship, and ends in ghost mode. *)
Theorem ghost_frame_keeps_score (env : Env) (g g' : Game) :
  state g = PLAYING ->
  1 < timer_ghost_mode g ->
  frame env g = Ok g' ->
  score (player g') = score (player g)
  /\ state g' = PLAYING
  /\ 0 < timer_ghost_mode g'.
Proof.
  intros Hs Hg H.
  destruct (ghost_frame_inv env g g' Hs Hg H) as (? & ? & ?). auto.
Qed.

Lemma ghost_frame_keeps_score_witness :
  state (set_timer_ghost_mode
           (game_over_cloud 45 (cloud_at_player 15 ADD 5)) 300) = PLAYING
  /\ 1 < timer_ghost_mode
           (set_timer_ghost_mode
              (game_over_cloud 45 (cloud_at_player 15 ADD 5)) 300)
  /\ exists g',
       frame (sample_env [] false false 320)
         (set_timer_ghost_mode
            (game_over_cloud 45 (cloud_at_player 15 ADD 5)) 300) = Ok g'
       /\ score (player g')
          = score (player (set_timer_ghost_mode
                             (game_over_cloud 45 (cloud_at_player 15 ADD 5))
                             300))
       /\ state g' = PLAYING
       /\ 0 < timer_ghost_mode g'.
Proof.
  assert (H1 : state (set_timer_ghost_mode
                        (game_over_cloud 45 (cloud_at_player 15 ADD 5)) 300)
               = PLAYING) by reflexivity.
  assert (H2 : 1 < timer_ghost_mode
                     (set_timer_ghost_mode
                        (game_over_cloud 45 (cloud_at_player 15 ADD 5)) 300))
    by reflexivity.
  assert (H3 : exists g',
             frame (sample_env [] false false 320)
               (set_timer_ghost_mode
                  (game_over_cloud 45 (cloud_at_player 15 ADD 5)) 300)
             = Ok g')
    by (eexists; vm_compute; reflexivity).
  split; [exact H1|]. split; [exact H2|].
  destruct H3 as [g' H3]. exists g'. split; [exact H3|].
  exact (ghost_frame_keeps_score _ _ _ H1 H2 H3).
Defined.

End Ghost.

(** ** A whole PLAYING frame, object by object *)

Section FrameShape.

Lemma lane_cloud_ext (env : Env) (x : Z) (g1 g2 : Game) (i : nat) :
  next_id g1 = next_id g2 -> score (player g1) = score (player g2) ->
  lane_cloud env x g1 i = lane_cloud env x g2 i.
Proof. unfold lane_cloud. intros -> ->. reflexivity. Qed.

Lemma spawners_shape (env : Env) (freq : Z) (g : Game) :
  clouds (spawners env freq g) = clouds g ++ frame_wall env freq g
  /\ timer_spawn_cloud (spawners env freq g)
     = (if freq <? timer_spawn_cloud g + 1 then 0
        else timer_spawn_cloud g + 1)
  /\ player (spawners env freq g) = player g.
Proof.
  unfold spawners, spawn_powerups_tick, spawn_clouds_tick, frame_wall,
    spawn_powerup.
  cbv zeta. rewrite spawn_cloud_wall_eq.
  destruct g as [st pl cl pu tg tc tp ds ts tgm ti tr ly ni]. game_fields.
  destruct (freq <? tc + 1); game_fields;
    destruct (POWERUP_FREQUENCY <? tp + 1); game_fields;
    rewrite ?app_nil_r; repeat split; reflexivity.
Qed.

Lemma frame_after_timers_fields (env : Env) (g : Game) :
  clouds (frame_after_timers env g) = clouds g
  /\ powerups (frame_after_timers env g) = powerups g
  /\ player (frame_after_timers env g) = player (movement env g)
  /\ timer_spawn_cloud (frame_after_timers env g) = timer_spawn_cloud g
  /\ next_id (frame_after_timers env g) = next_id g
  /\ state (frame_after_timers env g) = state g
  /\ timer_ghost_mode (frame_after_timers env g)
     = count_down (timer_ghost_mode g).
Proof.
  unfold frame_after_timers.
  destruct (calculate_speeds_fields (movement env g))
    as (_ & _ & C3 & _ & C5 & C6 & C7 & C8 & _ & C10 & _ & _ & _ & C14).
  destruct (movement_fields env g)
    as (M1 & M2 & M3 & _ & M5 & _ & _ & _ & M9 & _ & _ & _ & M13).
  cbv zeta in *.
  rewrite C3, C5, C6, C7, C8, C10, C14, M1, M2, M3, M5, M9, M13.
  repeat split; reflexivity.
Qed.

Lemma frame_wall_ext (env : Env) (freq : Z) (g1 g2 : Game) :
  next_id g1 = next_id g2 -> score (player g1) = score (player g2) ->
  timer_spawn_cloud g1 = timer_spawn_cloud g2 ->
  frame_wall env freq g1 = frame_wall env freq g2.
Proof.
  intros Hn Hs Ht. unfold frame_wall. rewrite Ht.
  rewrite !(lane_cloud_ext env 0 g1 g2) by assumption. reflexivity.
Qed.

Lemma frame_before_loops_well_formed (env : Env) (g : Game) :
  well_formed g ->
  well_formed (frame_before_loops env g)
  /\ In (frame_speed env g) effective_speeds.
Proof.
  intros (Hinv & Hok & Hco). unfold frame_before_loops, frame_after_timers,
    frame_speed, frame_spawn_freq.
  pose proof (movement_inv env g Hinv) as Hi1.
  pose proof (movement_ok env g Hok) as Ho1.
  pose proof (calculate_speeds_inv _ Hi1) as Hi2.
  pose proof (calculate_speeds_ok _ Ho1) as Ho2.
  pose proof (calculate_speeds_outputs _ (ok_speed _ Ho1)) as [Hf Hq].
  assert (Hc2 : coords_ok (snd (calculate_speeds (movement env g)))).
  { destruct (calculate_speeds_fields (movement env g))
      as (_ & _ & _ & _ & _ & _ & C7 & C8 & _).
    destruct (movement_fields env g) as (_ & M2 & M3 & _).
    cbv zeta in *. unfold coords_ok. rewrite C7, C8, M2, M3. exact Hco. }
  split; [|exact Hf]. split; [|split].
  - apply spawners_inv. exact Hi2.
  - apply spawners_ok; assumption.
  - apply spawners_coords. exact Hc2.
Qed.

(** The two collision loops of a frame, from the game the spawners leave. *)
Lemma collisions_shape (env : Env) (speed : float) (g g' : Game) :
  In speed effective_speeds -> well_formed g ->
  collisions env speed g = Ok g' ->
  timer_spawn_cloud g' = timer_spawn_cloud g
  /\ (forall c', In c' (clouds g') ->
        exists c x, In c (clouds g)
                    /\ scrolled (rx (cl_rect c)) speed = Ok x
                    /\ c' = cloud_at env c x)
  /\ (forall c, In c (clouds g) ->
        exists x, scrolled (rx (cl_rect c)) speed = Ok x
          /\ (0 < timer_ghost_mode g'
              \/ colliderect (pl_rect (player g))
                   (cl_rect (cloud_at env c x)) = false ->
              0 <= rect_right (cl_rect (cloud_at env c x)) ->
              In (cloud_at env c x) (clouds g')))
  /\ (forall p', In p' (powerups g') ->
        exists p x, In p (powerups g)
                    /\ scrolled (rx (pu_rect p)) speed = Ok x
                    /\ p' = powerup_at p x)
  /\ (forall p, In p (powerups g) ->
        exists x, scrolled (rx (pu_rect p)) speed = Ok x
          /\ (colliderect (pl_rect (player g))
                (pu_rect (powerup_at p x)) = false ->
              0 <= rect_right (pu_rect (powerup_at p x)) ->
              In (powerup_at p x) (powerups g'))).
Proof.
  intros Hsp (Hinv & Hok & Hcv & Hpv) H. unfold collisions in H.
  destruct (for_each (process_powerup speed) (powerups g) g) as [g1|] eqn:E1;
    cbn [bind] in H; [|discriminate].
  destruct (powerup_loop_shape speed (powerups g) [] g g1
              (ok_powerup_ids g Hok) eq_refl E1)
    as (Q1 & Q2 & _ & Q4 & keptp & Kp1 & Kp2 & Kp3).
  cbn [app] in Kp1.
  assert (Hn1 : NoDup (map cl_id (clouds g1)))
    by (rewrite Q1; apply (ok_cloud_ids g Hok)).
  destruct (cloud_loop_shape env speed (clouds g1) [] g1 g' Hn1 eq_refl H)
    as (R1 & R2 & R3 & R4 & keptc & Kc1 & Kc2 & Kc3).
  cbn [app] in Kc1.
  split; [rewrite R4; exact Q4|].
  rewrite Forall_forall in Hcv, Hpv.
  split; [|split; [|split]].
  - intros c' Hin. rewrite Kc1 in Hin.
    destruct (Kc2 c' Hin) as (c & x & Hc & Hx & -> & _).
    exists c, x. rewrite <- Q1. auto.
  - intros c Hc.
    destruct (scrolled_in_view (rx (cl_rect c)) speed Hsp (Hcv c Hc))
      as (x & Hx & _).
    exists x. split; [exact Hx|]. intros Hk Hr. rewrite Kc1.
    apply Kc3; [rewrite Q1; exact Hc|exact Hx| |apply Z.ltb_ge; exact Hr].
    rewrite Q2. rewrite <- R3. exact Hk.
  - intros p' Hin. rewrite R1, Kp1 in Hin.
    destruct (Kp2 p' Hin) as (p & x & Hp & Hx & -> & _).
    exists p, x. auto.
  - intros p Hp.
    assert (Hv : -180 <= rx (pu_rect p) <= 1300)
      by (pose proof (Hpv p Hp) as V; unfold powerup_in_view in V; lia).
    destruct (scrolled_in_view (rx (pu_rect p)) speed Hsp Hv) as (x & Hx & _).
    exists x. split; [exact Hx|]. intros Hk Hr. rewrite R1, Kp1.
    apply Kp3; [exact Hp|exact Hx|exact Hk|apply Z.ltb_ge; exact Hr].
Qed.

Lemma frame_playing (env : Env) (g g' : Game) :
  state g = PLAYING -> frame env g = Ok g' ->
  collisions env (frame_speed env g) (frame_before_loops env g) = Ok g'.
Proof.
  intros Hs H. unfold frame in H.
  destruct (process_events env (events env) g) as [g1|] eqn:He;
    cbn [bind] in H; [|discriminate].
  apply (process_events_playing env _ g g1 Hs) in He. subst g1.
  rewrite Hs, playing_frame_eq in H. exact H.
Qed.

Lemma frame_speed_plain (env : Env) (g : Game) :
  timer_rapid_fire g <= 0 -> timer_slow_motion g <= 0 ->
  frame_speed env g = current_difficulty_speed g
  /\ frame_spawn_freq env g = BASE_CLOUD_FREQ.
Proof.
  intros Hr Hs. unfold frame_speed, frame_spawn_freq.
  destruct (movement_timers env g) as (Hslow & Hrapid & Hspeed).
  unfold calculate_speeds. rewrite Hslow.
  replace (0 <? timer_slow_motion g) with false
    by (symmetry; apply Z.ltb_ge; lia).
  rewrite Hrapid, Hspeed.
  replace (0 <? timer_rapid_fire g) with false
    by (symmetry; apply Z.ltb_ge; lia).
  split; reflexivity.
Qed.

Lemma frame_speed_expected (env : Env) (g : Game) :
  frame_spawn_freq env g = expected_spawn_freq g
  /\ forall x, -180 <= x <= 1300 ->
       scrolled x (frame_speed env g) = expected_shift g x.
Proof.
  unfold expected_spawn_freq, expected_shift.
  destruct (Z.ltb_spec 0 (timer_rapid_fire g)) as [Hr|Hr].
  - destruct (frame_speed_rapid env g Hr) as [-> ->].
    split; [reflexivity|]. intros x Hx. apply scrolled_12. exact Hx.
  - destruct (Z.ltb_spec 0 (timer_slow_motion g)) as [Hs|Hs].
    + destruct (frame_speed_slow env g Hr Hs) as [-> ->].
      split; reflexivity.
    + destruct (frame_speed_plain env g Hr Hs) as [-> ->].
      split; reflexivity.
Qed.


Lemma rapid_game_well_formed : well_formed rapid_game.
Proof.
  split; [|split].
  - unfold game_inv, rapid_game. game_fields. split; [|split; [|split]].
    + apply game_score_new.
    + cbn. lia.
    + reflexivity.
    + repeat constructor.
  - constructor; unfold rapid_game; game_fields.
    + discriminate.
    + reflexivity.
    + reflexivity.
    + reflexivity.
    + cbn. lia.
    + unfold timers_in_range. game_fields.
      unfold BASE_CLOUD_FREQ, POWERUP_FREQUENCY. lia.
    + apply difficulty_speeds_base.
    + repeat constructor; cbn; try lia; discriminate.
    + cbn. repeat constructor; cbn; intuition lia.
    + repeat constructor; cbn; lia.
    + repeat constructor. intros [].
  - split; unfold rapid_game; game_fields; repeat constructor; cbn; lia.
Qed.

End FrameShape.

(** ** The effect timers in a whole frame *)

Section FrameClaims.

(** C6.  A PLAYING frame of a well-formed game scrolls and spawns as the
    timers at its start say.  With the rapid-fire timer above 0 every cloud
    and every power-up the frame keeps has moved 12 to the left, whatever
    the slow-motion timer and the difficulty speed are, and the spawn timer
    is compared with 40; with only slow motion active they are put where
    [rect.x -= difficulty_speed * 0.5] puts them and the spawn timer is
    compared with [BASE_CLOUD_FREQ].  The objects of the frame are those of
    the game and the wall the frame spawns; a moved object that does not
    overlap the ship and is not off the screen is still in the list. *)
Theorem rapid_fire_overrides_slow_motion (env : Env) (g g' : Game) :
  well_formed g -> state g = PLAYING -> frame env g = Ok g' ->
  frame_scrolls env (expected_spawn_freq g) (expected_shift g) g g'.
Proof.
  intros Hw Hs H.
  pose proof (frame_playing env g g' Hs H) as Hc.
  destruct (frame_before_loops_well_formed env g Hw) as [Hw1 Hsp].
  destruct (collisions_shape env _ _ _ Hsp Hw1 Hc) as (T & A & B & C & D).
  destruct (frame_speed_expected env g) as [Ef Es].
  destruct Hw1 as (_ & _ & Hcv & Hpv).
  rewrite Forall_forall in Hcv, Hpv.
  unfold frame_before_loops in *. rewrite Ef in *.
  destruct (spawners_shape env (expected_spawn_freq g)
              (frame_after_timers env g)) as (S1 & S2 & S3).
  destruct (frame_after_timers_fields env g)
    as (F1 & F2 & F3 & F4 & F5 & F6 & F7).
  unfold frame_scrolls. cbv zeta.
  split; [|split; [|split; [|split; [|split]]]].
  - rewrite S1, F1. f_equal.
    apply frame_wall_ext; [exact F5| |exact F4].
    rewrite F3. apply movement_score.
  - rewrite T, S2, F4. reflexivity.
  - intros c' Hin. destruct (A c' Hin) as (c & x & Hc' & Hx & ->).
    exists c, x. split; [exact Hc'|]. split; [|reflexivity].
    rewrite <- Es; [exact Hx|]. apply Hcv. exact Hc'.
  - intros c Hin. destruct (B c Hin) as (x & Hx & K).
    exists x. split; [rewrite <- Es; [exact Hx|apply Hcv; exact Hin]|].
    intros Hcol Hr. apply K; [|exact Hr].
    right. rewrite S3, F3. exact Hcol.
  - intros p' Hin. destruct (C p' Hin) as (p & x & Hp' & Hx & ->).
    exists p, x. split; [exact Hp'|]. split; [|reflexivity].
    rewrite <- Es; [exact Hx|].
    pose proof (Hpv p Hp') as V. unfold powerup_in_view in V. lia.
  - intros p Hin. destruct (D p Hin) as (x & Hx & K).
    exists x. split.
    + rewrite <- Es; [exact Hx|].
      pose proof (Hpv p Hin) as V. unfold powerup_in_view in V. lia.
    + intros Hcol Hr. apply K; [|exact Hr].
      rewrite S3, F3. exact Hcol.
Qed.

Lemma rapid_fire_overrides_slow_motion_witness :
  well_formed rapid_game /\ state rapid_game = PLAYING
  /\ 0 < timer_rapid_fire rapid_game /\ 0 < timer_slow_motion rapid_game
  /\ exists g',
       frame (sample_env [] false false 320) rapid_game = Ok g'
       /\ frame_scrolls (sample_env [] false false 320) 40
            (fun x => Ok (x - 12)) rapid_game g'.
Proof.
  assert (H1 : well_formed rapid_game) by exact rapid_game_well_formed.
  assert (H2 : state rapid_game = PLAYING) by reflexivity.
  assert (H3 : exists g',
             frame (sample_env [] false false 320) rapid_game = Ok g')
    by (eexists; vm_compute; reflexivity).
  split; [exact H1|]. split; [exact H2|].
  split; [reflexivity|]. split; [reflexivity|].
  destruct H3 as [g' H3]. exists g'. split; [exact H3|].
  exact (rapid_fire_overrides_slow_motion _ _ _ H1 H2 H3).
Defined.




End FrameClaims.
